(** * gopglite: the host-side glue around the embedded PGLite WASM binary

    A shallow embedding of [NewPGLite], [Query], [RunQueries], [Close] and
    [setupEnv] (the library file of package main) and of [main] (main.go),
    together with the properties the specification states about them.

    What lives outside the repository is modelled as follows.

    - The WASM guest (the PostgreSQL build) and the wazero runtime that runs
      it are opaque: instantiation and every exported-function call are
      section variables that may change the whole world in any way and
      return any result.  Nothing is assumed about them.  What the host
      code itself does is logged in a trace the guest cannot touch.
    - The linear memory of the module is a list of bytes; [Memory.Write]
      follows wazero's documented bounds check.
    - The file system is a finite map from cleaned relative paths to nodes.
      Operations fail for the reasons the tree itself decides (ENOENT,
      ENOTDIR, EISDIR, EEXIST, ELOOP); symbolic links are leaves that are
      never followed, and writing to an open file always succeeds.
    - The embedded archive [pglite-wasi.tar.gz] is not part of the sources;
      what gzip.NewReader and tar.Reader make of it is a section variable.
    - Go run-time panics (a nil module handle, a missing export) are outside
      the model: the handle returned by instantiation is taken to export a
      memory and the three functions the code calls. *)

From Stdlib Require Import String Ascii List ZArith NArith Lia Bool.
From Stdlib.Strings Require Import Byte.
From Stdlib Require Import DecimalString.
From stdpp Require Import base option list gmap strings.

Set Default Proof Using "Type".

(* ------------------------------------------------------------------ *)
(** ** Go values: errors *)

Inductive Errno := ENOENT | ENOTDIR | EISDIR | EEXIST | ELOOP.

(** The dynamic types an [error] value of this program can have.
    [ExitError] is wazero's [*sys.ExitError]; [WrapError p e] is
    [fmt.Errorf(p + ": %w", e)]; [Errorf] is [fmt.Errorf] without [%w];
    [LibError] is an error value made by a library (gzip, tar, crypto/rand,
    wazero). *)
Inductive error :=
| ExitError (code : N)
| PathError (op path : string) (errno : Errno)
| LinkError (op old new : string) (errno : Errno)
| LibError (msg : string)
| Errorf (msg : string)
| WrapError (prefix : string) (inner : error).

(** [errors.Unwrap]. *)
Definition Unwrap (e : error) : option error :=
  match e with
  | WrapError _ inner => Some inner
  | _ => None
  end.

(** [%d] of an unsigned number. *)
Definition fmt_d (n : N) : string := NilZero.string_of_uint (N.to_uint n).

(** [%b] of an unsigned number, and of a [[]uint64]. *)
Fixpoint fmt_b_pos (p : positive) (acc : string) : string :=
  match p with
  | xH => String "1" acc
  | xO q => fmt_b_pos q (String "0" acc)
  | xI q => fmt_b_pos q (String "1" acc)
  end.

Definition fmt_b (n : N) : string :=
  match n with
  | N0 => "0"
  | Npos p => fmt_b_pos p ""
  end.

Definition fmt_b_slice (l : list N) : string :=
  "[" +:+ String.concat " " (map fmt_b l) +:+ "]".

(* ------------------------------------------------------------------ *)
(** ** The [strings] functions [RunQueries] uses *)

Module GoStrings.

Definition LF : ascii := "010"%char.

(** The separator of [RunQueries]: two line feeds. *)
Definition blank_line : string := String LF (String LF EmptyString).

(** [strings.Split(s, sep)] for a non-empty [sep]: cut at every leftmost,
    non-overlapping occurrence of [sep].  [skip] counts the bytes of an
    occurrence already recognised that are still to be dropped. *)
Fixpoint split_from (sep : string) (skip : nat) (s : string) : list string :=
  match s with
  | EmptyString => [EmptyString]
  | String c s' =>
      match skip with
      | S k => split_from sep k s'
      | O =>
          if String.prefix sep s
          then EmptyString :: split_from sep (String.length sep - 1) s'
          else match split_from sep 0 s' with
               | seg :: segs => String c seg :: segs
               | [] => [String c EmptyString]
               end
      end
  end.

(** With an empty separator Go explodes the string into its UTF-8
    sequences; this program never does that, and the branch is modelled
    byte by byte. *)
Definition Split (s sep : string) : list string :=
  match sep with
  | EmptyString => map (fun c => String c EmptyString) (list_ascii_of_string s)
  | _ => split_from sep 0 s
  end.

(** [strings.Join]. *)
Definition Join (elems : list string) (sep : string) : string :=
  String.concat sep elems.

(** The encodings of the code points [unicode.IsSpace] accepts: the six
    ASCII ones, U+0085, U+00A0, U+1680, U+2000..U+200A, U+2028, U+2029,
    U+202F, U+205F and U+3000.  UTF-8 decoding yields one of these code
    points exactly when the bytes are its (shortest) encoding. *)
Definition space1 (a : ascii) : bool :=
  let n := nat_of_ascii a in
  ((9 <=? n) && (n <=? 13)) || (n =? 32).

Definition space2 (a b : ascii) : bool :=
  (nat_of_ascii a =? 194) &&
  ((nat_of_ascii b =? 133) || (nat_of_ascii b =? 160)).

Definition space3 (a b c : ascii) : bool :=
  let x := nat_of_ascii a in
  let y := nat_of_ascii b in
  let z := nat_of_ascii c in
  ((x =? 225) && (y =? 154) && (z =? 128)) ||
  ((x =? 226) && (y =? 128) &&
     (((128 <=? z) && (z <=? 138)) || (z =? 168) || (z =? 169) || (z =? 175))) ||
  ((x =? 226) && (y =? 129) && (z =? 159)) ||
  ((x =? 227) && (y =? 128) && (z =? 128)).

(** [strings.TrimLeftFunc(s, unicode.IsSpace)] on the bytes of [s]. *)
Fixpoint trim_left (s : list ascii) : list ascii :=
  match s with
  | [] => []
  | a :: s1 =>
      if space1 a then trim_left s1
      else match s1 with
           | [] => s
           | b :: s2 =>
               if space2 a b then trim_left s2
               else match s2 with
                    | [] => s
                    | c :: s3 => if space3 a b c then trim_left s3 else s
                    end
           end
  end.

(** [strings.TrimRightFunc(s, unicode.IsSpace)], on the reversed bytes:
    the last rune is a space exactly when the string ends with the
    encoding of one. *)
Fixpoint trim_right_rev (r : list ascii) : list ascii :=
  match r with
  | [] => []
  | a :: r1 =>
      if space1 a then trim_right_rev r1
      else match r1 with
           | [] => r
           | b :: r2 =>
               if space2 b a then trim_right_rev r2
               else match r2 with
                    | [] => r
                    | c :: r3 => if space3 c b a then trim_right_rev r3 else r
                    end
           end
  end.

(** [strings.TrimSpace]. *)
Definition TrimSpace (s : string) : string :=
  string_of_list_ascii
    (rev (trim_right_rev (rev (trim_left (list_ascii_of_string s))))).

End GoStrings.

(* ------------------------------------------------------------------ *)
(** ** wazero's linear memory *)

Module Memory.

(** [hasSize]: [uint64(offset)+byteCount <= uint64(len(m.Buffer))]. *)
Definition hasSize (buf : list byte) (offset : N) (byteCount : nat) : bool :=
  (offset + N.of_nat byteCount <=? N.of_nat (length buf))%N.

(** [Memory.Write(offset, val)]: copy [val] into the buffer at [offset],
    or report [false] and leave the buffer alone when out of range. *)
Definition Write (offset : N) (val : list byte) (buf : list byte)
  : list byte * bool :=
  if hasSize buf offset (length val)
  then (take (N.to_nat offset) buf ++ val
          ++ drop (N.to_nat offset + length val) buf, true)
  else (buf, false).

(** The bytes the buffer holds at [offset .. offset+n-1]. *)
Definition Read (offset : N) (n : nat) (buf : list byte) : list byte :=
  take n (drop (N.to_nat offset) buf).

End Memory.

(* ------------------------------------------------------------------ *)
(** ** [path/filepath] on slash-separated paths *)

Module Filepath.

Definition is_sep (c : ascii) : bool := Ascii.eqb c "/".

(** The elements between separators, empty ones included. *)
Fixpoint elements (s : string) : list string :=
  match s with
  | EmptyString => [EmptyString]
  | String c s' =>
      if is_sep c then EmptyString :: elements s'
      else match elements s' with
           | e :: es => String c e :: es
           | [] => [String c EmptyString]
           end
  end.

Definition rooted (p : string) : bool := String.prefix "/" p.

(** The element stack of [filepath.Clean]; [out] is kept reversed.  Empty
    and [.] elements go away, an inner [..] removes the element before it,
    a leading [..] stays on a relative path and goes away on a rooted one. *)
Fixpoint clean_elems (is_rooted : bool) (out es : list string) : list string :=
  match es with
  | [] => rev out
  | e :: es' =>
      if String.eqb e "" || String.eqb e "." then clean_elems is_rooted out es'
      else if String.eqb e ".." then
        match out with
        | top :: out' =>
            if String.eqb top ".." then clean_elems is_rooted (e :: out) es'
            else clean_elems is_rooted out' es'
        | [] =>
            if is_rooted then clean_elems is_rooted [] es'
            else clean_elems is_rooted [e] es'
        end
      else clean_elems is_rooted (e :: out) es'
  end.

(** [filepath.Clean]. *)
Definition Clean (p : string) : string :=
  let es := clean_elems (rooted p) [] (elements p) in
  if rooted p then "/" +:+ String.concat "/" es
  else match es with
       | [] => "."
       | _ => String.concat "/" es
       end.

(** [filepath.Join]: the first non-empty element onwards, joined by the
    separator and cleaned; the empty string when there is none. *)
Fixpoint Join (elem : list string) : string :=
  match elem with
  | [] => ""
  | e :: rest =>
      if String.eqb e "" then Join rest
      else Clean (String.concat "/" elem)
  end.

(** [path[:i+1]] for [i] the index of the last separator. *)
Fixpoint upto_last_sep (s : string) : string :=
  match s with
  | EmptyString => EmptyString
  | String c s' =>
      match upto_last_sep s' with
      | EmptyString => if is_sep c then String c EmptyString else EmptyString
      | d => String c d
      end
  end.

(** [filepath.Dir]. *)
Definition Dir (p : string) : string := Clean (upto_last_sep p).

(** The node a path names, seen from the working directory: the elements
    of the cleaned path.  The working directory itself is [[]]. *)
Definition key (p : string) : list string :=
  let es := clean_elems (rooted p) [] (elements p) in
  if rooted p then "/" :: es else es.

End Filepath.

(* ------------------------------------------------------------------ *)
(** ** [archive/tar] headers and what the readers deliver *)

Module Tar.

Definition TypeReg : ascii := "0".
Definition TypeSymlink : ascii := "2".
Definition TypeDir : ascii := "5".

Record Header := {
  Name : string;
  Typeflag : ascii;
  Mode : Z;
  Linkname : string
}.

(** What [tar.Reader] yields: [Next] gives a header, [io.EOF] or an
    error; reading the body of an entry gives [body] and then either the
    end of the entry or [body_err]. *)
Inductive Stream :=
| EOF
| NextErr (e : error)
| Entry (h : Header) (body : list byte) (body_err : option error) (rest : Stream).

(** What [gzip.NewReader] makes of the embedded bytes: an error, or a
    reader the tar stream is read from. *)
Inductive Archive :=
| BadGzip (e : error)
| Gzip (t : Stream).

End Tar.

(* ------------------------------------------------------------------ *)
(** ** The file tree *)

Inductive Node :=
| Dir (perm : Z)
| File (data : list byte)
| Symlink (target : string).

Abbreviation FS := (gmap (list string) Node).

(** [crypto/rand]: an endless supply of bytes, read from [rs_pos] onwards,
    unless the source is broken. *)
Record RandSrc := {
  rs_supply : nat -> byte;
  rs_pos : nat;
  rs_err : option error
}.

(** [io.Writer] values the program handles. *)
Inductive Writer := OsStdout | OsStderr | Buffer (id : nat).

Inductive RuntimeConfig := RuntimeConfigCompiler | RuntimeConfigInterpreter.

(** A [wazero.Runtime], known by how it was made. *)
Inductive Runtime :=
| NewRuntime
| NewRuntimeWithConfig (c : RuntimeConfig).

(** An [api.Module] handle. *)
Definition Module := N.

(** [wazero.ModuleConfig] with the [FSConfig] mounts (host directory, guest
    path) inlined. *)
Record ModuleConfig := {
  cfg_stdout : Writer;
  cfg_stderr : Writer;
  cfg_mounts : list (string * string);
  cfg_args : list string;
  cfg_env : list (string * string)
}.

(** What the host code does, in order.  [EvInstantiate] and [EvInstantiated]
    are the start and the end of [InstantiateWithConfig], with what it
    returned.  [EvCall] records the linear memory as it is when the exported
    function is entered; [EvReturn] the end of the call and its error. *)
Inductive Event :=
| EvWrite (w : Writer) (s : string)
| EvNewRuntime (r : Runtime)
| EvWasi (r : Runtime)
| EvInstantiate (r : Runtime) (blob : list byte) (cfg : ModuleConfig)
| EvInstantiated (m : Module) (err : option error)
| EvMemWrite (m : Module) (offset : N) (val : list byte) (ok : bool)
| EvCall (m : Module) (fn : string) (mem : list byte)
| EvReturn (m : Module) (fn : string) (err : option error)
| EvClose (r : Runtime).

Inductive result (A : Type) :=
| Ok (a : A)
| Fail (e : error).
Arguments Ok {A} a.
Arguments Fail {A} e.

(* ------------------------------------------------------------------ *)
(** ** The [os] calls of [setupEnv] on the file tree

    A path names the node at its own key: the tree has no notion of
    following a symbolic link.  On a path that meets no link the calls
    below do what the real ones do.  On a path through a link they do
    not: [Stat] finds the link itself, whatever it points to, where
    [os.Stat] looks at what it points to; [MkdirAll], [Create] and
    [ReadFile] stop with an error where the real calls go on through the
    link.  A directory keeps the mode it was asked for, not what the
    umask of the process leaves of it, and [MkdirAll] names the whole
    path in its error. *)

Module OS.

(** [os.FileMode(m)]: an [int64] converted to [uint32]. *)
Definition FileMode (m : Z) : Z := m mod 2 ^ 32.

Definition lookup_node (fs : FS) (k : list string) : option Node :=
  match k with
  | [] => Some (Dir 0)
  | _ => fs !! k
  end.

Definition is_dir (fs : FS) (k : list string) : bool :=
  match lookup_node fs k with
  | Some (Dir _) => true
  | _ => false
  end.

(** [os.Stat]: the error, if any. *)
Definition Stat (p : string) (fs : FS) : option error :=
  match lookup_node fs (Filepath.key p) with
  | Some _ => None
  | None => Some (PathError "stat" p ENOENT)
  end.

(** [os.MkdirAll]: walk down from the working directory, keep the
    directories that are there, make the missing ones, stop at anything
    that is not a directory. *)
Fixpoint mkdir_from (p : string) (perm : Z) (done todo : list string) (fs : FS)
  : option error * FS :=
  match todo with
  | [] => (None, fs)
  | e :: todo' =>
      let k := done ++ [e] in
      match fs !! k with
      | Some (Dir _) => mkdir_from p perm k todo' fs
      | Some _ => (Some (PathError "mkdir" p ENOTDIR), fs)
      | None => mkdir_from p perm k todo' (<[k := Dir perm]> fs)
      end
  end.

Definition MkdirAll (p : string) (perm : Z) (fs : FS) : option error * FS :=
  mkdir_from p perm [] (Filepath.key p) fs.

(** [os.Create]: an empty regular file at [p], replacing the contents of
    one that is there.  The file handle is the node's key. *)
Definition Create (p : string) (fs : FS) : result (list string) * FS :=
  let k := Filepath.key p in
  match lookup_node fs k with
  | Some (Dir _) => (Fail (PathError "open" p EISDIR), fs)
  | Some (Symlink _) => (Fail (PathError "open" p ELOOP), fs)
  | _ =>
      if is_dir fs (removelast k)
      then (Ok k, <[k := File []]> fs)
      else (Fail (PathError "open" p ENOENT), fs)
  end.

(** [Write] of an [os.File]: append at the end of the file behind the handle. *)
Definition Write (h : list string) (b : list byte) (fs : FS) : FS :=
  match fs !! h with
  | Some (File d) => <[h := File (d ++ b)]> fs
  | _ => fs
  end.

(** [os.Symlink(old, new)]. *)
Definition Symlink_ (old new : string) (fs : FS) : option error * FS :=
  let k := Filepath.key new in
  match lookup_node fs k with
  | Some _ => (Some (LinkError "symlink" old new EEXIST), fs)
  | None =>
      if is_dir fs (removelast k)
      then (None, <[k := Symlink old]> fs)
      else (Some (LinkError "symlink" old new ENOENT), fs)
  end.

(** [os.ReadFile]. *)
Definition ReadFile (p : string) (fs : FS) : result (list byte) :=
  match lookup_node fs (Filepath.key p) with
  | Some (File d) => Ok d
  | Some (Dir _) => Fail (PathError "read" p EISDIR)
  | Some (Symlink _) => Fail (PathError "open" p ELOOP)
  | None => Fail (PathError "open" p ENOENT)
  end.

End OS.

(** [%c] of a byte: the UTF-8 encoding of the code point of that number. *)
Definition fmt_c (c : ascii) : string :=
  let n := nat_of_ascii c in
  if n <? 128 then String c ""
  else String (ascii_of_nat (192 + n / 64))
         (String (ascii_of_nat (128 + n mod 64)) "").

(** [crypto/rand.Read] into a slice of [n] bytes. *)
Definition rand_take (n : nat) (r : RandSrc) : result (list byte) * RandSrc :=
  match rs_err r with
  | Some e => (Fail e, r)
  | None =>
      (Ok (map (rs_supply r) (seq (rs_pos r) n)),
       {| rs_supply := rs_supply r; rs_pos := rs_pos r + n; rs_err := None |})
  end.

(* ------------------------------------------------------------------ *)
(** ** The program *)

Section PGLite.

(** The state of the guest that is not its linear memory. *)
Context {Guest : Type}.

Record World := {
  w_fs : FS;
  w_rand : RandSrc;
  w_mem : list byte;
  w_guest : Guest;
  w_trace : list Event
}.

Definition set_fs (fs : FS) (w : World) : World :=
  {| w_fs := fs; w_rand := w_rand w; w_mem := w_mem w;
     w_guest := w_guest w; w_trace := w_trace w |}.
Definition set_rand (r : RandSrc) (w : World) : World :=
  {| w_fs := w_fs w; w_rand := r; w_mem := w_mem w;
     w_guest := w_guest w; w_trace := w_trace w |}.
Definition set_mem (m : list byte) (w : World) : World :=
  {| w_fs := w_fs w; w_rand := w_rand w; w_mem := m;
     w_guest := w_guest w; w_trace := w_trace w |}.
Definition set_trace (t : list Event) (w : World) : World :=
  {| w_fs := w_fs w; w_rand := w_rand w; w_mem := w_mem w;
     w_guest := w_guest w; w_trace := t |}.

(** The embedded archive, as the gzip and tar readers deliver it. *)
Variable compressed : Tar.Archive.

(** wazero running the guest: instantiation (which runs [_start]) and a
    call of an exported function.  Both return what Go returns, a value
    and an error, and may leave the world in any state; what they do to
    the trace is discarded, the trace is the host's. *)
Variable InstantiateWithConfig :
  Runtime -> list byte -> ModuleConfig -> World -> (Module * option error) * World.
Variable Call : Module -> string -> World -> (list N * option error) * World.

(** Go functions returning [(T, error)] or [error]: a computation on the
    world that ends in a value or in an error.  What was done before an
    error stays done. *)
Definition M (A : Type) : Type := World -> result A * World.

Definition ret {A} (a : A) : M A := fun w => (Ok a, w).
Definition fail {A} (e : error) : M A := fun w => (Fail e, w).
Definition bind {A B} (c : M A) (k : A -> M B) : M B :=
  fun w =>
    match c w with
    | (Ok a, w') => k a w'
    | (Fail e, w') => (Fail e, w')
    end.

Notation "'let*' x ':=' c 'in' k" := (bind c (fun x => k))
  (at level 10, x pattern, c at level 100, k at level 200).

(** [if err != nil { return nil, err }] after a call returning [error]. *)
Definition check (e : option error) : M unit :=
  match e with
  | Some e => fail e
  | None => ret tt
  end.

Definition emit (ev : Event) : M unit :=
  fun w => (Ok tt, set_trace (w_trace w ++ [ev]) w).

(** [fmt.Fprintf(w, ...)] and [fmt.Println(...)], with the text already
    formatted; their results are not looked at. *)
Definition Fprint (wr : Writer) (s : string) : M unit := emit (EvWrite wr s).
Definition Println (s : string) : M unit :=
  emit (EvWrite OsStdout (s +:+ String GoStrings.LF "")).

(** The [os] calls, on the world's file tree. *)
Definition os_Stat (p : string) : M (option error) :=
  fun w => (Ok (OS.Stat p (w_fs w)), w).
Definition os_MkdirAll (p : string) (perm : Z) : M (option error) :=
  fun w => let '(e, fs) := OS.MkdirAll p perm (w_fs w) in (Ok e, set_fs fs w).
Definition os_Create (p : string) : M (list string) :=
  fun w => let '(r, fs) := OS.Create p (w_fs w) in (r, set_fs fs w).
Definition file_Write (h : list string) (b : list byte) : M unit :=
  fun w => (Ok tt, set_fs (OS.Write h b (w_fs w)) w).
Definition os_Symlink (old new : string) : M (option error) :=
  fun w => let '(e, fs) := OS.Symlink_ old new (w_fs w) in (Ok e, set_fs fs w).
Definition os_ReadFile (p : string) : M (list byte) :=
  fun w => (OS.ReadFile p (w_fs w), w).

(** [io.Copy(of, tr)]: the bytes the tar reader delivers go to the file;
    the error is the reader's. *)
Definition io_Copy (h : list string) (body : list byte) (body_err : option error)
  : M (option error) :=
  let* _ := file_Write h body in ret body_err.

Definition rand_Read (n : nat) : M (list byte) :=
  fun w => let '(r, rs) := rand_take n (w_rand w) in (r, set_rand rs w).

(** *** setupEnv *)

Definition marker : string := "./tmp/pglite/base/PG_VERSION".

(** The [switch] on the type of one tar entry. *)
Definition extract_entry (header : Tar.Header) (body : list byte)
    (body_err : option error) : M unit :=
  let dest := Filepath.Join ["./"; Tar.Name header] in
  if Ascii.eqb (Tar.Typeflag header) Tar.TypeDir then
    let* err := os_MkdirAll dest (OS.FileMode (Tar.Mode header)) in
    check err
  else if Ascii.eqb (Tar.Typeflag header) Tar.TypeReg then
    let* err := os_MkdirAll (Filepath.Dir dest) (OS.FileMode (Tar.Mode header)) in
    let* _ := check err in
    let* out := os_Create dest in
    let* err := io_Copy out body body_err in
    check err
  else if Ascii.eqb (Tar.Typeflag header) Tar.TypeSymlink then
    let* err := os_Symlink (Tar.Linkname header) dest in
    check err
  else
    fail (Errorf ("unknown file type in tar: " +:+ fmt_c (Tar.Typeflag header)
                    +:+ " (" +:+ Tar.Name header +:+ ")")).

(** The [for] loop over the tar entries: [tr.Next()] until [io.EOF]. *)
Fixpoint extract (t : Tar.Stream) : M unit :=
  match t with
  | Tar.EOF => ret tt
  | Tar.NextErr e => fail e
  | Tar.Entry header body body_err rest =>
      let* _ := extract_entry header body body_err in
      extract rest
  end.

(** The block guarded by [os.Stat]: unpack the archive when the marker
    file cannot be stat'ed. *)
Definition extractEnv : M unit :=
  let* err := os_Stat marker in
  match err with
  | Some _ =>
      let* _ := Println "Extracting env...." in
      match compressed with
      | Tar.BadGzip e => fail e
      | Tar.Gzip t => extract t
      end
  | None => ret tt
  end.

(** The rest of [setupEnv]: the random-device shim, then the binary. *)
Definition randomShim : M (list byte) :=
  let* err := os_MkdirAll "./dev" 493 in
  let* _ := check err in
  let* rf := os_Create "./dev/urandom" in
  let* rng := rand_Read 128 in
  let* _ := file_Write rf rng in
  os_ReadFile "./tmp/pglite/bin/postgres.wasi".

Definition setupEnv : M (list byte) :=
  let* _ := extractEnv in randomShim.

(** *** PGLite *)

Record PGLite := {
  pg_runtime : option Runtime;
  pg_mod : Module;
  pg_stdout : Writer;
  pg_stderr : Writer
}.

(** [r.Close(ctx)]. *)
Definition runtime_Close (r : Runtime) : M unit := emit (EvClose r).

(** [mod.ExportedFunction(fn).Call(ctx)]. *)
Definition call_export (m : Module) (fn : string) : M (list N * option error) :=
  fun w =>
    let w1 := set_trace (w_trace w ++ [EvCall m fn (w_mem w)]) w in
    let '((rv, err), w2) := Call m fn w1 in
    (Ok (rv, err), set_trace (w_trace w1 ++ [EvReturn m fn err]) w2).

(** [r.InstantiateWithConfig(ctx, blob, config)]. *)
Definition instantiate (r : Runtime) (blob : list byte) (cfg : ModuleConfig)
  : M (Module * option error) :=
  fun w =>
    let w1 := set_trace (w_trace w ++ [EvInstantiate r blob cfg]) w in
    let '((m, err), w2) := InstantiateWithConfig r blob cfg w1 in
    (Ok (m, err), set_trace (w_trace w1 ++ [EvInstantiated m err]) w2).

(** [mod.Memory().Write(offset, val)]. *)
Definition mem_Write (m : Module) (offset : N) (val : list byte) : M bool :=
  fun w =>
    let '(buf, ok) := Memory.Write offset val (w_mem w) in
    (Ok ok, set_trace (w_trace w ++ [EvMemWrite m offset val ok]) (set_mem buf w)).

(** The runtime [NewPGLite] makes: with the first optional configuration
    when there is one and it is not nil, the default one otherwise. *)
Definition newRuntime (rtConfig : list (option RuntimeConfig)) : Runtime :=
  match rtConfig with
  | Some c :: _ => NewRuntimeWithConfig c
  | _ => NewRuntime
  end.

(** The module configuration [NewPGLite] instantiates with. *)
Definition moduleConfig (stdout stderr : Writer) : ModuleConfig :=
  let fsConfig := [("./tmp", "/tmp"); ("./dev", "/dev")] in
  {| cfg_stdout := stdout; cfg_stderr := stderr; cfg_mounts := fsConfig;
     cfg_args := ["--single"; "postgres"];
     cfg_env := [("ENVIRONMENT", "wasi-embed"); ("REPL", "N");
                 ("PGUSER", "postgres"); ("PGDATABASE", "postgres")] |}.

(** The end of [NewPGLite]: the two initialization calls on the module of
    [p], the runtime [r] closed when one of them fails. *)
Definition handshake (r : Runtime) (p : PGLite) : M PGLite :=
  let* (initDBRV, err) := call_export (pg_mod p) "pg_initdb" in
  let* _ :=
    match err with
    | Some e => let* _ := runtime_Close r in fail (WrapError "pg_initdb" e)
    | None => ret tt
    end in
  let* _ := Fprint (pg_stderr p) ("initdb returned: " +:+ fmt_b_slice initDBRV
                                    +:+ String GoStrings.LF "") in
  let* (_, err) := call_export (pg_mod p) "use_socketfile" in
  let* _ :=
    match err with
    | Some e => let* _ := runtime_Close r in fail (WrapError "use_socketfile" e)
    | None => ret tt
    end in
  ret p.

Definition NewPGLite (stdout stderr : Writer) (rtConfig : list (option RuntimeConfig))
  : M PGLite :=
  fun w =>
    match setupEnv w with
    | (Fail err, w') => (Fail (WrapError "setupEnv" err), w')
    | (Ok blob, w') =>
        (let r := newRuntime rtConfig in
         let* _ := emit (EvNewRuntime r) in
         let config := moduleConfig stdout stderr in
         let* _ := emit (EvWasi r) in
         let* (mod_, err) := instantiate r blob config in
         let* _ :=
           match err with
           | Some (ExitError code) =>
               if negb (code =? 0)%N then
                 let* _ := runtime_Close r in
                 fail (Errorf ("wasm exit_code: " +:+ fmt_d code))
               else ret tt
           | Some e =>
               let* _ := runtime_Close r in
               fail (WrapError "instantiate" e)
           | None => ret tt
           end in
         let p := {| pg_runtime := Some r; pg_mod := mod_;
                     pg_stdout := stdout; pg_stderr := stderr |} in
         handshake r p) w'
    end.

(** [append([]byte(sql), 0)]. *)
Definition cstring (sql : string) : list byte := list_byte_of_string sql ++ [x00].

Definition Query (p : PGLite) (sql : string) : M unit :=
  let sqlCstring := cstring sql in
  let* _ := mem_Write (pg_mod p) 1 sqlCstring in
  let* (_, err) := call_export (pg_mod p) "interactive_one" in
  check err.

(** The [range] loop of [RunQueries] over the pieces. *)
Fixpoint run_lines (p : PGLite) (lines : list string) : M unit :=
  match lines with
  | [] => ret tt
  | line :: rest =>
      let* _ :=
        if negb (String.eqb (GoStrings.TrimSpace line) "") then
          let* _ := Fprint (pg_stderr p)
                      ("REPL: " +:+ line +:+ String GoStrings.LF "") in
          Query p line
        else ret tt
      in
      run_lines p rest
  end.

Definition RunQueries (p : PGLite) (input : string) : M unit :=
  run_lines p (GoStrings.Split input GoStrings.blank_line).

Definition Close (p : PGLite) : M unit :=
  match pg_runtime p with
  | Some r => runtime_Close r
  | None => ret tt
  end.

(** *** main *)

(** The chunks [bufio.Reader.ReadString(delim)] returns one after the
    other, each ending in [delim], and what is left before the end of the
    input. *)
Fixpoint ReadStrings (delim : ascii) (s : string) : list string * string :=
  match s with
  | EmptyString => ([], EmptyString)
  | String c s' =>
      let '(chunks, rest) := ReadStrings delim s' in
      if Ascii.eqb c delim then (String c EmptyString :: chunks, rest)
      else match chunks with
           | ch :: chunks' => (String c ch :: chunks', rest)
           | [] => ([], String c rest)
           end
  end.

Definition defaultTests : string :=
  String.concat (String GoStrings.LF "") [
    ""; "";
    "SHOW client_encoding;";
    "";
    "CREATE OR REPLACE FUNCTION test_func() RETURNS TEXT AS $$ BEGIN RETURN 'test'; END; $$ LANGUAGE plpgsql;";
    "";
    "CREATE OR REPLACE FUNCTION addition (entier1 integer, entier2 integer)";
    "RETURNS integer";
    "LANGUAGE plpgsql";
    "IMMUTABLE";
    "AS '";
    "DECLARE";
    "  resultat integer;";
    "BEGIN";
    "  resultat := entier1 + entier2;";
    "  RETURN resultat;";
    "END ' ;";
    "";
    "SELECT test_func();";
    "";
    "SELECT now(), current_database(), session_user, current_user;";
    "";
    "SELECT addition(40,2);";
    "";
    ""].

(** The [for] loop of [main] over what standard input holds. *)
Fixpoint query_loop (pg : PGLite) (inputs : list string) : M unit :=
  match inputs with
  | [] => fail (LibError "EOF")
  | input :: rest =>
      let* _ := Query pg input in
      query_loop pg rest
  end.

(** [main] on a finite standard input.  Every [log.Fatal(err)] ends the
    process at once, so the deferred [pg.Close()] never runs; [Fail err]
    stands for it.  The loop ends when [ReadString] reports [io.EOF]. *)
Definition main (stdin : string) : M unit :=
  let* pg := NewPGLite OsStdout OsStderr [] in
  let* _ := RunQueries pg defaultTests in
  query_loop pg (fst (ReadStrings ";" stdin)).

End PGLite.

Arguments World Guest : clear implicits.
Arguments M Guest A : clear implicits.

(* ------------------------------------------------------------------ *)
(** ** Reading traces and archives *)

(** The exported functions entered, in order. *)
Fixpoint calls (t : list Event) : list (Module * string) :=
  match t with
  | [] => []
  | EvCall m fn _ :: t' => (m, fn) :: calls t'
  | _ :: t' => calls t'
  end.

(** How the calls ended, in order. *)
Fixpoint returns (t : list Event) : list (string * option error) :=
  match t with
  | [] => []
  | EvReturn _ fn err :: t' => (fn, err) :: returns t'
  | _ :: t' => returns t'
  end.

(** The memory writes asked for, in order: offset and bytes. *)
Fixpoint mem_writes (t : list Event) : list (N * list byte) :=
  match t with
  | [] => []
  | EvMemWrite _ off val _ :: t' => (off, val) :: mem_writes t'
  | _ :: t' => mem_writes t'
  end.

(** A trace in which every entry into [interactive_one] comes right after a
    memory write at offset 1 on the same module. *)
Fixpoint write_precedes_call (prev : option Event) (t : list Event) : bool :=
  match t with
  | [] => true
  | ev :: t' =>
      match ev with
      | EvCall m fn _ =>
          if String.eqb fn "interactive_one" then
            match prev with
            | Some (EvMemWrite m' off _ _) => (m =? m')%N && (off =? 1)%N
            | _ => false
            end
          else true
      | _ => true
      end && write_precedes_call (Some ev) t'
  end.

(** The event a suffix of the trace is preceded by. *)
Definition last_event (prev : option Event) (a : list Event) : option Event :=
  match last a with
  | Some ev => Some ev
  | None => prev
  end.

(** How far the handshake has got. *)
Inductive Phase := Fresh | InitDone | Ready.

(** Follow a trace from a phase: [pg_initdb] returning without error takes
    [Fresh] to [InitDone], [use_socketfile] returning without error takes
    [InitDone] to [Ready], and [interactive_one] may be entered in [Ready]
    only.  [None] when it is entered earlier. *)
Fixpoint handshake_state (ph : Phase) (t : list Event) : option Phase :=
  match t with
  | [] => Some ph
  | EvReturn _ fn None :: t' =>
      if String.eqb fn "pg_initdb" then
        handshake_state (match ph with Fresh => InitDone | _ => ph end) t'
      else if String.eqb fn "use_socketfile" then
        handshake_state (match ph with InitDone => Ready | _ => ph end) t'
      else handshake_state ph t'
  | EvCall _ fn _ :: t' =>
      if String.eqb fn "interactive_one" then
        match ph with
        | Ready => handshake_state ph t'
        | _ => None
        end
      else handshake_state ph t'
  | _ :: t' => handshake_state ph t'
  end.

(** The events [Query] and the loops around it leave. *)
Definition query_event (ev : Event) : bool :=
  match ev with
  | EvWrite _ _ | EvMemWrite _ _ _ _ => true
  | EvCall _ fn _ | EvReturn _ fn _ => String.eqb fn "interactive_one"
  | _ => false
  end.

(** Instantiation results after which [NewPGLite] goes on: no error, or an
    exit with code zero. *)
Definition goes_on (ierr : option error) : Prop :=
  ierr = None \/ ierr = Some (ExitError 0).

(** The ways [NewPGLite] can go once [InstantiateWithConfig] has returned
    the module [m] and the error [ierr]: what is appended to the trace and
    what is returned. *)
Inductive boot_tail (r : Runtime) (m : Module) (stdout stderr : Writer)
  : option error -> list Event -> result PGLite -> Prop :=
| boot_exit code :
    code <> 0%N ->
    boot_tail r m stdout stderr (Some (ExitError code))
      [EvClose r] (Fail (Errorf ("wasm exit_code: " +:+ fmt_d code)))
| boot_instantiate e :
    (forall code, e <> ExitError code) ->
    boot_tail r m stdout stderr (Some e)
      [EvClose r] (Fail (WrapError "instantiate" e))
| boot_initdb ierr mem e :
    goes_on ierr ->
    boot_tail r m stdout stderr ierr
      [EvCall m "pg_initdb" mem; EvReturn m "pg_initdb" (Some e); EvClose r]
      (Fail (WrapError "pg_initdb" e))
| boot_socketfile ierr mem rv mem' e :
    goes_on ierr ->
    boot_tail r m stdout stderr ierr
      [EvCall m "pg_initdb" mem; EvReturn m "pg_initdb" None;
       EvWrite stderr ("initdb returned: " +:+ fmt_b_slice rv +:+ String GoStrings.LF "");
       EvCall m "use_socketfile" mem'; EvReturn m "use_socketfile" (Some e);
       EvClose r]
      (Fail (WrapError "use_socketfile" e))
| boot_ready ierr mem rv mem' :
    goes_on ierr ->
    boot_tail r m stdout stderr ierr
      [EvCall m "pg_initdb" mem; EvReturn m "pg_initdb" None;
       EvWrite stderr ("initdb returned: " +:+ fmt_b_slice rv +:+ String GoStrings.LF "");
       EvCall m "use_socketfile" mem'; EvReturn m "use_socketfile" None]
      (Ok {| pg_runtime := Some r; pg_mod := m;
             pg_stdout := stdout; pg_stderr := stderr |}).

(** An archive entry that is a regular file landing on the node [k]. *)
Fixpoint has_reg (k : list string) (t : Tar.Stream) : bool :=
  match t with
  | Tar.Entry h _ _ rest =>
      (Ascii.eqb (Tar.Typeflag h) Tar.TypeReg
       && bool_decide (Filepath.key (Filepath.Join ["./"; Tar.Name h]) = k))
      || has_reg k rest
  | _ => false
  end.

(** The archive carries the data directory's [PG_VERSION], the file
    [setupEnv] looks for. *)
Definition holds_marker (a : Tar.Archive) : bool :=
  match a with
  | Tar.Gzip t => has_reg (Filepath.key marker) t
  | Tar.BadGzip _ => false
  end.

Definition urandom : list string := Filepath.key "./dev/urandom".

(** The 128 bytes the random source of [w] delivers next. *)
Definition fresh_bytes {Guest} (w : World Guest) : list byte :=
  map (rs_supply (w_rand w)) (seq (rs_pos (w_rand w)) 128).

(** What [setupEnv] prints before it unpacks the archive. *)
Definition announcement : Event :=
  EvWrite OsStdout ("Extracting env...." +:+ String GoStrings.LF "").

(** What one statement handed to [Query] by [RunQueries] leaves in the
    trace when the call succeeds: its write, its call, its return. *)
Definition one_write (q : string) : N * list byte := (1%N, cstring q).
Definition one_call (p : PGLite) (q : string) : Module * string :=
  (pg_mod p, "interactive_one"%string).
Definition good_return (q : string) : string * option error :=
  ("interactive_one"%string, None).

(** The pieces of the input [RunQueries] submits: those that are not blank. *)
Definition nonblank (s : string) : bool :=
  negb (String.eqb (GoStrings.TrimSpace s) "").

Definition statements (input : string) : list string :=
  filter (fun s => nonblank s = true) (GoStrings.Split input GoStrings.blank_line).

(** A computation all of whose runs relate the world before to the world
    after by [R], whether it fails or not. *)
Definition preserves {Guest A} (R : World Guest -> World Guest -> Prop)
    (c : M Guest A) : Prop :=
  forall w, R w (snd (c w)).

(** Nothing but the file tree differs. *)
Definition same_but_fs {Guest} (w w' : World Guest) : Prop :=
  w' = set_fs (w_fs w') w.

(** Every regular file is still a regular file. *)
Definition keeps_files {Guest} (w w' : World Guest) : Prop :=
  forall k d, w_fs w !! k = Some (File d) -> exists d', w_fs w' !! k = Some (File d').

(** [Query]'s write has landed when [interactive_one] is entered: the
    call sees the bytes of [sql] and the zero byte at offset 1. *)
Definition write_lands {Guest}
    (Call : Module -> string -> World Guest -> (list N * option error) * World Guest)
    (p : PGLite) (sql : string) (w : World Guest) : Prop :=
  exists ok mem err,
    w_trace (snd (Query Call p sql w)) =
      w_trace w ++ [EvMemWrite (pg_mod p) 1 (cstring sql) ok;
                    EvCall (pg_mod p) "interactive_one" mem;
                    EvReturn (pg_mod p) "interactive_one" err]
    /\ Memory.Read 1 (length (cstring sql)) mem = cstring sql.

(** The shim file holds the 128 bytes the random source of [w] had next. *)
Definition shim_written {Guest} (w w' : World Guest) : Prop :=
  w_fs w' !! urandom = Some (File (fresh_bytes w)).

(* ------------------------------------------------------------------ *)
(** ** A sample archive, world and guests to run the definitions on *)

Module Sample.

Definition header (name : string) (typeflag : ascii) : Tar.Header :=
  {| Tar.Name := name; Tar.Typeflag := typeflag;
     Tar.Mode := 493; Tar.Linkname := "" |}.

Definition archive : Tar.Archive :=
  Tar.Gzip
    (Tar.Entry (header "tmp/pglite/" Tar.TypeDir) [] None
    (Tar.Entry (header "tmp/pglite/base/PG_VERSION" Tar.TypeReg) [x31; x36; x0a] None
    (Tar.Entry (header "tmp/pglite/bin/postgres.wasi" Tar.TypeReg)
       [x00; x61; x73; x6d] None
     Tar.EOF))).

Definition broken_archive : Tar.Archive :=
  Tar.BadGzip (LibError "gzip: invalid header").

Definition supply (n : nat) : byte :=
  default x00 (Byte.of_N (N.of_nat (n mod 256))).

(** Nothing on disk yet, a working random source, [size] bytes of
    zeroed linear memory. *)
Definition world (size : nat) : World unit :=
  {| w_fs := ∅;
     w_rand := {| rs_supply := supply; rs_pos := 0; rs_err := None |};
     w_mem := repeat x00 size;
     w_guest := tt;
     w_trace := [] |}.

(** Instantiation that returns module 7 with the given error. *)
Definition instantiate_with (err : option error)
    (r : Runtime) (blob : list byte) (cfg : ModuleConfig) (w : World unit)
  : (Module * option error) * World unit :=
  ((7%N, err), w).

(** A guest whose exported functions return [[0]], with an error for the
    functions named in [failing]. *)
Definition call_with (failing : list string)
    (m : Module) (fn : string) (w : World unit)
  : (list N * option error) * World unit :=
  (([0%N],
    if existsb (String.eqb fn) failing
    then Some (LibError "wasm error: unreachable") else None), w).

Definition pg : PGLite :=
  {| pg_runtime := Some NewRuntime; pg_mod := 7%N;
     pg_stdout := OsStdout; pg_stderr := OsStderr |}.

(** A linear memory of eight bytes, and a statement of nine. *)
Definition small : nat := 8.
Definition sql : string := "SELECT 1;".

(** A small archive with a symbolic link in it. *)
Definition linked : Tar.Stream :=
  Tar.Entry (header "opt/" Tar.TypeDir) [] None
    (Tar.Entry {| Tar.Name := "opt/latest"; Tar.Typeflag := Tar.TypeSymlink;
                  Tar.Mode := 511; Tar.Linkname := "pglite" |} [] None
     Tar.EOF).

(** Two statements with blank pieces between them, and the same two with
    one separator. *)
Definition spaced : string :=
  "SELECT 1;" +:+ GoStrings.blank_line +:+ " " +:+ GoStrings.blank_line
    +:+ GoStrings.blank_line +:+ "SELECT 2;".
Definition tight : string :=
  "SELECT 1;" +:+ GoStrings.blank_line +:+ "SELECT 2;".

(** An archive without the marker file: the binary, a file that comes
    twice, and a symbolic link between its two entries. *)
Definition unmarked : Tar.Stream :=
  Tar.Entry (header "tmp/pglite/bin/" Tar.TypeDir) [] None
    (Tar.Entry (header "tmp/pglite/bin/postgres.wasi" Tar.TypeReg)
       [x00; x61; x73; x6d] None
    (Tar.Entry (header "tmp/pglite/notes" Tar.TypeReg) [x31] None
    (Tar.Entry {| Tar.Name := "tmp/pglite/latest"; Tar.Typeflag := Tar.TypeSymlink;
                  Tar.Mode := 511; Tar.Linkname := "bin" |} [] None
    (Tar.Entry (header "tmp/pglite/notes" Tar.TypeReg) [x32] None
     Tar.EOF)))).


End Sample.

(* ------------------------------------------------------------------ *)
(** ** The test helper [runSubprocess] *)

Section Subprocess.

Context {Guest : Type}.
Variable compressed : Tar.Archive.
Variable InstantiateWithConfig :
  Runtime -> list byte -> ModuleConfig -> World Guest -> (Module * option error) * World Guest.
Variable Call : Module -> string -> World Guest -> (list N * option error) * World Guest.

(** [err.Error()]: the text of an error value. *)
Variable Error : error -> string.

(** The separator of [runSubprocess]: two semicolons. *)
Definition semicolons : string := ";;".

(** The [range] loop of [runSubprocess] over the pieces of [PGLITE_QUERIES]:
    each piece is trimmed, an empty one is skipped, the others go to
    [Query]; the first error ends the loop. *)
Fixpoint subprocess_queries (pg : PGLite) (pieces : list string) : M Guest unit :=
  match pieces with
  | [] => ret tt
  | q :: rest =>
      let q := GoStrings.TrimSpace q in
      if String.eqb q "" then subprocess_queries pg rest
      else bind (Query Call pg q) (fun _ => subprocess_queries pg rest)
  end.

(** [runSubprocess] with [queries] for what [PGLITE_QUERIES] holds.  The
    process always ends in [os.Exit]; the value is its status. *)
Definition runSubprocess (queries : string) : World Guest -> N * World Guest :=
  fun w =>
    match NewPGLite compressed InstantiateWithConfig Call OsStdout OsStderr [] w with
    | (Fail err, w1) =>
        (1%N, snd (Fprint OsStderr ("INIT_ERROR: " +:+ Error err
                                      +:+ String GoStrings.LF "") w1))
    | (Ok pg, w1) =>
        match subprocess_queries pg (GoStrings.Split queries semicolons) w1 with
        | (Fail err, w2) =>
            (1%N, snd (Fprint OsStderr ("QUERY_ERROR: " +:+ Error err
                                          +:+ String GoStrings.LF "") w2))
        | (Ok _, w2) => (0%N, snd (Close pg w2))
        end
    end.

End Subprocess.

(* ------------------------------------------------------------------ *)
(** ** More ways to read traces, trees and memory *)

(** The runtimes closed, in order. *)
Fixpoint closes (t : list Event) : list Runtime :=
  match t with
  | [] => []
  | EvClose r :: t' => r :: closes t'
  | _ :: t' => closes t'
  end.

(** The runtimes made, in order. *)
Fixpoint runtimes (t : list Event) : list Runtime :=
  match t with
  | [] => []
  | EvNewRuntime r :: t' => r :: runtimes t'
  | _ :: t' => runtimes t'
  end.

(** What was written to the writers, in order. *)
Fixpoint outputs (t : list Event) : list (Writer * string) :=
  match t with
  | [] => []
  | EvWrite wr s :: t' => (wr, s) :: outputs t'
  | _ :: t' => outputs t'
  end.

(** The line [RunQueries] writes to the error writer before a statement. *)
Definition echo (p : PGLite) (q : string) : Writer * string :=
  (pg_stderr p, "REPL: " +:+ q +:+ String GoStrings.LF "").

(** The pieces of [PGLITE_QUERIES] that [runSubprocess] submits: each
    trimmed, the empty ones left out. *)
Definition subprocess_statements (queries : string) : list string :=
  filter (fun q => negb (String.eqb q "") = true)
    (map GoStrings.TrimSpace (GoStrings.Split queries ";;")).

(** No call of an exported function has returned an error. *)
Definition no_error_returned (t : list Event) : Prop :=
  Forall (fun r : string * option error => snd r = None) (returns t).

(** [sep] occurs in [s]. *)
Definition contains (sep s : string) : Prop :=
  exists a b, s = a +:+ sep +:+ b.

(** Following the claim's words, white space: the UTF-8 encodings of the
    code points Go's [unicode.IsSpace] accepts, written out. *)
Definition white_space : list (list ascii) :=
  [ ["009"]; ["010"]; ["011"]; ["012"]; ["013"]; ["032"];
    ["194"; "133"]; ["194"; "160"];
    ["225"; "154"; "128"];
    ["226"; "128"; "128"]; ["226"; "128"; "129"]; ["226"; "128"; "130"];
    ["226"; "128"; "131"]; ["226"; "128"; "132"]; ["226"; "128"; "133"];
    ["226"; "128"; "134"]; ["226"; "128"; "135"]; ["226"; "128"; "136"];
    ["226"; "128"; "137"]; ["226"; "128"; "138"];
    ["226"; "128"; "168"]; ["226"; "128"; "169"]; ["226"; "128"; "175"];
    ["226"; "129"; "159"];
    ["227"; "128"; "128"] ]%char.

(** A string of white space only. *)
Inductive white : list ascii -> Prop :=
| white_nil : white []
| white_more r l : In r white_space -> white l -> white (r ++ l).

(** Following the claim's words, a string cut at its separators: each
    piece but the last is followed by an occurrence of [sep], the first
    one there is from where the piece starts, and the last piece holds
    none. *)
Inductive cut_at (sep : string) : string -> list string -> Prop :=
| cut_last s : ~ contains sep s -> cut_at sep s [s]
| cut_next q rest pieces :
    (forall a b, q +:+ sep = a +:+ sep +:+ b -> b = "") ->
    cut_at sep rest pieces ->
    cut_at sep (q +:+ sep +:+ rest) (q :: pieces).

(** What [RunQueries] leaves in the trace for one statement: its echo,
    the write, the entry into [interactive_one] and the return. *)
Definition statement_events (p : PGLite) (q : string) (ok : bool) (mem : list byte)
    (err : option error) : list Event :=
  [EvWrite (pg_stderr p) ("REPL: " +:+ q +:+ String GoStrings.LF "");
   EvMemWrite (pg_mod p) 1 (cstring q) ok;
   EvCall (pg_mod p) "interactive_one" mem;
   EvReturn (pg_mod p) "interactive_one" err].

(** Following the claim's words: the statements are submitted one at a
    time, in order, the next one after the call for the one before has
    returned; the first call that fails ends the run with its error, and
    the run ends without error when every call has succeeded. *)
Inductive submitted (p : PGLite) : list string -> result unit -> list Event -> Prop :=
| submitted_all : submitted p [] (Ok tt) []
| submitted_failed q rest ok mem e :
    submitted p (q :: rest) (Fail e) (statement_events p q ok mem (Some e))
| submitted_next q rest res ok mem evs :
    submitted p rest res evs ->
    submitted p (q :: rest) res (statement_events p q ok mem None ++ evs).

(** A zero-terminated string as C code reads it: the bytes before the
    first zero byte. *)
Fixpoint until_nul (bs : list byte) : list byte :=
  match bs with
  | [] => []
  | b :: bs' => if Byte.eqb b x00 then [] else b :: until_nul bs'
  end.

(** The zero-terminated string at [offset] of a linear memory. *)
Definition c_string_at (offset : N) (buf : list byte) : list byte :=
  until_nul (drop (N.to_nat offset) buf).

(** Every node is still there: a directory and a symbolic link as they
    were, a regular file as a regular file. *)
Definition keeps_nodes {Guest} (w w' : World Guest) : Prop :=
  forall k n,
    w_fs w !! k = Some n ->
    match n with
    | File _ => exists d, w_fs w' !! k = Some (File d)
    | _ => w_fs w' !! k = Some n
    end.



(** The archive has a symbolic-link entry. *)
Fixpoint has_symlink (t : Tar.Stream) : bool :=
  match t with
  | Tar.Entry h _ _ rest =>
      Ascii.eqb (Tar.Typeflag h) Tar.TypeSymlink || has_symlink rest
  | _ => false
  end.

(** The places of all symbolic-link entries of the archive are taken in
    the tree. *)
Fixpoint symlinks_taken (t : Tar.Stream) (fs : FS) : Prop :=
  match t with
  | Tar.Entry h _ _ rest =>
      (Ascii.eqb (Tar.Typeflag h) Tar.TypeSymlink = true ->
       is_Some (OS.lookup_node fs (Filepath.key (Filepath.Join ["./"; Tar.Name h]))))
      /\ symlinks_taken rest fs
  | _ => True
  end.

(* ------------------------------------------------------------------ *)
(** ** Properties *)

(** *** Linear memory *)

Lemma Write_ok (off : N) (val buf : list byte) :
  snd (Memory.Write off val buf) = Memory.hasSize buf off (length val).
Proof. unfold Memory.Write. by destruct (Memory.hasSize _ _ _). Qed.

Lemma Write_out_of_range (off : N) (val buf : list byte) :
  Memory.hasSize buf off (length val) = false ->
  Memory.Write off val buf = (buf, false).
Proof. unfold Memory.Write. by intros ->. Qed.

Lemma hasSize_spec (off : N) (n : nat) (buf : list byte) :
  Memory.hasSize buf off n = true <-> N.to_nat off + n <= length buf.
Proof. unfold Memory.hasSize. rewrite N.leb_le. lia. Qed.

Lemma Write_length (off : N) (val buf : list byte) :
  length (fst (Memory.Write off val buf)) = length buf.
Proof.
  unfold Memory.Write.
  destruct (Memory.hasSize buf off (length val)) eqn:Hfit; [|done].
  apply hasSize_spec in Hfit. simpl.
  rewrite !length_app, length_take, length_drop. lia.
Qed.

Lemma Write_frame (off : N) (val buf : list byte) (i : nat) :
  i < N.to_nat off \/ N.to_nat off + length val <= i ->
  fst (Memory.Write off val buf) !! i = buf !! i.
Proof.
  intros Hi. unfold Memory.Write.
  destruct (Memory.hasSize buf off (length val)) eqn:Hfit; [|done].
  apply hasSize_spec in Hfit. simpl.
  destruct Hi as [Hlo|Hhi].
  - rewrite lookup_app_l by (rewrite length_take; lia).
    by rewrite lookup_take_lt.
  - rewrite lookup_app_r by (rewrite length_take; lia).
    rewrite length_take, Nat.min_l by lia.
    rewrite lookup_app_r by lia.
    rewrite lookup_drop. f_equal. lia.
Qed.

Lemma Write_read_back (off : N) (val buf : list byte) :
  Memory.hasSize buf off (length val) = true ->
  Memory.Read off (length val) (fst (Memory.Write off val buf)) = val.
Proof.
  intros Hfit. unfold Memory.Write, Memory.Read. rewrite Hfit. simpl.
  apply hasSize_spec in Hfit.
  rewrite drop_app_length'; [|rewrite length_take; lia].
  by rewrite take_app_length.
Qed.

(** *** strings.Split *)

Lemma prefix_app (p s : string) :
  String.prefix p s = true -> exists r, s = (p +:+ r)%string.
Proof.
  revert s. induction p as [|a p IH]; intros s Hp.
  - by exists s.
  - destruct s as [|b s]; simpl in Hp; [done|].
    destruct (ascii_dec a b) as [->|]; [|done].
    destruct (IH s Hp) as [r ->]. by exists r.
Qed.

Lemma length_append (s1 s2 : string) :
  String.length (s1 +:+ s2) = String.length s1 + String.length s2.
Proof. induction s1 as [|c s1 IH]; simpl; by rewrite ?IH. Qed.

Lemma split_from_nonempty (sep : string) (k : nat) (s : string) :
  GoStrings.split_from sep k s <> [].
Proof.
  revert k. induction s as [|c s IH]; intros k; cbn [GoStrings.split_from].
  - discriminate.
  - destruct k; [|apply IH].
    destruct (String.prefix sep (String c s)); [discriminate|].
    destruct (GoStrings.split_from sep 0 s); discriminate.
Qed.

Lemma split_from_skip (sep pre s : string) :
  GoStrings.split_from sep (String.length pre) (pre +:+ s)
  = GoStrings.split_from sep 0 s.
Proof. induction pre as [|c pre IH]; simpl; [by destruct s|exact IH]. Qed.

Lemma concat_cons_char (sep : string) (c : ascii) (seg : string) (segs : list string) :
  String.concat sep (String c seg :: segs) = String c (String.concat sep (seg :: segs)).
Proof. by destruct segs. Qed.

Lemma split_from_join (sep : string) :
  sep <> ""%string ->
  forall n s, String.length s < n ->
    String.concat sep (GoStrings.split_from sep 0 s) = s.
Proof.
  intros Hsep n. induction n as [|n IH]; intros s Hn; [lia|].
  destruct s as [|c s]; [done|].
  cbn [GoStrings.split_from].
  destruct (String.prefix sep (String c s)) eqn:Hp.
  - apply prefix_app in Hp as [r Hr].
    destruct sep as [|a sep]; [done|]. simpl in Hr. injection Hr as -> ->.
    change (String.length (String a sep) - 1) with (String.length sep - 0).
    rewrite Nat.sub_0_r, split_from_skip.
    pose proof (split_from_nonempty (String a sep) 0 r) as Hne.
    destruct (GoStrings.split_from (String a sep) 0 r) as [|x xs] eqn:Hsplit; [done|].
    change (String.concat (String a sep) (""%string :: x :: xs))
      with (String a sep +:+ String.concat (String a sep) (x :: xs)).
    rewrite <- Hsplit, IH; [done|].
    simpl in Hn. rewrite length_append in Hn. lia.
  - pose proof (split_from_nonempty sep 0 s) as Hne.
    destruct (GoStrings.split_from sep 0 s) as [|seg segs] eqn:Hsplit; [done|].
    rewrite concat_cons_char, <- Hsplit, IH; [done|]. simpl in Hn. lia.
Qed.

(** Joining the pieces with the separator gives the input back. *)
Lemma Split_Join (s sep : string) :
  sep <> ""%string -> GoStrings.Join (GoStrings.Split s sep) sep = s.
Proof.
  intros Hsep. unfold GoStrings.Join, GoStrings.Split.
  destruct sep as [|a sep]; [done|].
  apply (split_from_join _ Hsep (S (String.length s))). lia.
Qed.

Lemma append_assoc' (a b c : string) : (a +:+ b) +:+ c = a +:+ (b +:+ c).
Proof.
  induction a as [|x a IH]; [done|].
  change (String x ((a +:+ b) +:+ c) = String x (a +:+ (b +:+ c))). by rewrite IH.
Qed.

Lemma prefix_of_app (p r : string) : String.prefix p (p +:+ r) = true.
Proof.
  induction p as [|a p IH]; [by destruct r|].
  change (String a p +:+ r) with (String a (p +:+ r)).
  change (String.prefix (String a p) (String a (p +:+ r)))
    with (if ascii_dec a a then String.prefix p (p +:+ r) else false).
  by destruct (ascii_dec a a).
Qed.

Lemma empty_contains_not (sep : string) : sep <> "" -> ~ contains sep "".
Proof.
  intros Hsep (a & b & Heq). apply (f_equal String.length) in Heq.
  rewrite !length_append in Heq. destruct sep; [done|]. simpl in Heq. lia.
Qed.

(** *** Where strings.Split cuts *)

Lemma append_nil_r' (s : string) : s +:+ "" = s.
Proof.
  induction s as [|c s IH]; [done|].
  change (String c s +:+ "") with (String c (s +:+ "")). by rewrite IH.
Qed.

Lemma length_zero_empty (s : string) : String.length s = 0 -> s = "".
Proof. by destruct s. Qed.

Lemma append_inv_head (a x y : string) : a +:+ x = a +:+ y -> x = y.
Proof.
  induction a as [|c a IH]; [done|].
  change (String c a +:+ x) with (String c (a +:+ x)).
  change (String c a +:+ y) with (String c (a +:+ y)).
  intros [= H]. by apply IH.
Qed.

Lemma split_from_cut (sep : string) :
  sep <> "" ->
  forall n s, String.length s < n -> cut_at sep s (GoStrings.split_from sep 0 s).
Proof.
  intros Hsep n. induction n as [|n IH]; intros s Hn; [lia|].
  destruct s as [|c s].
  { apply cut_last. by apply empty_contains_not. }
  cbn [GoStrings.split_from].
  destruct (String.prefix sep (String c s)) eqn:Hp.
  - apply prefix_app in Hp as [r Hr].
    destruct sep as [|x sep]; [done|].
    change (String x sep +:+ r) with (String x (sep +:+ r)) in Hr.
    injection Hr as -> ->.
    change (String.length (String x sep) - 1) with (String.length sep - 0).
    rewrite Nat.sub_0_r, split_from_skip.
    change (String x (sep +:+ r)) with ("" +:+ String x sep +:+ r).
    apply cut_next.
    + intros a b Heq. apply (f_equal String.length) in Heq.
      change ("" +:+ String x sep) with (String x sep) in Heq.
      rewrite !length_append in Heq. apply length_zero_empty. lia.
    + apply IH. simpl in Hn. rewrite length_append in Hn. lia.
  - assert (Hcut : cut_at sep s (GoStrings.split_from sep 0 s))
      by (apply IH; simpl in Hn; lia).
    assert (Hfirst : forall b, String c s <> sep +:+ b).
    { intros b Heq. rewrite Heq, prefix_of_app in Hp. discriminate. }
    inversion Hcut as [s' Hnone Hs Hsplit|q rest pieces Hleft Hrest Hs Hsplit].
    + apply cut_last. intros (a & b & Heq). destruct a as [|c' a].
      * by apply (Hfirst b).
      * change (String c' a +:+ sep +:+ b) with (String c' (a +:+ sep +:+ b)) in Heq.
        injection Heq as _ Heq. apply Hnone. by exists a, b.
    + change (String c (q +:+ sep +:+ rest)) with (String c q +:+ sep +:+ rest).
      apply cut_next; [|done].
      intros a b Heq. destruct a as [|c' a].
      * exfalso. apply (Hfirst (b +:+ rest)).
        change (String c (q +:+ sep +:+ rest)) with (String c q +:+ (sep +:+ rest)) in Hs.
        rewrite <- Hs, <- append_assoc'.
        change ("" +:+ sep +:+ b) with (sep +:+ b) in Heq.
        change (String c ((q +:+ sep) +:+ rest)) with ((String c q +:+ sep) +:+ rest).
        rewrite Heq. apply append_assoc'.
      * change (String c q +:+ sep) with (String c (q +:+ sep)) in Heq.
        change (String c' a +:+ sep +:+ b) with (String c' (a +:+ sep +:+ b)) in Heq.
        injection Heq as _ Heq. by apply (Hleft a b).
Qed.

(** [strings.Split] cuts at every separator, leftmost first. *)
Lemma Split_cut (s sep : string) : sep <> "" -> cut_at sep s (GoStrings.Split s sep).
Proof.
  intros Hsep. unfold GoStrings.Split. destruct sep as [|x sep]; [done|].
  apply (split_from_cut _ Hsep (S (String.length s))). lia.
Qed.

Lemma append_split (a b x y : string) :
  a +:+ x = b +:+ y ->
  exists d, (a = b +:+ d /\ y = d +:+ x) \/ (b = a +:+ d /\ x = d +:+ y).
Proof.
  revert b. induction a as [|c a IH]; intros b Heq.
  { exists b. by right. }
  destruct b as [|c' b].
  { exists (String c a). left. by split. }
  change (String c (a +:+ x) = String c' (b +:+ y)) in Heq.
  injection Heq as -> Heq. destruct (IH b Heq) as [d [[-> ->]|[-> ->]]]; exists d.
  - by left.
  - by right.
Qed.

Lemma leftmost_same (sep q1 q2 d r1 r2 : string) :
  (forall a b, q1 +:+ sep = a +:+ sep +:+ b -> b = "") ->
  q1 = q2 +:+ d -> sep +:+ r2 = d +:+ sep +:+ r1 -> d = "".
Proof.
  intros Hleft -> Heq.
  rewrite <- append_assoc' in Heq.
  destruct (append_split _ _ _ _ Heq) as [d' [[Hd _]|[Hd _]]].
  - apply (f_equal String.length) in Hd. rewrite !length_append in Hd.
    apply length_zero_empty. lia.
  - assert (Hd' : d' = "").
    { apply (Hleft q2 d'). by rewrite append_assoc', Hd. }
    subst d'. rewrite append_nil_r' in Hd.
    apply (f_equal String.length) in Hd. rewrite length_append in Hd.
    apply length_zero_empty. lia.
Qed.

(** The cut is determined by the string. *)
Lemma cut_at_unique (sep s : string) (l1 l2 : list string) :
  cut_at sep s l1 -> cut_at sep s l2 -> l1 = l2.
Proof.
  intros H1. revert l2. induction H1 as [s Hnone|q1 r1 p1 Hleft1 Hrest1 IH]; intros l2 H2.
  - inversion H2 as [s' Hn Hs Hl|q2 r2 p2 Hleft2 Hrest2 Hs Hl]; [done|].
    destruct Hnone. subst s. by exists q2, r2.
  - inversion H2 as [s' Hn Hs Hl|q2 r2 p2 Hleft2 Hrest2 Hs Hl].
    { destruct Hn. by exists q1, r1. }
    assert (Hq : q1 = q2).
    { symmetry in Hs. destruct (append_split _ _ _ _ Hs) as [d [[Hd Hr]|[Hd Hr]]].
      - rewrite (leftmost_same sep q1 q2 d r1 r2 Hleft1 Hd Hr) in Hd.
        by rewrite append_nil_r' in Hd.
      - rewrite (leftmost_same sep q2 q1 d r2 r1 Hleft2 Hd Hr) in Hd.
        by rewrite append_nil_r' in Hd. }
    subst q2. apply append_inv_head, append_inv_head in Hs. subst r2.
    f_equal. by apply IH.
Qed.

(** *** strings.TrimSpace and white space *)

Lemma ascii_of_code (a : ascii) (n : nat) : nat_of_ascii a = n -> a = ascii_of_nat n.
Proof. intros <-. by rewrite ascii_nat_embedding. Qed.

Lemma space1_white (a : ascii) : GoStrings.space1 a = true -> In [a] white_space.
Proof.
  unfold GoStrings.space1. intros H.
  assert (Hn : nat_of_ascii a = 9 \/ nat_of_ascii a = 10 \/ nat_of_ascii a = 11
               \/ nat_of_ascii a = 12 \/ nat_of_ascii a = 13 \/ nat_of_ascii a = 32).
  { apply orb_true_iff in H as [[H1 H2]%andb_true_iff|H].
    - apply Nat.leb_le in H1, H2. lia.
    - apply Nat.eqb_eq in H. lia. }
  destruct Hn as [Hn|[Hn|[Hn|[Hn|[Hn|Hn]]]]]; apply ascii_of_code in Hn; subst a;
    vm_compute; tauto.
Qed.

Lemma space2_white (a b : ascii) : GoStrings.space2 a b = true -> In [a; b] white_space.
Proof.
  unfold GoStrings.space2.
  intros [Ha%Nat.eqb_eq Hb%orb_true_iff]%andb_true_iff.
  apply ascii_of_code in Ha. subst a.
  destruct Hb as [Hb%Nat.eqb_eq|Hb%Nat.eqb_eq]; apply ascii_of_code in Hb; subst b;
    vm_compute; tauto.
Qed.

Lemma space3_white (a b c : ascii) :
  GoStrings.space3 a b c = true -> In [a; b; c] white_space.
Proof.
  unfold GoStrings.space3. cbv zeta. intros H.
  assert (Hn : (nat_of_ascii a = 225 /\ nat_of_ascii b = 154 /\ nat_of_ascii c = 128)
               \/ (nat_of_ascii a = 226 /\ nat_of_ascii b = 128
                   /\ (128 <= nat_of_ascii c <= 138 \/ nat_of_ascii c = 168
                       \/ nat_of_ascii c = 169 \/ nat_of_ascii c = 175))
               \/ (nat_of_ascii a = 226 /\ nat_of_ascii b = 129 /\ nat_of_ascii c = 159)
               \/ (nat_of_ascii a = 227 /\ nat_of_ascii b = 128 /\ nat_of_ascii c = 128)).
  { repeat match type of H with
           | (_ || _) = true => apply orb_true_iff in H as [H|H]
           end;
      repeat match goal with
             | H : (_ && _) = true |- _ => apply andb_true_iff in H as [? ?]
             | H : (_ || _) = true |- _ => apply orb_true_iff in H as [?|?]
             | H : (_ =? _) = true |- _ => apply Nat.eqb_eq in H
             | H : (_ <=? _) = true |- _ => apply Nat.leb_le in H
             end; lia. }
  destruct Hn as [(Ha & Hb & Hc)|[(Ha & Hb & Hc)|[(Ha & Hb & Hc)|(Ha & Hb & Hc)]]];
    apply ascii_of_code in Ha, Hb; subst a b.
  - apply ascii_of_code in Hc. subst c. vm_compute. tauto.
  - assert (Hc' : nat_of_ascii c = 128 \/ nat_of_ascii c = 129 \/ nat_of_ascii c = 130
                  \/ nat_of_ascii c = 131 \/ nat_of_ascii c = 132 \/ nat_of_ascii c = 133
                  \/ nat_of_ascii c = 134 \/ nat_of_ascii c = 135 \/ nat_of_ascii c = 136
                  \/ nat_of_ascii c = 137 \/ nat_of_ascii c = 138 \/ nat_of_ascii c = 168
                  \/ nat_of_ascii c = 169 \/ nat_of_ascii c = 175) by lia.
    repeat destruct Hc' as [Hc'|Hc']; apply ascii_of_code in Hc'; subst c;
      vm_compute; tauto.
  - apply ascii_of_code in Hc. subst c. vm_compute. tauto.
  - apply ascii_of_code in Hc. subst c. vm_compute. tauto.
Qed.

(** A rune of [white_space] is one, two or three bytes that [space1],
    [space2] or [space3] accepts, and its first byte decides which. *)
Lemma white_space_cases (r : list ascii) :
  In r white_space ->
  (exists a, r = [a] /\ GoStrings.space1 a = true)
  \/ (exists a b, r = [a; b] /\ GoStrings.space1 a = false
                  /\ GoStrings.space2 a b = true)
  \/ (exists a b c, r = [a; b; c] /\ GoStrings.space1 a = false
                    /\ GoStrings.space2 a b = false
                    /\ GoStrings.space3 a b c = true).
Proof.
  intros Hin. unfold white_space in Hin.
  repeat (destruct Hin as [<-|Hin];
          [first [left; eexists; split; [reflexivity|vm_compute; reflexivity]
                 |right; left; eexists _, _; split; [reflexivity|];
                  split; vm_compute; reflexivity
                 |right; right; eexists _, _, _; split; [reflexivity|];
                  split; [|split]; vm_compute; reflexivity]|]).
  destruct Hin.
Qed.

Lemma white_one (r : list ascii) : In r white_space -> white r.
Proof. intros Hin. rewrite <- (app_nil_r r). apply white_more; [done|constructor]. Qed.

Lemma white_app (l1 l2 : list ascii) : white l1 -> white l2 -> white (l1 ++ l2).
Proof.
  induction 1 as [|r l Hr Hl IH]; [done|]. intros H2.
  rewrite <- app_assoc. apply white_more; [done|by apply IH].
Qed.

Lemma trim_left_white (l : list ascii) : white l -> GoStrings.trim_left l = [].
Proof.
  induction 1 as [|r l Hr Hl IH]; [done|].
  destruct (white_space_cases r Hr)
    as [(a & -> & H1)|[(a & b & -> & H1 & H2)|(a & b & c & -> & H1 & H2 & H3)]];
    cbn [app GoStrings.trim_left]; by rewrite ?H1, ?H2, ?H3.
Qed.

Lemma trim_left_nil_white (n : nat) (l : list ascii) :
  length l < n -> GoStrings.trim_left l = [] -> white l.
Proof.
  revert l. induction n as [|n IH]; intros l Hn; [lia|].
  destruct l as [|a s1]; [constructor|]. cbn [GoStrings.trim_left].
  destruct (GoStrings.space1 a) eqn:H1.
  { intros Hrest. apply (white_more [a]); [by apply space1_white|].
    apply IH; [simpl in Hn; lia|done]. }
  destruct s1 as [|b s2]; [done|].
  destruct (GoStrings.space2 a b) eqn:H2.
  { intros Hrest. apply (white_more [a; b]); [by apply space2_white|].
    apply IH; [simpl in Hn; lia|done]. }
  destruct s2 as [|c s3]; [done|].
  destruct (GoStrings.space3 a b c) eqn:H3; [|done].
  intros Hrest. apply (white_more [a; b; c]); [by apply space3_white|].
  apply IH; [simpl in Hn; lia|done].
Qed.

Lemma trim_left_idem (n : nat) (l : list ascii) :
  length l < n -> GoStrings.trim_left (GoStrings.trim_left l) = GoStrings.trim_left l.
Proof.
  revert l. induction n as [|n IH]; intros l Hn; [lia|].
  destruct l as [|a s1]; [done|]. cbn [GoStrings.trim_left].
  destruct (GoStrings.space1 a) eqn:H1; [apply IH; simpl in Hn; lia|].
  destruct s1 as [|b s2]; [cbn [GoStrings.trim_left]; by rewrite H1|].
  destruct (GoStrings.space2 a b) eqn:H2; [apply IH; simpl in Hn; lia|].
  destruct s2 as [|c s3]; [cbn [GoStrings.trim_left]; by rewrite H1, H2|].
  destruct (GoStrings.space3 a b c) eqn:H3; [apply IH; simpl in Hn; lia|].
  cbn [GoStrings.trim_left]. by rewrite H1, H2, H3.
Qed.

Lemma trim_right_nil_white (n : nat) (r : list ascii) :
  length r < n -> GoStrings.trim_right_rev r = [] -> white (rev r).
Proof.
  revert r. induction n as [|n IH]; intros r Hn; [lia|].
  destruct r as [|a r1]; [constructor|]. cbn [GoStrings.trim_right_rev].
  destruct (GoStrings.space1 a) eqn:H1.
  { intros Hrest. cbn [rev]. apply white_app; [apply IH; [simpl in Hn; lia|done]|].
    by apply white_one, space1_white. }
  destruct r1 as [|b r2]; [done|].
  destruct (GoStrings.space2 b a) eqn:H2.
  { intros Hrest. cbn [rev]. rewrite <- app_assoc.
    apply white_app; [apply IH; [simpl in Hn; lia|done]|].
    by apply white_one, space2_white. }
  destruct r2 as [|c r3]; [done|].
  destruct (GoStrings.space3 c b a) eqn:H3; [|done].
  intros Hrest. cbn [rev]. rewrite <- !app_assoc.
  apply white_app; [apply IH; [simpl in Hn; lia|done]|].
  by apply white_one, space3_white.
Qed.

(** A string is blank for [strings.TrimSpace] exactly when it is white
    space from end to end. *)
Lemma TrimSpace_empty_white (s : string) :
  GoStrings.TrimSpace s = "" <-> white (list_ascii_of_string s).
Proof.
  unfold GoStrings.TrimSpace. set (l := list_ascii_of_string s). split.
  - intros Hempty.
    assert (Hr : GoStrings.trim_right_rev (rev (GoStrings.trim_left l)) = []).
    { destruct (GoStrings.trim_right_rev _) as [|x xs]; [done|].
      cbn [rev] in Hempty. destruct (rev xs); discriminate. }
    apply (trim_right_nil_white (S (length (rev (GoStrings.trim_left l))))) in Hr; [|lia].
    rewrite rev_involutive in Hr. apply trim_left_white in Hr.
    rewrite (trim_left_idem (S (length l))) in Hr by lia.
    by apply (trim_left_nil_white (S (length l))); [lia|].
  - intros Hw. by rewrite (trim_left_white l Hw).
Qed.

Lemma nonblank_not_white (s : string) :
  nonblank s = true <-> ~ white (list_ascii_of_string s).
Proof.
  unfold nonblank. rewrite negb_true_iff, <- TrimSpace_empty_white. split.
  - by intros Hne%String.eqb_neq.
  - intros Hne. by apply String.eqb_neq.
Qed.

(** *** Query *)

Section QueryProperties.

Context {Guest : Type}.
Variable Call : Module -> string -> World Guest -> (list N * option error) * World Guest.

(** The world [interactive_one] is entered in: the write done (or not),
    both events logged. *)
Lemma Query_run (p : PGLite) (sql : string) (w : World Guest) :
  let m := pg_mod p in
  let buf := fst (Memory.Write 1 (cstring sql) (w_mem w)) in
  let ok := Memory.hasSize (w_mem w) 1 (length (cstring sql)) in
  let w1 := set_trace (w_trace w ++ [EvMemWrite m 1 (cstring sql) ok]
                         ++ [EvCall m "interactive_one" buf]) (set_mem buf w) in
  exists rv err w2,
    Call m "interactive_one" w1 = ((rv, err), w2)
    /\ Query Call p sql w =
         (match err with Some e => Fail e | None => Ok tt end,
          set_trace (w_trace w ++ [EvMemWrite m 1 (cstring sql) ok;
                                   EvCall m "interactive_one" buf;
                                   EvReturn m "interactive_one" err]) w2).
Proof.
  intros m buf ok w1.
  destruct (Call m "interactive_one" w1) as [[rv err] w2] eqn:Hcall.
  exists rv, err, w2. split; [done|].
  unfold Query, bind, mem_Write, call_export, check.
  rewrite (surjective_pairing (Memory.Write 1 (cstring sql) (w_mem w))).
  rewrite Write_ok. fold m buf ok. simpl.
  replace (set_trace _ (set_trace _ (set_mem buf w))) with w1.
  2:{ unfold w1, set_trace, set_mem; simpl. by rewrite <- app_assoc. }
  rewrite Hcall. unfold w1; simpl.
  rewrite <- !app_assoc. simpl.
  by destruct err.
Qed.

(** One turn of the loop of [RunQueries]. *)
Lemma run_lines_cons (p : PGLite) (line : string) (rest : list string) (w : World Guest) :
  run_lines Call p (line :: rest) w =
    if nonblank line then
      match Query Call p line
              (set_trace (w_trace w ++ [EvWrite (pg_stderr p)
                  ("REPL: " +:+ line +:+ String GoStrings.LF "")]) w) with
      | (Ok _, w1) => run_lines Call p rest w1
      | (Fail e, w1) => (Fail e, w1)
      end
    else run_lines Call p rest w.
Proof.
  unfold nonblank. simpl. unfold bind at 1.
  destruct (negb _); [|done].
  unfold bind at 1. unfold Fprint, emit. simpl.
  by destruct (Query Call p line _) as [[[]|e] w1].
Qed.

End QueryProperties.

(** *** Reading traces *)

Lemma calls_app (a b : list Event) : calls (a ++ b) = calls a ++ calls b.
Proof. induction a as [|[] a IH]; simpl; by rewrite ?IH. Qed.

Lemma returns_app (a b : list Event) : returns (a ++ b) = returns a ++ returns b.
Proof. induction a as [|[] a IH]; simpl; by rewrite ?IH. Qed.

Lemma mem_writes_app (a b : list Event) :
  mem_writes (a ++ b) = mem_writes a ++ mem_writes b.
Proof. induction a as [|[] a IH]; simpl; by rewrite ?IH. Qed.

Lemma write_precedes_call_app (prev : option Event) (a b : list Event) :
  write_precedes_call prev (a ++ b) =
    write_precedes_call prev a && write_precedes_call (last_event prev a) b.
Proof.
  revert prev. induction a as [|ev a IH]; intros prev; [done|].
  simpl. rewrite IH, andb_assoc. f_equal.
  unfold last_event. destruct a as [|ev' a]; [done|].
  change (last (ev :: ev' :: a)) with (last (ev' :: a)).
  destruct (last (ev' :: a)) eqn:Hlast; [done|].
  by apply last_None in Hlast.
Qed.

(** *** RunQueries *)

Section RunQueriesProperties.

Context {Guest : Type}.
Variable Call : Module -> string -> World Guest -> (list N * option error) * World Guest.
Variable p : PGLite.

(** What the loop leaves in the trace, for any list of pieces: one write,
    one call and one return per non-blank piece, in order, up to and
    including the first call that fails. *)
Lemma run_lines_spec (lines : list string) :
  forall (w : World Guest) res w',
    run_lines Call p lines w = (res, w') ->
    exists evs,
      w_trace w' = w_trace w ++ evs
      /\ (forall prev, write_precedes_call prev evs = true)
      /\ forallb query_event evs = true
      /\ let qs := filter (fun s => nonblank s = true) lines in
         match res with
         | Ok _ =>
             mem_writes evs = map one_write qs
             /\ calls evs = map (one_call p) qs
             /\ returns evs = map good_return qs
         | Fail e =>
             exists pre q post,
               qs = pre ++ q :: post
               /\ mem_writes evs = map one_write (pre ++ [q])
               /\ calls evs = map (one_call p) (pre ++ [q])
               /\ returns evs = map good_return pre ++ [("interactive_one", Some e)]
         end.
Proof.
  induction lines as [|line rest IH]; intros w res w' Hrun.
  - simpl in Hrun. injection Hrun as <- <-.
    exists []. by rewrite app_nil_r.
  - rewrite run_lines_cons in Hrun.
    destruct (nonblank line) eqn:Hline.
    + set (w0 := set_trace _ w) in Hrun.
      destruct (Query_run Call p line w0) as (rv & err & w2 & _ & HQ).
      rewrite HQ in Hrun. clear HQ.
      rewrite filter_cons_True by done.
      destruct err as [e|].
      * injection Hrun as <- <-.
        eexists. split; [|split; [|split]].
        { simpl. rewrite <- app_assoc. reflexivity. }
        { intros prev. simpl. by rewrite N.eqb_refl. }
        { reflexivity. }
        exists [], line, (filter (fun s => nonblank s = true) rest).
        by repeat split.
      * apply IH in Hrun as (evs & Htr & Hpre & Hqev & Hres).
        eexists. split; [|split; [|split]].
        { rewrite Htr. simpl. rewrite <- !app_assoc. reflexivity. }
        { intros prev. simpl. rewrite N.eqb_refl. simpl. apply Hpre. }
        { simpl. exact Hqev. }
        simpl. destruct res as [[]|e].
        -- destruct Hres as (Hw & Hc & Hr). by rewrite Hw, Hc, Hr.
        -- destruct Hres as (pre & q & post & Hqs & Hw & Hc & Hr).
           exists (line :: pre), q, post.
           rewrite Hqs, Hw, Hc, Hr. by repeat split.
    + apply IH in Hrun as (evs & Htr & Hpre & Hqev & Hres).
      rewrite filter_cons_False by (rewrite Hline; done).
      eauto.
Qed.

(** The trace of the loop, statement by statement. *)
Lemma run_lines_submitted (lines : list string) (w : World Guest) :
  exists evs,
    w_trace (snd (run_lines Call p lines w)) = w_trace w ++ evs
    /\ submitted p (filter (fun s => nonblank s = true) lines)
         (fst (run_lines Call p lines w)) evs.
Proof.
  revert w. induction lines as [|line rest IH]; intros w.
  { exists []. simpl. rewrite app_nil_r. split; [done|constructor]. }
  rewrite run_lines_cons. destruct (nonblank line) eqn:Hline.
  - set (w0 := set_trace _ w).
    destruct (Query_run Call p line w0) as (rv & err & w2 & _ & HQ).
    rewrite HQ. clear HQ. rewrite filter_cons_True by done.
    destruct err as [e|].
    + eexists. cbn [fst snd w_trace set_trace w0]. rewrite <- app_assoc.
      split; [reflexivity|]. apply submitted_failed.
    + set (w1 := set_trace _ w2).
      destruct (IH w1) as (evs & Htr & Hsub).
      exists (statement_events p line
                (Memory.hasSize (w_mem w0) 1 (length (cstring line)))
                (fst (Memory.Write 1 (cstring line) (w_mem w0))) None ++ evs).
      split; [|by apply submitted_next].
      rewrite Htr. cbn [w_trace set_trace w1 w0]. by rewrite <- !app_assoc.
  - rewrite filter_cons_False by (by rewrite Hline). apply IH.
Qed.

End RunQueriesProperties.

Lemma cstring_length (sql : string) :
  length (cstring sql) = String.length sql + 1.
Proof.
  unfold cstring. rewrite length_app. simpl. f_equal.
  induction sql as [|c sql IH]; [done|].
  simpl. f_equal. exact IH.
Qed.

(** *** The claims about Query and RunQueries *)

Section QueryClaims.

Context {Guest : Type}.
Variable Call : Module -> string -> World Guest -> (list N * option error) * World Guest.

(** C1 (as amended).  For every [sql], [Query] first asks for a write of
    the bytes of [sql] followed by exactly one zero byte at the fixed offset
    1, and only then enters [interactive_one].  When these bytes fit in the
    memory at that offset, the memory [interactive_one] is entered with
    holds them there; when they do not, it is the memory as it was.  In
    every run of [RunQueries] each entry into [interactive_one] comes right
    after such a write. *)
Theorem Query_write_then_call (p : PGLite) (sql : string) (w : World Guest) :
  (exists ok mem err,
      w_trace (snd (Query Call p sql w)) =
        w_trace w ++ [EvMemWrite (pg_mod p) 1 (list_byte_of_string sql ++ [x00]) ok;
                      EvCall (pg_mod p) "interactive_one" mem;
                      EvReturn (pg_mod p) "interactive_one" err]
      /\ ok = Memory.hasSize (w_mem w) 1 (String.length sql + 1)
      /\ (ok = true ->
          Memory.Read 1 (String.length sql + 1) mem = list_byte_of_string sql ++ [x00])
      /\ (ok = false -> mem = w_mem w))
  /\ (forall input, exists evs,
        w_trace (snd (RunQueries Call p input w)) = w_trace w ++ evs
        /\ write_precedes_call None evs = true).
Proof.
  pose proof (cstring_length sql) as Hlen.
  split.
  - destruct (Query_run Call p sql w) as (rv & err & w2 & _ & HQ).
    rewrite HQ, Hlen. simpl. fold (cstring sql).
    eexists _, _, err. split; [reflexivity|]. split; [done|]. split.
    + intros Hfit. rewrite <- Hlen. apply Write_read_back. by rewrite Hlen.
    + intros Hfit. rewrite Write_out_of_range; [done|]. by rewrite Hlen.
  - intros input.
    destruct (RunQueries Call p input w) as [res w'] eqn:Hrun.
    apply run_lines_spec in Hrun as (evs & Htr & Hpre & _ & _).
    exists evs. split; [done|]. apply Hpre.
Qed.

(** C8.  [Query] returns an error exactly when the call of
    [interactive_one] returns one, and then that error.  The flag of the
    memory write is dropped: when the bytes of [sql] and the zero byte do
    not fit at the write offset the write does nothing, [interactive_one]
    is still entered, with the memory as it was, and the outcome is the
    call's alone. *)
Theorem Query_error_is_the_calls (p : PGLite) (sql : string) (w : World Guest) :
  exists ok mem err w1 rv w2,
    w_trace (snd (Query Call p sql w)) =
      w_trace w ++ [EvMemWrite (pg_mod p) 1 (cstring sql) ok;
                    EvCall (pg_mod p) "interactive_one" mem;
                    EvReturn (pg_mod p) "interactive_one" err]
    /\ Call (pg_mod p) "interactive_one" w1 = ((rv, err), w2)
    /\ w_mem w1 = mem
    /\ fst (Query Call p sql w) = match err with Some e => Fail e | None => Ok tt end
    /\ (forall e, fst (Query Call p sql w) = Fail e <-> err = Some e)
    /\ (Memory.hasSize (w_mem w) 1 (length (cstring sql)) = false ->
        ok = false /\ mem = w_mem w).
Proof.
  destruct (Query_run Call p sql w) as (rv & err & w2 & Hcall & HQ).
  rewrite HQ. simpl.
  eexists _, _, err, _, rv, w2.
  split; [reflexivity|]. split; [exact Hcall|]. split; [done|]. split; [done|].
  split.
  - intros e. destruct err; split; congruence.
  - intros Hfit. split; [done|]. by rewrite Write_out_of_range.
Qed.

(** C9.  The offset of [Query]'s write is 1.  The memory
    [interactive_one] is entered with has the size it had, its byte at
    offset 0 is the one that was there, and so is every byte past offset
    [len(sql)+1]: only offsets 1 to [len(sql)+1] can differ.  [Query] itself
    does nothing else to the memory: what it leaves is what the call left. *)
Theorem Query_write_frame (p : PGLite) (sql : string) (w : World Guest) :
  exists ok mem err,
    w_trace (snd (Query Call p sql w)) =
      w_trace w ++ [EvMemWrite (pg_mod p) 1 (cstring sql) ok;
                    EvCall (pg_mod p) "interactive_one" mem;
                    EvReturn (pg_mod p) "interactive_one" err]
    /\ length mem = length (w_mem w)
    /\ mem !! 0 = w_mem w !! 0
    /\ (forall i, String.length sql + 1 < i -> mem !! i = w_mem w !! i)
    /\ exists w1 rv w2,
         Call (pg_mod p) "interactive_one" w1 = ((rv, err), w2)
         /\ w_mem w1 = mem
         /\ w_mem (snd (Query Call p sql w)) = w_mem w2.
Proof.
  pose proof (cstring_length sql) as Hlen.
  destruct (Query_run Call p sql w) as (rv & err & w2 & Hcall & HQ).
  rewrite HQ. simpl.
  eexists _, _, err. split; [reflexivity|]. split; [apply Write_length|].
  split; [|split].
  - apply Write_frame. left. simpl. lia.
  - intros i Hi. apply Write_frame. right. rewrite Hlen. simpl. lia.
  - eexists _, rv, w2. split; [exact Hcall|]. by split.
Qed.

(** C5.  [RunQueries] cuts the input at its blank lines: the pieces are
    the one way to cut it at every separator, the leftmost first, and joined
    by the separator they are the input again.  The pieces it submits are
    those whose trimmed form is not empty, which are those that are not
    white space from end to end.  It hands them to [Query] one at a time,
    in the order of the input, each call returning before the next piece
    is taken up: the trace is the events of the first piece, then those of
    the second, and so on.  The first call that fails ends the run, with
    nothing submitted after it, and its error is returned; nil is returned
    when every piece was submitted and every call succeeded. *)
Theorem RunQueries_in_order (p : PGLite) (input : string) (w : World Guest) :
  let pieces := GoStrings.Split input GoStrings.blank_line in
  cut_at GoStrings.blank_line input pieces
  /\ (forall l, cut_at GoStrings.blank_line input l -> l = pieces)
  /\ GoStrings.Join pieces GoStrings.blank_line = input
  /\ (forall s, GoStrings.TrimSpace s = ""%string <-> white (list_ascii_of_string s))
  /\ exists evs,
       w_trace (snd (RunQueries Call p input w)) = w_trace w ++ evs
       /\ submitted p (filter (fun s => GoStrings.TrimSpace s <> ""%string) pieces)
            (fst (RunQueries Call p input w)) evs.
Proof.
  intros pieces.
  assert (Hsep : GoStrings.blank_line <> ""%string) by done.
  pose proof (Split_cut input _ Hsep) as Hcut.
  split; [exact Hcut|]. split.
  { intros l Hl. by apply (cut_at_unique _ _ _ _ Hl). }
  split; [by apply Split_Join|].
  split; [apply TrimSpace_empty_white|].
  assert (Hsame : filter (fun s => GoStrings.TrimSpace s <> ""%string) pieces
                  = filter (fun s => nonblank s = true) pieces).
  { apply list_filter_iff. intros s. unfold nonblank.
    rewrite negb_true_iff. split.
    - intros Hs. by apply String.eqb_neq.
    - intros Hs Heq. by rewrite Heq in Hs. }
  rewrite Hsame. apply run_lines_submitted.
Qed.

End QueryClaims.

(** C1 as the specification words it fails when the statement is too long
    for the memory: with eight bytes of memory, the ten bytes of
    [SELECT 1;] and its zero byte are out of range at offset 1, and
    [interactive_one] is entered with the memory as it was. *)
Lemma Query_write_does_not_land :
  ~ write_lands (Sample.call_with []) Sample.pg Sample.sql
      (Sample.world Sample.small).
Proof.
  intros (ok & mem & err & Htr & Hread).
  vm_compute in Htr. injection Htr as _ <- _.
  vm_compute in Hread. discriminate.
Qed.

(** *** setupEnv *)

Lemma key_marker : Filepath.key marker = ["tmp"; "pglite"; "base"; "PG_VERSION"].
Proof. reflexivity. Qed.

Lemma key_dev : Filepath.key "./dev" = ["dev"].
Proof. reflexivity. Qed.

Lemma key_urandom : Filepath.key "./dev/urandom" = ["dev"; "urandom"].
Proof. reflexivity. Qed.

Lemma key_wasi :
  Filepath.key "./tmp/pglite/bin/postgres.wasi" = ["tmp"; "pglite"; "bin"; "postgres.wasi"].
Proof. reflexivity. Qed.

(** The file tree only grows under [os.MkdirAll], and what it adds are
    directories. *)
Lemma mkdir_from_lookup (p : string) (perm : Z) (todo done : list string) (fs : FS)
    (k : list string) :
  snd (OS.mkdir_from p perm done todo fs) !! k = fs !! k
  \/ (fs !! k = None /\ snd (OS.mkdir_from p perm done todo fs) !! k = Some (Dir perm)).
Proof.
  revert done fs. induction todo as [|e todo IH]; intros done fs; [by left|].
  simpl. destruct (fs !! (done ++ [e])) as [[]|] eqn:Hk; try (by left); [apply IH|].
  destruct (IH (done ++ [e]) (<[done ++ [e] := Dir perm]> fs)) as [Heq|[Hnone Hdir]].
  - destruct (decide (done ++ [e] = k)) as [<-|Hne].
    + right. split; [done|]. by rewrite Heq, lookup_insert_eq.
    + left. by rewrite Heq, lookup_insert_ne.
  - right. split; [|done].
    destruct (decide (done ++ [e] = k)) as [<-|Hne].
    + by rewrite lookup_insert_eq in Hnone.
    + by rewrite lookup_insert_ne in Hnone.
Qed.

Lemma MkdirAll_lookup (p : string) (perm : Z) (fs : FS) (k : list string) :
  snd (OS.MkdirAll p perm fs) !! k = fs !! k
  \/ (fs !! k = None /\ snd (OS.MkdirAll p perm fs) !! k = Some (Dir perm)).
Proof. apply mkdir_from_lookup. Qed.

Lemma Create_lookup (p : string) (fs : FS) (k : list string) :
  snd (OS.Create p fs) !! k = fs !! k
  \/ (k = Filepath.key p /\ fst (OS.Create p fs) = Ok k
      /\ snd (OS.Create p fs) !! k = Some (File [])
      /\ forall t, fs !! k <> Some (Symlink t)).
Proof.
  unfold OS.Create.
  destruct (OS.lookup_node fs (Filepath.key p)) as [[]|] eqn:Hn; try (by left).
  - destruct (OS.is_dir fs _); [|by left]. simpl.
    destruct (decide (Filepath.key p = k)) as [<-|Hne].
    + right. rewrite lookup_insert_eq. repeat split; try done.
      intros t Ht. destruct (Filepath.key p); simpl in Hn; congruence.
    + left. by rewrite lookup_insert_ne.
  - destruct (OS.is_dir fs _); [|by left]. simpl.
    destruct (decide (Filepath.key p = k)) as [<-|Hne].
    + right. rewrite lookup_insert_eq. repeat split; try done.
      intros t Ht. destruct (Filepath.key p); simpl in Hn; congruence.
    + left. by rewrite lookup_insert_ne.
Qed.

Lemma Write_lookup (h : list string) (b : list byte) (fs : FS) (k : list string) :
  OS.Write h b fs !! k = fs !! k
  \/ (k = h /\ exists d, fs !! k = Some (File d) /\ OS.Write h b fs !! k = Some (File (d ++ b))).
Proof.
  unfold OS.Write. destruct (fs !! h) as [[]|] eqn:Hh; try (by left).
  destruct (decide (h = k)) as [<-|Hne].
  - right. split; [done|]. eexists. split; [done|]. by rewrite lookup_insert_eq.
  - left. by rewrite lookup_insert_ne.
Qed.

Lemma Symlink_lookup (old new : string) (fs : FS) (k : list string) :
  snd (OS.Symlink_ old new fs) !! k = fs !! k
  \/ (fs !! k = None /\ snd (OS.Symlink_ old new fs) !! k = Some (Symlink old)).
Proof.
  unfold OS.Symlink_.
  destruct (OS.lookup_node fs (Filepath.key new)) eqn:Hn; [by left|].
  destruct (OS.is_dir fs _); [|by left]. simpl.
  destruct (decide (Filepath.key new = k)) as [<-|Hne].
  - right. rewrite lookup_insert_eq. split; [|done].
    destruct (Filepath.key new); simpl in Hn; congruence.
  - left. by rewrite lookup_insert_ne.
Qed.

Section EnvProperties.

Context {Guest : Type}.
Implicit Types w : World Guest.

Lemma same_but_fs_refl w : same_but_fs w w.
Proof. by destruct w. Qed.

Lemma same_but_fs_trans w1 w2 w3 :
  same_but_fs w1 w2 -> same_but_fs w2 w3 -> same_but_fs w1 w3.
Proof. unfold same_but_fs. intros H12 H23. rewrite H23, H12. done. Qed.

Lemma keeps_files_refl w : keeps_files w w.
Proof. intros k d Hk. eauto. Qed.

Lemma keeps_files_trans w1 w2 w3 :
  keeps_files w1 w2 -> keeps_files w2 w3 -> keeps_files w1 w3.
Proof. intros H12 H23 k d Hk. apply H12 in Hk as [d' Hk]. eauto. Qed.

Section Preservation.

Variable R : World Guest -> World Guest -> Prop.
Hypothesis R_refl : forall w, R w w.
Hypothesis R_trans : forall w1 w2 w3, R w1 w2 -> R w2 w3 -> R w1 w3.

Lemma preserves_ret {A} (a : A) : preserves R (ret a).
Proof using R_refl. intros w. apply R_refl. Qed.

Lemma preserves_fail {A} (e : error) : preserves R (fail (A:=A) e).
Proof using R_refl. intros w. apply R_refl. Qed.

Lemma preserves_check (e : option error) : preserves R (check e).
Proof using R_refl. destruct e; [apply preserves_fail|apply preserves_ret]. Qed.

Lemma preserves_bind {A B} (c : M Guest A) (k : A -> M Guest B) :
  preserves R c -> (forall a, preserves R (k a)) -> preserves R (bind c k).
Proof using R_trans.
  intros Hc Hk w. unfold bind. specialize (Hc w).
  destruct (c w) as [[a|e] w1]; simpl in *; [|done].
  eapply R_trans; [exact Hc|apply Hk].
Qed.

Hypothesis R_MkdirAll : forall p perm, preserves R (os_MkdirAll p perm).
Hypothesis R_Create : forall p, preserves R (os_Create p).
Hypothesis R_Write : forall h b, preserves R (file_Write h b).
Hypothesis R_Symlink : forall old new, preserves R (os_Symlink old new).

Lemma extract_entry_preserves (h : Tar.Header) (b : list byte) (be : option error) :
  preserves R (extract_entry h b be).
Proof using All.
  unfold extract_entry, io_Copy.
  repeat case_match;
    repeat first
      [ apply preserves_bind; [|intros ?]
      | apply preserves_check | apply preserves_ret | apply preserves_fail
      | apply R_MkdirAll | apply R_Create | apply R_Write | apply R_Symlink ].
Qed.

Lemma extract_preserves (t : Tar.Stream) : preserves R (extract t).
Proof using All.
  induction t as [|e|h b be rest IH]; simpl.
  - apply preserves_ret.
  - apply preserves_fail.
  - apply preserves_bind; [apply extract_entry_preserves|done].
Qed.

End Preservation.

Lemma MkdirAll_same_but_fs p perm : preserves same_but_fs (os_MkdirAll (Guest:=Guest) p perm).
Proof. intros w. unfold os_MkdirAll. by destruct (OS.MkdirAll _ _ _), w. Qed.

Lemma Create_same_but_fs p : preserves same_but_fs (os_Create (Guest:=Guest) p).
Proof. intros w. unfold os_Create. by destruct (OS.Create _ _), w. Qed.

Lemma Write_same_but_fs h b : preserves same_but_fs (file_Write (Guest:=Guest) h b).
Proof. intros w. by destruct w. Qed.

Lemma Symlink_same_but_fs old new :
  preserves same_but_fs (os_Symlink (Guest:=Guest) old new).
Proof. intros w. unfold os_Symlink. by destruct (OS.Symlink_ _ _ _), w. Qed.

Lemma MkdirAll_keeps_files p perm : preserves keeps_files (os_MkdirAll (Guest:=Guest) p perm).
Proof.
  intros w k d Hk. unfold os_MkdirAll.
  destruct (MkdirAll_lookup p perm (w_fs w) k) as [Heq|[Hnone _]]; [|congruence].
  destruct (OS.MkdirAll p perm (w_fs w)); simpl in *. rewrite Heq. eauto.
Qed.

Lemma Create_keeps_files p : preserves keeps_files (os_Create (Guest:=Guest) p).
Proof.
  intros w k d Hk. unfold os_Create.
  destruct (Create_lookup p (w_fs w) k) as [Heq|(_ & _ & Hnew & _)];
    destruct (OS.Create p (w_fs w)); simpl in *.
  - rewrite Heq. eauto.
  - eauto.
Qed.

Lemma Write_keeps_files h b : preserves keeps_files (file_Write (Guest:=Guest) h b).
Proof.
  intros w k d Hk. simpl.
  destruct (Write_lookup h b (w_fs w) k) as [Heq|(_ & d' & _ & Hnew)].
  - rewrite Heq. eauto.
  - eauto.
Qed.

Lemma Symlink_keeps_files old new :
  preserves keeps_files (os_Symlink (Guest:=Guest) old new).
Proof.
  intros w k d Hk. unfold os_Symlink.
  destruct (Symlink_lookup old new (w_fs w) k) as [Heq|[Hnone _]]; [|congruence].
  destruct (OS.Symlink_ old new (w_fs w)); simpl in *. rewrite Heq. eauto.
Qed.

(** The loop over the archive touches nothing but the file tree, and a
    regular file stays one. *)
Lemma extract_same_but_fs (t : Tar.Stream) w : same_but_fs w (snd (extract t w)).
Proof.
  apply (extract_preserves same_but_fs same_but_fs_refl same_but_fs_trans
           MkdirAll_same_but_fs Create_same_but_fs Write_same_but_fs
           Symlink_same_but_fs).
Qed.

Lemma extract_keeps_files (t : Tar.Stream) w : keeps_files w (snd (extract t w)).
Proof.
  apply (extract_preserves keeps_files keeps_files_refl keeps_files_trans
           MkdirAll_keeps_files Create_keeps_files Write_keeps_files
           Symlink_keeps_files).
Qed.

End EnvProperties.

Section SetupEnvProperties.

Context {Guest : Type}.
Variable compressed : Tar.Archive.
Implicit Types w : World Guest.

Lemma Stat_marker_file (fs : FS) (d : list byte) :
  fs !! Filepath.key marker = Some (File d) -> OS.Stat marker fs = None.
Proof. unfold OS.Stat. rewrite key_marker. simpl. by intros ->. Qed.

(** With the marker file there, the guarded block does nothing at all. *)
Lemma extractEnv_skip w :
  OS.Stat marker (w_fs w) = None -> extractEnv compressed w = (Ok tt, w).
Proof. intros Hstat. unfold extractEnv, bind, os_Stat. by rewrite Hstat. Qed.

(** Without it, the block announces the extraction and reads the archive. *)
Lemma extractEnv_run w (e0 : error) :
  OS.Stat marker (w_fs w) = Some e0 ->
  extractEnv compressed w =
    match compressed with
    | Tar.BadGzip e => fail e
    | Tar.Gzip t => extract t
    end (set_trace (w_trace w ++ [EvWrite OsStdout
                                   ("Extracting env...." +:+ String GoStrings.LF "")]) w).
Proof. intros Hstat. unfold extractEnv, bind, os_Stat. by rewrite Hstat. Qed.

Lemma Create_ok (p : string) (fs fs' : FS) (h : list string) :
  OS.Create p fs = (Ok h, fs') ->
  h = Filepath.key p /\ fs' = <[Filepath.key p := File []]> fs
  /\ OS.is_dir fs (removelast (Filepath.key p)) = true.
Proof.
  unfold OS.Create. intros H.
  destruct (OS.lookup_node fs (Filepath.key p)) as [[]|];
    try discriminate;
    destruct (OS.is_dir fs _); try discriminate; by injection H as <- <-.
Qed.

(** A regular-file entry that was unpacked without error is a regular
    file in the tree. *)
Lemma extract_entry_reg (h : Tar.Header) (b : list byte) (be : option error) w w1 :
  Ascii.eqb (Tar.Typeflag h) Tar.TypeReg = true ->
  extract_entry h b be w = (Ok tt, w1) ->
  w_fs w1 !! Filepath.key (Filepath.Join ["./"; Tar.Name h]) = Some (File b).
Proof.
  intros Hreg%Ascii.eqb_eq. unfold extract_entry. rewrite Hreg. simpl.
  unfold bind, os_MkdirAll, check, os_Create, io_Copy, bind, file_Write, ret, fail.
  destruct (OS.MkdirAll _ _ _) as [[e|] fs1]; [discriminate|]. simpl.
  destruct (OS.Create _ fs1) as [[k|e] fs2] eqn:Hcreate; [|discriminate]. simpl.
  apply Create_ok in Hcreate as (-> & -> & _).
  destruct be; [discriminate|]. intros [= <-]. simpl.
  unfold OS.Write. rewrite lookup_insert_eq. by rewrite lookup_insert_eq.
Qed.

Lemma extract_makes_file (k : list string) (t : Tar.Stream) :
  has_reg k t = true ->
  forall w w', extract t w = (Ok tt, w') -> exists d, w_fs w' !! k = Some (File d).
Proof.
  induction t as [|e|h b be rest IH]; simpl; [done|done|].
  intros Hreg w w'. unfold bind.
  destruct (extract_entry h b be w) as [[[]|e] w1] eqn:Hentry; [|discriminate].
  intros Hrest.
  apply orb_true_iff in Hreg as [[Hty Hk%bool_decide_eq_true]%andb_true_iff|Hlater].
  - pose proof (extract_entry_reg _ _ _ _ _ Hty Hentry) as Hfile.
    subst k.
    pose proof (extract_keeps_files rest w1 _ b Hfile) as Hkeep.
    by rewrite Hrest in Hkeep.
  - eauto.
Qed.

(** With the marker in the archive, a successful run of the guarded block
    leaves a world in which a second run does nothing. *)
Lemma extractEnv_idempotent w w1 :
  holds_marker compressed = true ->
  extractEnv compressed w = (Ok tt, w1) ->
  extractEnv compressed w1 = (Ok tt, w1).
Proof using Type.
  intros Hmark Hrun.
  destruct (OS.Stat marker (w_fs w)) as [e0|] eqn:Hstat.
  - rewrite (extractEnv_run _ e0 Hstat) in Hrun.
    destruct compressed as [e|t] eqn:Harchive; [discriminate|]. simpl in Hmark.
    destruct (extract_makes_file _ _ Hmark _ _ Hrun) as [d Hfile].
    rewrite <- Harchive. apply extractEnv_skip. by eapply Stat_marker_file.
  - rewrite (extractEnv_skip _ Hstat) in Hrun. injection Hrun as <-.
    by apply extractEnv_skip.
Qed.

(** The guarded block leaves the random source, the memory and the guest
    alone, and writes at most its announcement. *)
Lemma extractEnv_frame w :
  let w' := snd (extractEnv compressed w) in
  w_rand w' = w_rand w /\ w_mem w' = w_mem w /\ w_guest w' = w_guest w
  /\ (w_trace w' = w_trace w
      \/ w_trace w' = w_trace w ++ [EvWrite OsStdout
                                     ("Extracting env...." +:+ String GoStrings.LF "")]).
Proof.
  destruct (OS.Stat marker (w_fs w)) as [e0|] eqn:Hstat.
  - rewrite (extractEnv_run _ e0 Hstat).
    destruct compressed as [e|t]; simpl.
    + repeat split; by right.
    + set (w0 := set_trace _ w).
      pose proof (extract_same_but_fs t w0) as Hsame.
      rewrite Hsame. simpl. repeat split; by right.
  - rewrite (extractEnv_skip _ Hstat). simpl. repeat split; by left.
Qed.

End SetupEnvProperties.

(** *** The random-device shim *)

Lemma MkdirAll_dev (fs : FS) :
  OS.MkdirAll "./dev" 493 fs =
    match fs !! ["dev"] with
    | Some (Dir _) => (None, fs)
    | Some _ => (Some (PathError "mkdir" "./dev" ENOTDIR), fs)
    | None => (None, <[["dev"] := Dir 493]> fs)
    end.
Proof.
  unfold OS.MkdirAll. rewrite key_dev. simpl.
  by destruct (fs !! ["dev"]) as [[]|].
Qed.

Lemma Create_urandom (fs : FS) :
  OS.Create "./dev/urandom" fs =
    match fs !! urandom with
    | Some (Dir _) => (Fail (PathError "open" "./dev/urandom" EISDIR), fs)
    | Some (Symlink _) => (Fail (PathError "open" "./dev/urandom" ELOOP), fs)
    | _ =>
        if OS.is_dir fs ["dev"]
        then (Ok urandom, <[urandom := File []]> fs)
        else (Fail (PathError "open" "./dev/urandom" ENOENT), fs)
    end.
Proof. unfold OS.Create, urandom. rewrite key_urandom. reflexivity. Qed.

Section ShimProperties.

Context {Guest : Type}.
Implicit Types w : World Guest.

Lemma randomShim_unfold w :
  randomShim w =
    match OS.MkdirAll "./dev" 493 (w_fs w) with
    | (Some e, fs1) => (Fail e, set_fs fs1 w)
    | (None, fs1) =>
        match OS.Create "./dev/urandom" fs1 with
        | (Fail e, fs2) => (Fail e, set_fs fs2 w)
        | (Ok rf, fs2) =>
            match rand_take 128 (w_rand w) with
            | (Fail e, rs) => (Fail e, set_rand rs (set_fs fs2 w))
            | (Ok rng, rs) =>
                (OS.ReadFile "./tmp/pglite/bin/postgres.wasi" (OS.Write rf rng fs2),
                 set_rand rs (set_fs (OS.Write rf rng fs2) w))
            end
        end
    end.
Proof.
  unfold randomShim, bind, os_MkdirAll, check, os_Create, rand_Read, file_Write,
    os_ReadFile, fail, ret.
  destruct (OS.MkdirAll _ _ _) as [[e|] fs1]; [done|]. simpl.
  destruct (OS.Create _ _) as [[rf|e] fs2]; [|done]. simpl.
  by destruct (rand_take _ _) as [[rng|e] rs].
Qed.

(** What a run of the shim that returns the binary has done. *)
Lemma randomShim_ok w (blob : list byte) w1 :
  randomShim w = (Ok blob, w1) ->
  exists fs1,
    OS.MkdirAll "./dev" 493 (w_fs w) = (None, fs1)
    /\ (exists perm, fs1 !! ["dev"] = Some (Dir perm))
    /\ rs_err (w_rand w) = None
    /\ w1 = set_rand {| rs_supply := rs_supply (w_rand w);
                        rs_pos := rs_pos (w_rand w) + 128;
                        rs_err := None |}
              (set_fs (<[urandom := File (fresh_bytes w)]> fs1) w)
    /\ OS.ReadFile "./tmp/pglite/bin/postgres.wasi" (w_fs w1) = Ok blob.
Proof.
  rewrite randomShim_unfold.
  destruct (OS.MkdirAll _ _ _) as [[e|] fs1] eqn:Hmk; [discriminate|].
  rewrite Create_urandom.
  assert (Hdir : OS.is_dir fs1 ["dev"] = true -> exists perm, fs1 !! ["dev"] = Some (Dir perm)).
  { unfold OS.is_dir. simpl. destruct (fs1 !! ["dev"]) as [[]|]; try discriminate. eauto. }
  unfold rand_take, fresh_bytes.
  destruct (fs1 !! urandom) as [[]|] eqn:Hu; try discriminate;
    destruct (OS.is_dir fs1 ["dev"]); try discriminate;
    destruct (rs_err (w_rand w)); try discriminate;
    intros [= Hread <-]; exists fs1;
    (split; [done|]); (split; [by apply Hdir|]); (split; [done|]);
    unfold OS.Write in *; rewrite lookup_insert_eq in *; simpl in *;
    rewrite insert_insert_eq in *; done.
Qed.

(** A run of the shim changes the tree at [./dev] and [./dev/urandom]
    only, whatever its outcome. *)
Lemma randomShim_lookup w (k : list string) :
  k <> ["dev"] -> k <> urandom ->
  w_fs (snd (randomShim w)) !! k = w_fs w !! k.
Proof.
  intros Hdev Hu. rewrite randomShim_unfold, MkdirAll_dev.
  assert (Hcreate : forall fs : FS,
             w_fs (snd (match OS.Create "./dev/urandom" fs with
                        | (Fail e, fs2) => (Fail e, set_fs fs2 w)
                        | (Ok rf, fs2) =>
                            match rand_take 128 (w_rand w) with
                            | (Fail e, rs) => (Fail e, set_rand rs (set_fs fs2 w))
                            | (Ok rng, rs) =>
                                (OS.ReadFile "./tmp/pglite/bin/postgres.wasi"
                                   (OS.Write rf rng fs2),
                                 set_rand rs (set_fs (OS.Write rf rng fs2) w))
                            end
                        end)) !! k = fs !! k).
  { intros fs. rewrite Create_urandom.
    destruct (fs !! urandom) as [[]|]; try done;
      destruct (OS.is_dir fs ["dev"]); try done;
      destruct (rand_take 128 (w_rand w)) as [[rng|e] rs]; simpl;
      unfold OS.Write; rewrite ?lookup_insert_eq; by rewrite ?lookup_insert_ne. }
  destruct (w_fs w !! ["dev"]) as [[]|] eqn:Hd; try done.
  rewrite Hcreate. by rewrite lookup_insert_ne.
Qed.

(** The marker and the binary are not among the shim's two paths. *)
Lemma key_marker_not_shim :
  Filepath.key marker <> ["dev"] /\ Filepath.key marker <> urandom.
Proof. by split. Qed.

Lemma key_wasi_not_shim :
  Filepath.key "./tmp/pglite/bin/postgres.wasi" <> ["dev"]
  /\ Filepath.key "./tmp/pglite/bin/postgres.wasi" <> urandom.
Proof. by split. Qed.

(** Run again right after it returned the binary, the shim returns the
    same binary and rewrites [./dev/urandom] alone. *)
Lemma randomShim_again w (blob : list byte) w1 :
  randomShim w = (Ok blob, w1) ->
  exists w2,
    randomShim w1 = (Ok blob, w2)
    /\ (forall k, k <> urandom -> w_fs w2 !! k = w_fs w1 !! k)
    /\ w_fs w2 !! urandom = Some (File (fresh_bytes w1))
    /\ w_trace w2 = w_trace w1 /\ w_mem w2 = w_mem w1 /\ w_guest w2 = w_guest w1.
Proof.
  intros (fs1 & _ & [perm Hdev] & _ & -> & Hread)%randomShim_ok.
  set (fs := <[urandom := File (fresh_bytes w)]> fs1) in *.
  assert (Hd : fs !! ["dev"] = Some (Dir perm)) by (unfold fs; by rewrite lookup_insert_ne).
  assert (Hu : fs !! urandom = Some (File (fresh_bytes w))) by apply lookup_insert_eq.
  rewrite randomShim_unfold. simpl. fold fs in Hread |- *.
  rewrite MkdirAll_dev, Hd, Create_urandom, Hu.
  unfold OS.is_dir. simpl. rewrite Hd. unfold rand_take. simpl.
  unfold OS.Write. rewrite lookup_insert_eq. simpl. rewrite insert_insert_eq.
  eexists. split; [|split; [|split]].
  - f_equal. unfold OS.ReadFile in *. rewrite key_wasi in *. simpl in *.
    rewrite lookup_insert_ne by done. exact Hread.
  - intros k Hk. simpl. by rewrite lookup_insert_ne.
  - simpl. by rewrite lookup_insert_eq.
  - done.
Qed.

End ShimProperties.

(** *** setupEnv as a whole *)

Lemma Stat_marker_exists (fs : FS) :
  OS.Stat marker fs = None <-> is_Some (fs !! Filepath.key marker).
Proof.
  unfold OS.Stat. rewrite key_marker. simpl.
  destruct (fs !! _); split; intros H; done.
Qed.

Section SetupEnvClaims.

Context {Guest : Type}.
Variable compressed : Tar.Archive.
Implicit Types w : World Guest.

Lemma setupEnv_unfold w :
  setupEnv compressed w =
    match extractEnv compressed w with
    | (Ok _, w0) => randomShim w0
    | (Fail e, w0) => (Fail e, w0)
    end.
Proof. reflexivity. Qed.

(** C3 (as amended).  [setupEnv] unpacks the archive exactly when
    [os.Stat] of [./tmp/pglite/base/PG_VERSION] returns an error: when it
    returns none the guarded block leaves the world exactly as it is, and
    when it returns one the block announces the extraction and runs it.
    When the archive holds the marker as a regular file the step is
    idempotent: after an extraction that succeeded the marker is found and
    the block does nothing, and a second [setupEnv] after a successful one
    unpacks nothing, prints nothing and does only what the shim does, so
    that every node of the tree is as it was, except the shim
    [./dev/urandom] that every call rewrites. *)
Theorem setupEnv_extracts_once w :
  (OS.Stat marker (w_fs w) = None -> extractEnv compressed w = (Ok tt, w))
  /\ (forall e0,
        OS.Stat marker (w_fs w) = Some e0 ->
        extractEnv compressed w =
          match compressed with
          | Tar.BadGzip e => fail e
          | Tar.Gzip t => extract t
          end (set_trace (w_trace w ++ [EvWrite OsStdout
                            ("Extracting env...." +:+ String GoStrings.LF "")]) w))
  /\ (holds_marker compressed = true ->
      (forall w1,
          extractEnv compressed w = (Ok tt, w1) ->
          OS.Stat marker (w_fs w1) = None
          /\ extractEnv compressed w1 = (Ok tt, w1))
      /\ (forall blob w1,
            setupEnv compressed w = (Ok blob, w1) ->
            OS.Stat marker (w_fs w1) = None
            /\ extractEnv compressed w1 = (Ok tt, w1)
            /\ setupEnv compressed w1 = randomShim w1
            /\ (forall k, k <> urandom ->
                  w_fs (snd (setupEnv compressed w1)) !! k = w_fs w1 !! k)
            /\ w_trace (snd (setupEnv compressed w1)) = w_trace w1)).
Proof.
  split; [apply extractEnv_skip|]. split; [apply extractEnv_run|].
  intros Hmark.
  assert (Hidem : forall w w1,
             extractEnv compressed w = (Ok tt, w1) ->
             OS.Stat marker (w_fs w1) = None
             /\ extractEnv compressed w1 = (Ok tt, w1)).
  { intros v v1 Hrun.
    pose proof (extractEnv_idempotent compressed v v1 Hmark Hrun) as Hagain.
    split; [|done].
    destruct (OS.Stat marker (w_fs v1)) as [e0|] eqn:Hstat; [|done].
    rewrite (extractEnv_run compressed v1 e0 Hstat) in Hagain.
    destruct compressed as [e|t]; [discriminate|].
    pose proof (extract_same_but_fs t
                  (set_trace (w_trace v1 ++ [EvWrite OsStdout
                     ("Extracting env...." +:+ String GoStrings.LF "")]) v1)) as Hsame.
    rewrite Hagain in Hsame. apply (f_equal w_trace) in Hsame. simpl in Hsame.
    apply (f_equal length) in Hsame. rewrite length_app in Hsame.
    simpl in Hsame. lia. }
  split; [apply Hidem|].
  intros blob w1. rewrite setupEnv_unfold.
  destruct (extractEnv compressed w) as [[[]|e] w0] eqn:Hext; [|discriminate].
  intros Hshim.
  destruct (Hidem _ _ Hext) as [Hthere _].
  destruct (randomShim_again _ _ _ Hshim) as (w2 & Hagain & Hframe & _ & Htr & _).
  assert (Hstat : OS.Stat marker (w_fs w1) = None).
  { apply Stat_marker_exists. apply Stat_marker_exists in Hthere.
    pose proof (randomShim_lookup w0 (Filepath.key marker)
                  (proj1 key_marker_not_shim) (proj2 key_marker_not_shim)) as Hsame.
    rewrite Hshim in Hsame. simpl in Hsame. by rewrite Hsame. }
  assert (Hskip : extractEnv compressed w1 = (Ok tt, w1)) by by apply extractEnv_skip.
  split; [exact Hstat|]. split; [exact Hskip|].
  rewrite setupEnv_unfold, Hskip, Hagain. by repeat split.
Qed.

End SetupEnvClaims.

(** [setupEnv_extracts_once] on the sample archive, which holds the marker:
    the first call on an empty tree unpacks it and returns the binary, and
    a second call unpacks nothing. *)
Lemma setupEnv_extracts_once_sample :
  holds_marker Sample.archive = true
  /\ fst (setupEnv Sample.archive (Sample.world 8)) = Ok [x00; x61; x73; x6d]
  /\ extractEnv Sample.archive (snd (setupEnv Sample.archive (Sample.world 8)))
     = (Ok tt, snd (setupEnv Sample.archive (Sample.world 8))).
Proof.
  split; [reflexivity|]. split; [vm_compute; reflexivity|].
  assert (Hrun : setupEnv Sample.archive (Sample.world 8)
                 = (Ok [x00; x61; x73; x6d],
                    snd (setupEnv Sample.archive (Sample.world 8))))
    by (vm_compute; reflexivity).
  exact (proj1 (proj2 (proj2 (proj2 (proj2 (setupEnv_extracts_once Sample.archive
                                              (Sample.world 8))) eq_refl) _ _ Hrun))).
Defined.

(** C3 as the specification words it fails for an archive without the
    marker file: the first [setupEnv] on an empty tree unpacks it and
    returns the binary; the second one finds no marker, announces and
    unpacks again, rewrites [tmp/pglite/notes] from the first of its two
    entries and stops at the symbolic link, which is already there. *)
Lemma setupEnv_extracts_again :
  holds_marker (Tar.Gzip Sample.unmarked) = false
  /\ fst (setupEnv (Tar.Gzip Sample.unmarked) (Sample.world 8)) = Ok [x00; x61; x73; x6d]
  /\ w_trace (snd (setupEnv (Tar.Gzip Sample.unmarked) (Sample.world 8)))
     = [announcement]
  /\ w_fs (snd (setupEnv (Tar.Gzip Sample.unmarked) (Sample.world 8)))
       !! ["tmp"; "pglite"; "notes"] = Some (File [x32])
  /\ fst (setupEnv (Tar.Gzip Sample.unmarked)
            (snd (setupEnv (Tar.Gzip Sample.unmarked) (Sample.world 8))))
     = Fail (LinkError "symlink" "bin" "tmp/pglite/latest" EEXIST)
  /\ w_trace (snd (setupEnv (Tar.Gzip Sample.unmarked)
                     (snd (setupEnv (Tar.Gzip Sample.unmarked) (Sample.world 8)))))
     = [announcement; announcement]
  /\ w_fs (snd (setupEnv (Tar.Gzip Sample.unmarked)
                  (snd (setupEnv (Tar.Gzip Sample.unmarked) (Sample.world 8)))))
       !! ["tmp"; "pglite"; "notes"] = Some (File [x31]).
Proof. repeat split; vm_compute; reflexivity. Qed.

(** *** NewPGLite *)

Section NewPGLiteProperties.

Context {Guest : Type}.
Variable compressed : Tar.Archive.
Variable InstantiateWithConfig :
  Runtime -> list byte -> ModuleConfig -> World Guest -> (Module * option error) * World Guest.
Variable Call : Module -> string -> World Guest -> (list N * option error) * World Guest.
Implicit Types w : World Guest.

Lemma handshake_runs (r : Runtime) (m : Module) (so se : Writer) w :
  let p := {| pg_runtime := Some r; pg_mod := m; pg_stdout := so; pg_stderr := se |} in
  exists tail,
    w_trace (snd (handshake Call r p w)) = w_trace w ++ tail
    /\ forall ierr, goes_on ierr ->
         boot_tail r m so se ierr tail (fst (handshake Call r p w)).
Proof.
  intros p.
  unfold handshake, bind, call_export, runtime_Close, Fprint, emit, fail, ret. simpl.
  destruct (Call m "pg_initdb" _) as [[rv [e|]] w2]; simpl.
  { eexists. split; [by rewrite <- !app_assoc|]. intros. by constructor. }
  destruct (Call m "use_socketfile" _) as [[rv' [e|]] w3]; simpl.
  { eexists. split; [by rewrite <- !app_assoc|]. intros. by constructor. }
  eexists. split; [by rewrite <- !app_assoc|]. intros. by constructor.
Qed.

Lemma NewPGLite_setup_fails (so se : Writer) (rc : list (option RuntimeConfig))
    w (e : error) w1 :
  setupEnv compressed w = (Fail e, w1) ->
  NewPGLite compressed InstantiateWithConfig Call so se rc w
    = (Fail (WrapError "setupEnv" e), w1).
Proof. intros Hsetup. unfold NewPGLite. by rewrite Hsetup. Qed.

(** Every run of [NewPGLite] that gets past [setupEnv]: the runtime is made,
    WASI and the module are instantiated with the binary and the
    configuration, and the run ends in one of the ways of [boot_tail]. *)
Lemma NewPGLite_boot (so se : Writer) (rc : list (option RuntimeConfig))
    w (blob : list byte) w1 :
  setupEnv compressed w = (Ok blob, w1) ->
  let r := newRuntime rc in
  let cfg := moduleConfig so se in
  let run := NewPGLite compressed InstantiateWithConfig Call so se rc w in
  exists m ierr w2 tail,
    InstantiateWithConfig r blob cfg
      (set_trace (w_trace w1 ++ [EvNewRuntime r; EvWasi r; EvInstantiate r blob cfg]) w1)
      = ((m, ierr), w2)
    /\ w_trace (snd run) =
         w_trace w1 ++ [EvNewRuntime r; EvWasi r; EvInstantiate r blob cfg;
                        EvInstantiated m ierr] ++ tail
    /\ boot_tail r m so se ierr tail (fst run).
Proof.
  intros Hsetup r cfg run. unfold run, NewPGLite. rewrite Hsetup. fold r cfg.
  unfold bind, emit, instantiate, runtime_Close, fail, ret. simpl.
  rewrite <- !app_assoc. simpl.
  destruct (InstantiateWithConfig r blob cfg _) as [[m ierr] w2] eqn:Hinst.
  exists m, ierr, w2. simpl.
  set (wi := set_trace _ w2).
  assert (Htrace : w_trace wi = w_trace w1 ++ [EvNewRuntime r; EvWasi r;
                                               EvInstantiate r blob cfg;
                                               EvInstantiated m ierr]).
  { unfold wi. simpl. by rewrite <- !app_assoc. }
  destruct (handshake_runs r m so se wi) as (tail & Htr & Htail).
  rewrite Htrace, <- app_assoc in Htr.
  assert (Hstop : forall _ : unit,
             w_trace (set_trace (w_trace wi ++ [EvClose r]) wi) =
               w_trace w1 ++ [EvNewRuntime r; EvWasi r; EvInstantiate r blob cfg;
                              EvInstantiated m ierr] ++ [EvClose r]).
  { intros _. unfold wi. simpl. rewrite <- !app_assoc. reflexivity. }
  destruct ierr as [[code| | | | |]|];
    try (exists [EvClose r]; split; [reflexivity|]; split;
         [by apply (Hstop tt)|by constructor]).
  - destruct (code =? 0)%N eqn:Hcode; simpl.
    + apply N.eqb_eq in Hcode as ->.
      exists tail. split; [reflexivity|]. split; [exact Htr|].
      apply Htail. by right.
    + apply N.eqb_neq in Hcode.
      exists [EvClose r]. split; [reflexivity|]. split; [by apply (Hstop tt)|].
      by constructor.
  - exists tail. split; [reflexivity|]. split; [exact Htr|].
    apply Htail. by left.
Qed.

Lemma randomShim_trace w : w_trace (snd (randomShim w)) = w_trace w.
Proof. rewrite randomShim_unfold. by repeat case_match. Qed.

(** What [setupEnv] adds to the trace: nothing, or the announcement of the
    extraction. *)
Lemma setupEnv_trace w :
  exists pre,
    w_trace (snd (setupEnv compressed w)) = w_trace w ++ pre
    /\ (pre = [] \/ pre = [EvWrite OsStdout
                              ("Extracting env...." +:+ String GoStrings.LF "")]).
Proof.
  rewrite setupEnv_unfold.
  destruct (extractEnv_frame compressed w) as (_ & _ & _ & Htr).
  destruct (extractEnv compressed w) as [[[]|e] w0]; simpl in Htr.
  - rewrite randomShim_trace.
    destruct Htr as [->| ->]; [exists []|eexists]; (split; [|eauto]);
      by rewrite ?app_nil_r.
  - simpl.
    destruct Htr as [->| ->]; [exists []|eexists]; (split; [|eauto]);
      by rewrite ?app_nil_r.
Qed.

(** Every run of [NewPGLite]: either [setupEnv] fails and its error comes
    back wrapped, or the run goes through instantiation and ends in one of
    the ways of [boot_tail]. *)
Lemma NewPGLite_cases (so se : Writer) (rc : list (option RuntimeConfig)) w :
  let r := newRuntime rc in
  let cfg := moduleConfig so se in
  let run := NewPGLite compressed InstantiateWithConfig Call so se rc w in
  exists pre,
    (pre = [] \/ pre = [EvWrite OsStdout
                          ("Extracting env...." +:+ String GoStrings.LF "")])
    /\ ((exists e,
           fst (setupEnv compressed w) = Fail e
           /\ run = (Fail (WrapError "setupEnv" e), snd (setupEnv compressed w))
           /\ w_trace (snd run) = w_trace w ++ pre)
        \/ (exists blob m ierr tail,
              fst (setupEnv compressed w) = Ok blob
              /\ w_trace (snd run) =
                   w_trace w ++ pre ++ [EvNewRuntime r; EvWasi r;
                                        EvInstantiate r blob cfg;
                                        EvInstantiated m ierr] ++ tail
              /\ boot_tail r m so se ierr tail (fst run))).
Proof.
  intros r cfg run.
  destruct (setupEnv_trace w) as (pre & Hpre & Hshape).
  exists pre. split; [exact Hshape|].
  destruct (setupEnv compressed w) as [[blob|e] w1] eqn:Hsetup; simpl in Hpre.
  - right.
    destruct (NewPGLite_boot so se rc w blob w1 Hsetup)
      as (m & ierr & w2 & tail & _ & Htr & Hboot).
    exists blob, m, ierr, tail. split; [done|]. split; [|exact Hboot].
    fold run in Htr. rewrite Htr, Hpre. by rewrite <- app_assoc.
  - left. exists e. split; [done|].
    unfold run. rewrite (NewPGLite_setup_fails so se rc w e w1 Hsetup).
    by split.
Qed.

End NewPGLiteProperties.

(** *** The claims about setupEnv's failures and its shim *)

Arguments Filepath.Join : simpl never.
Arguments Filepath.Dir : simpl never.

Section EnvironmentClaims.

Context {Guest : Type}.
Variable compressed : Tar.Archive.
Variable InstantiateWithConfig :
  Runtime -> list byte -> ModuleConfig -> World Guest -> (Module * option error) * World Guest.
Variable Call : Module -> string -> World Guest -> (list N * option error) * World Guest.
Implicit Types w : World Guest.

(** C6.  Whenever [setupEnv] fails, [NewPGLite] returns no [PGLite] and
    the error of [setupEnv] wrapped as [setupEnv: ...], the world being as
    [setupEnv] left it.  [setupEnv] fails with the underlying error when
    the gzip reader cannot be made, when the tar reader fails on an entry,
    when a directory, a file or a symbolic link of an entry cannot be
    made, when the binary cannot be read, and, with an error of its own,
    when an entry is neither a directory, a regular file nor a symbolic
    link. *)
Theorem setupEnv_failure_wrapped (so se : Writer) (rc : list (option RuntimeConfig)) w :
  (forall e w1,
      setupEnv compressed w = (Fail e, w1) ->
      NewPGLite compressed InstantiateWithConfig Call so se rc w
        = (Fail (WrapError "setupEnv" e), w1)
      /\ Unwrap (WrapError "setupEnv" e) = Some e)
  /\ (forall e w0, extractEnv compressed w = (Fail e, w0) ->
                   setupEnv compressed w = (Fail e, w0))
  /\ (forall w0 e w1, extractEnv compressed w = (Ok tt, w0) ->
                      randomShim w0 = (Fail e, w1) ->
                      setupEnv compressed w = (Fail e, w1))
  /\ (forall e, w_fs w !! Filepath.key marker = None ->
                compressed = Tar.BadGzip e ->
                fst (extractEnv compressed w) = Fail e)
  /\ (forall e, fst (extract (Tar.NextErr e) w) = Fail e)
  /\ (forall h b be rest e,
        fst (extract_entry h b be w) = Fail e ->
        fst (extract (Tar.Entry h b be rest) w) = Fail e)
  /\ (forall h b be e,
        Tar.Typeflag h = Tar.TypeDir ->
        fst (OS.MkdirAll (Filepath.Join ["./"; Tar.Name h])
               (OS.FileMode (Tar.Mode h)) (w_fs w)) = Some e ->
        fst (extract_entry h b be w) = Fail e)
  /\ (forall h b be e,
        Tar.Typeflag h = Tar.TypeReg ->
        fst (OS.MkdirAll (Filepath.Dir (Filepath.Join ["./"; Tar.Name h]))
               (OS.FileMode (Tar.Mode h)) (w_fs w)) = Some e ->
        fst (extract_entry h b be w) = Fail e)
  /\ (forall h b be fs1 e,
        Tar.Typeflag h = Tar.TypeReg ->
        OS.MkdirAll (Filepath.Dir (Filepath.Join ["./"; Tar.Name h]))
          (OS.FileMode (Tar.Mode h)) (w_fs w) = (None, fs1) ->
        fst (OS.Create (Filepath.Join ["./"; Tar.Name h]) fs1) = Fail e ->
        fst (extract_entry h b be w) = Fail e)
  /\ (forall h b be e,
        Tar.Typeflag h = Tar.TypeSymlink ->
        fst (OS.Symlink_ (Tar.Linkname h) (Filepath.Join ["./"; Tar.Name h]) (w_fs w))
          = Some e ->
        fst (extract_entry h b be w) = Fail e)
  /\ (forall h b be,
        Tar.Typeflag h <> Tar.TypeDir -> Tar.Typeflag h <> Tar.TypeReg ->
        Tar.Typeflag h <> Tar.TypeSymlink ->
        fst (extract_entry h b be w)
          = Fail (Errorf ("unknown file type in tar: " +:+ fmt_c (Tar.Typeflag h)
                            +:+ " (" +:+ Tar.Name h +:+ ")")))
  /\ (forall fs1 e,
        OS.MkdirAll "./dev" 493 (w_fs w) = (None, fs1) ->
        fst (OS.Create "./dev/urandom" fs1) = Ok urandom ->
        rs_err (w_rand w) = None ->
        OS.ReadFile "./tmp/pglite/bin/postgres.wasi"
          (OS.Write urandom (fresh_bytes w) (snd (OS.Create "./dev/urandom" fs1)))
          = Fail e ->
        fst (randomShim w) = Fail e).
Proof.
  repeat apply conj.
  - intros e w1 Hfail. split; [|done]. by apply NewPGLite_setup_fails.
  - intros e w0 Hext. rewrite setupEnv_unfold. by rewrite Hext.
  - intros w0 e w1 Hext Hshim. rewrite setupEnv_unfold. by rewrite Hext.
  - intros e Hnone ->.
    destruct (OS.Stat marker (w_fs w)) as [e0|] eqn:Hstat.
    + by rewrite (extractEnv_run _ w e0 Hstat).
    + apply Stat_marker_exists in Hstat. rewrite Hnone in Hstat. by destruct Hstat.
  - done.
  - intros h b be rest e Hentry. simpl. unfold bind.
    by destruct (extract_entry h b be w) as [[[]|e'] w1]; simpl in *; simplify_eq.
  - intros h b be e Hty Hmk. unfold extract_entry. rewrite Hty. simpl.
    unfold bind, os_MkdirAll, check.
    destruct (OS.MkdirAll _ _ _) as [[e'|] fs1]; simpl in *; by simplify_eq.
  - intros h b be e Hty Hmk. unfold extract_entry. rewrite Hty. simpl.
    unfold bind, os_MkdirAll, check.
    destruct (OS.MkdirAll _ _ _) as [[e'|] fs1]; simpl in *; by simplify_eq.
  - intros h b be fs1 e Hty Hmk Hcreate. unfold extract_entry. rewrite Hty. simpl.
    unfold bind, os_MkdirAll, check, os_Create. rewrite Hmk. simpl.
    destruct (OS.Create _ _) as [[k|e'] fs2]; simpl in *; by simplify_eq.
  - intros h b be e Hty Hsym. unfold extract_entry. rewrite Hty. simpl.
    unfold bind, os_Symlink, check.
    destruct (OS.Symlink_ _ _ _) as [[e'|] fs1]; simpl in *; by simplify_eq.
  - intros h b be Hdir Hreg Hsym. unfold extract_entry.
    apply Ascii.eqb_neq in Hdir, Hreg, Hsym. by rewrite Hdir, Hreg, Hsym.
  - intros fs1 e Hmk Hcreate Hrand Hread. rewrite randomShim_unfold, Hmk.
    destruct (OS.Create "./dev/urandom" fs1) as [[rf|e'] fs2]; simpl in *;
      [|discriminate].
    injection Hcreate as ->. unfold rand_take. rewrite Hrand. simpl.
    exact Hread.
Qed.

(** C7 (as amended).  Every call of [setupEnv] that gets as far as the
    write, the archive unpacked or not, [./dev] and [./dev/urandom] made
    and the random source read, leaves in [./dev/urandom] exactly the 128
    bytes it has just read from the random source, which has moved on by
    128 bytes; every call that returns the binary is such a call.  Every
    [NewPGLite] that gets past [setupEnv] instantiates the module with
    [./tmp] mounted as [/tmp] and [./dev] as [/dev]. *)
Theorem setupEnv_writes_shim (so se : Writer) (rc : list (option RuntimeConfig)) w :
  length (fresh_bytes w) = 128
  /\ (forall w0 fs1,
        extractEnv compressed w = (Ok tt, w0) ->
        OS.MkdirAll "./dev" 493 (w_fs w0) = (None, fs1) ->
        fst (OS.Create "./dev/urandom" fs1) = Ok urandom ->
        rs_err (w_rand w) = None ->
        shim_written w (snd (setupEnv compressed w))
        /\ rs_pos (w_rand (snd (setupEnv compressed w))) = rs_pos (w_rand w) + 128)
  /\ (forall blob w1,
        setupEnv compressed w = (Ok blob, w1) ->
        shim_written w w1
        /\ rs_pos (w_rand w1) = rs_pos (w_rand w) + 128
        /\ exists m ierr tail,
             w_trace (snd (NewPGLite compressed InstantiateWithConfig Call so se rc w)) =
               w_trace w1 ++ [EvNewRuntime (newRuntime rc); EvWasi (newRuntime rc);
                              EvInstantiate (newRuntime rc) blob (moduleConfig so se);
                              EvInstantiated m ierr] ++ tail
             /\ cfg_mounts (moduleConfig so se)
                  = [("./tmp", "/tmp"); ("./dev", "/dev")]%string).
Proof.
  split; [unfold fresh_bytes; by rewrite length_map, length_seq|].
  destruct (extractEnv_frame compressed w) as (Hrand & _).
  split.
  - intros w0 fs1 Hext Hmk Hcreate Herr.
    rewrite setupEnv_unfold, Hext, randomShim_unfold, Hmk.
    rewrite Hext in Hrand. simpl in Hrand.
    destruct (OS.Create "./dev/urandom" fs1) as [[rf|e] fs2] eqn:Hc; simpl in Hcreate;
      [|discriminate].
    injection Hcreate as ->. apply Create_ok in Hc as (_ & -> & _).
    unfold rand_take. rewrite Hrand, Herr.
    change (map (rs_supply (w_rand w)) (seq (rs_pos (w_rand w)) 128))
      with (fresh_bytes w).
    unfold shim_written, OS.Write.
    cbn [snd w_fs w_rand rs_pos set_rand set_fs].
    fold urandom. rewrite lookup_insert_eq, lookup_insert_eq. by split.
  - intros blob w1 Hsetup.
    pose proof Hsetup as Hrun. rewrite setupEnv_unfold in Hrun.
    destruct (extractEnv compressed w) as [[[]|e] w0]; [|discriminate].
    simpl in Hrand.
    apply randomShim_ok in Hrun as (fs1 & _ & _ & _ & -> & _).
    assert (Hfresh : fresh_bytes w0 = fresh_bytes w)
      by (unfold fresh_bytes; by rewrite Hrand).
    split; [|split].
    + unfold shim_written. simpl. by rewrite lookup_insert_eq, Hfresh.
    + simpl. by rewrite Hrand.
    + destruct (NewPGLite_boot compressed InstantiateWithConfig Call so se rc
                  w blob _ Hsetup) as (m & ierr & w2 & tail & _ & Htr & _).
      by exists m, ierr, tail.
Qed.

End EnvironmentClaims.

(** C7 as the specification words it fails on the calls that return
    early: with an archive that is not gzip and nothing on disk, [setupEnv]
    returns the reader's error and [./dev/urandom] is not there. *)
Lemma setupEnv_may_skip_shim :
  fst (setupEnv Sample.broken_archive (Sample.world 8))
    = Fail (LibError "gzip: invalid header")
  /\ ~ shim_written (Sample.world 8)
         (snd (setupEnv Sample.broken_archive (Sample.world 8))).
Proof.
  split; [reflexivity|].
  unfold shim_written. vm_compute. discriminate.
Qed.

(** [setupEnv_writes_shim] on the sample archive and an empty disk. *)
Lemma setupEnv_writes_shim_sample :
  setupEnv Sample.archive (Sample.world 8)
    = (Ok [x00; x61; x73; x6d], snd (setupEnv Sample.archive (Sample.world 8)))
  /\ shim_written (Sample.world 8) (snd (setupEnv Sample.archive (Sample.world 8))).
Proof.
  assert (Hrun : setupEnv Sample.archive (Sample.world 8)
                 = (Ok [x00; x61; x73; x6d],
                    snd (setupEnv Sample.archive (Sample.world 8))))
    by (vm_compute; reflexivity).
  split; [exact Hrun|].
  exact (proj1 (proj2 (proj2 (setupEnv_writes_shim Sample.archive
                                (Sample.instantiate_with None) (Sample.call_with [])
                                OsStdout OsStderr [] (Sample.world 8))) _ _ Hrun)).
Defined.

(** [setupEnv_failure_wrapped] on an archive that is not gzip. *)
Lemma setupEnv_failure_wrapped_sample :
  fst (NewPGLite Sample.broken_archive (Sample.instantiate_with None)
         (Sample.call_with []) OsStdout OsStderr [] (Sample.world 8))
    = Fail (WrapError "setupEnv" (LibError "gzip: invalid header")).
Proof.
  assert (Hfail : setupEnv Sample.broken_archive (Sample.world 8)
                  = (Fail (LibError "gzip: invalid header"),
                     snd (setupEnv Sample.broken_archive (Sample.world 8))))
    by (vm_compute; reflexivity).
  pose proof (proj1 (setupEnv_failure_wrapped Sample.broken_archive
                       (Sample.instantiate_with None) (Sample.call_with [])
                       OsStdout OsStderr [] (Sample.world 8)) _ _ Hfail) as [Hnew _].
  by rewrite Hnew.
Defined.

(** *** The handshake *)

Lemma handshake_state_app (ph : Phase) (a b : list Event) :
  handshake_state ph (a ++ b) =
    match handshake_state ph a with
    | Some ph' => handshake_state ph' b
    | None => None
    end.
Proof.
  revert ph. induction a as [|ev a IH]; intros ph; [done|].
  destruct ev as [| | | | | |m fn mem|m fn err|]; simpl; try apply IH.
  - destruct (String.eqb fn "interactive_one"); [|apply IH].
    destruct ph; try done; apply IH.
  - destruct err; [apply IH|].
    destruct (String.eqb fn "pg_initdb"); [apply IH|].
    destruct (String.eqb fn "use_socketfile"); apply IH.
Qed.

Lemma handshake_state_queries (evs : list Event) :
  forallb query_event evs = true -> handshake_state Ready evs = Some Ready.
Proof.
  induction evs as [|ev evs IH]; [done|].
  simpl. intros [Hev Hevs]%andb_true_iff.
  destruct ev; simpl in Hev; try discriminate; try (by apply IH).
  - by rewrite Hev; apply IH.
  - apply String.eqb_eq in Hev as ->. destruct err; simpl; by apply IH.
Qed.

(** When a trace is followed without violation, the handshake is complete
    at every entry into [interactive_one]. *)
Lemma handshake_state_at_call (evs pre post : list Event) (m : Module) (mem : list byte) :
  handshake_state Fresh evs <> None ->
  evs = pre ++ EvCall m "interactive_one" mem :: post ->
  handshake_state Fresh pre = Some Ready.
Proof.
  intros Hok ->. rewrite handshake_state_app in Hok.
  destruct (handshake_state Fresh pre) as [[]|]; simpl in Hok; done.
Qed.

Lemma boot_tail_facts (r : Runtime) (m : Module) (so se : Writer)
    (ierr : option error) (tail : list Event) (res : result PGLite) :
  boot_tail r m so se ierr tail res ->
  (forall m' e', ~ In (EvInstantiated m' e') tail)
  /\ (forall m' mem, ~ In (EvCall m' "interactive_one" mem) tail)
  /\ (forall m' e, In (EvReturn m' "pg_initdb" (Some e)) tail ->
                   res = Fail (WrapError "pg_initdb" e))
  /\ (forall m' e, In (EvReturn m' "use_socketfile" (Some e)) tail ->
                   res = Fail (WrapError "use_socketfile" e))
  /\ handshake_state Fresh tail <> None
  /\ (forall p, res = Ok p -> handshake_state Fresh tail = Some Ready).
Proof.
  intros Hboot.
  inversion Hboot; subst; simpl;
    (repeat apply conj; try done;
     intros; simpl in *; intuition (try discriminate); by simplify_eq).
Qed.

Lemma boot_tail_exit (r : Runtime) (m : Module) (so se : Writer)
    (code : N) (tail : list Event) (res : result PGLite) :
  boot_tail r m so se (Some (ExitError code)) tail res ->
  code <> 0%N ->
  tail = [EvClose r] /\ res = Fail (Errorf ("wasm exit_code: " +:+ fmt_d code)).
Proof.
  intros Hboot Hcode.
  inversion Hboot as [code' Hnz|e Hne|ierr mem e Hgo|ierr mem rv mem' e Hgo
                      |ierr mem rv mem' Hgo]; subst.
  - done.
  - by destruct (Hne code).
  - destruct Hgo as [?|?]; by simplify_eq.
  - destruct Hgo as [?|?]; by simplify_eq.
  - destruct Hgo as [?|?]; by simplify_eq.
Qed.

Lemma boot_tail_exit_zero (r : Runtime) (m : Module) (so se : Writer)
    (tail : list Event) (res : result PGLite) :
  boot_tail r m so se (Some (ExitError 0)) tail res ->
  (exists mem after, tail = EvCall m "pg_initdb" mem :: after)
  /\ res <> Fail (Errorf ("wasm exit_code: " +:+ fmt_d 0))
  /\ forall e, res <> Fail (WrapError "instantiate" e).
Proof.
  intros Hboot.
  inversion Hboot as [code' Hnz|e Hne|ierr mem e Hgo|ierr mem rv mem' e Hgo
                      |ierr mem rv mem' Hgo]; subst.
  - done.
  - by destruct (Hne 0%N).
  - split; [by eexists _, _|]. by split.
  - split; [by eexists _, _|]. by split.
  - split; [by eexists _, _|]. by split.
Qed.

Lemma boot_tail_ready (r : Runtime) (m : Module) (so se : Writer)
    (ierr : option error) (tail : list Event) (p : PGLite) :
  boot_tail r m so se ierr tail (Ok p) ->
  p = {| pg_runtime := Some r; pg_mod := m; pg_stdout := so; pg_stderr := se |}
  /\ exists mem rv mem',
       tail = [EvCall m "pg_initdb" mem; EvReturn m "pg_initdb" None;
               EvWrite se ("initdb returned: " +:+ fmt_b_slice rv
                             +:+ String GoStrings.LF "");
               EvCall m "use_socketfile" mem'; EvReturn m "use_socketfile" None].
Proof.
  intros Hboot.
  inversion Hboot as [code' Hnz|e Hne|ierr' mem e Hgo|ierr' mem rv mem' e Hgo
                      |ierr' mem rv mem' Hgo]; subst.
  split; [done|]. by eexists _, _, _.
Qed.

Section QueryLoop.

Context {Guest : Type}.
Variable Call : Module -> string -> World Guest -> (list N * option error) * World Guest.

Lemma query_loop_events (pg : PGLite) (inputs : list string) :
  forall w : World Guest, exists evs,
    w_trace (snd (query_loop Call pg inputs w)) = w_trace w ++ evs
    /\ forallb query_event evs = true.
Proof.
  induction inputs as [|input rest IH]; intros w; simpl.
  - exists []. by rewrite app_nil_r.
  - unfold bind.
    destruct (Query_run Call pg input w) as (rv & err & w2 & _ & HQ).
    rewrite HQ. destruct err as [e|]; simpl.
    + eexists. split; [reflexivity|done].
    + destruct (IH (set_trace
                      (w_trace w ++ [EvMemWrite (pg_mod pg) 1 (cstring input)
                                       (Memory.hasSize (w_mem w) 1 (length (cstring input)));
                                     EvCall (pg_mod pg) "interactive_one"
                                       (fst (Memory.Write 1 (cstring input) (w_mem w)));
                                     EvReturn (pg_mod pg) "interactive_one" None]) w2))
        as (evs & Htr & Hq).
      eexists. split.
      * rewrite Htr. simpl. rewrite <- app_assoc. reflexivity.
      * simpl. exact Hq.
Qed.

End QueryLoop.

(** *** The claims about NewPGLite *)

Section NewPGLiteClaims.

Context {Guest : Type}.
Variable compressed : Tar.Archive.
Variable InstantiateWithConfig :
  Runtime -> list byte -> ModuleConfig -> World Guest -> (Module * option error) * World Guest.
Variable Call : Module -> string -> World Guest -> (list N * option error) * World Guest.
Implicit Types w : World Guest.

Lemma not_in_announcement (pre : list Event) (ev : Event) :
  pre = [] \/ pre = [announcement] ->
  In ev pre -> ev = announcement.
Proof. intros [->| ->] Hin; simpl in Hin; intuition. Qed.

(** C2.  When instantiation ends with an exit error whose code is not
    zero, [NewPGLite] closes the runtime, last of all, and returns no
    [PGLite] and an error naming that code; when [pg_initdb] or
    [use_socketfile] returns an error, [NewPGLite] returns that error,
    wrapped; when [interactive_one] returns an error, [Query] returns
    it. *)
Theorem call_failures_surface (so se : Writer) (rc : list (option RuntimeConfig))
    (p : PGLite) (sql : string) w :
  let run := NewPGLite compressed InstantiateWithConfig Call so se rc w in
  (exists evs,
      w_trace (snd run) = w_trace w ++ evs
      /\ (forall m code,
            In (EvInstantiated m (Some (ExitError code))) evs -> code <> 0%N ->
            fst run = Fail (Errorf ("wasm exit_code: " +:+ fmt_d code))
            /\ last evs = Some (EvClose (newRuntime rc)))
      /\ (forall m e,
            In (EvReturn m "pg_initdb" (Some e)) evs ->
            fst run = Fail (WrapError "pg_initdb" e))
      /\ (forall m e,
            In (EvReturn m "use_socketfile" (Some e)) evs ->
            fst run = Fail (WrapError "use_socketfile" e)))
  /\ (exists evs,
        w_trace (snd (Query Call p sql w)) = w_trace w ++ evs
        /\ forall m e,
             In (EvReturn m "interactive_one" (Some e)) evs ->
             fst (Query Call p sql w) = Fail e).
Proof.
  intros run. split.
  - destruct (NewPGLite_cases compressed InstantiateWithConfig Call so se rc w)
      as (pre & Hpre & [(e & _ & _ & Htr)|(blob & m & ierr & tail & _ & Htr & Hboot)]);
      fold run in Htr |- *.
    + exists pre. split; [exact Htr|].
      repeat apply conj; intros ? ? Hin;
        by apply (not_in_announcement _ _ Hpre) in Hin.
    + eexists. split; [exact Htr|].
      destruct (boot_tail_facts _ _ _ _ _ _ _ Hboot) as (Hnoinst & _ & Hinit & Hsock & _).
      repeat apply conj.
      * intros m' code Hin Hcode.
        apply in_app_iff in Hin as [Hin|Hin];
          [by apply (not_in_announcement _ _ Hpre) in Hin|].
        simpl in Hin.
        destruct Hin as [?|[?|[?|[Heq|Hin]]]]; try discriminate;
          [|by apply Hnoinst in Hin].
        injection Heq as -> ->.
        destruct (boot_tail_exit _ _ _ _ _ _ _ Hboot Hcode) as [-> Hres].
        split; [exact Hres|].
        change (last ((pre ++ [EvNewRuntime (newRuntime rc); EvWasi (newRuntime rc);
                               EvInstantiate (newRuntime rc) blob (moduleConfig so se);
                               EvInstantiated m' (Some (ExitError code))])
                      ++ [EvClose (newRuntime rc)])
                = Some (EvClose (newRuntime rc))) || rewrite app_assoc.
        apply last_snoc.
      * intros m' e Hin.
        apply in_app_iff in Hin as [Hin|Hin];
          [by apply (not_in_announcement _ _ Hpre) in Hin|].
        simpl in Hin.
        destruct Hin as [?|[?|[?|[?|Hin]]]]; try discriminate. by eapply Hinit.
      * intros m' e Hin.
        apply in_app_iff in Hin as [Hin|Hin];
          [by apply (not_in_announcement _ _ Hpre) in Hin|].
        simpl in Hin.
        destruct Hin as [?|[?|[?|[?|Hin]]]]; try discriminate. by eapply Hsock.
  - destruct (Query_run Call p sql w) as (rv & err & w2 & _ & HQ).
    rewrite HQ. simpl. eexists. split; [reflexivity|].
    intros m e Hin. simpl in Hin.
    destruct Hin as [?|[?|[Heq|[]]]]; try discriminate.
    by injection Heq as _ ->.
Qed.

(** C10.  When instantiation ends with an exit error whose code is zero,
    [NewPGLite] does not stop there: the runtime has not been closed, the
    next thing it does is call [pg_initdb] on the module handle that came
    back, and the error it may still return is not one about the
    instantiation. *)
Theorem exit_zero_goes_on (so se : Writer) (rc : list (option RuntimeConfig)) w :
  let run := NewPGLite compressed InstantiateWithConfig Call so se rc w in
  exists evs,
    w_trace (snd run) = w_trace w ++ evs
    /\ forall m,
         In (EvInstantiated m (Some (ExitError 0))) evs ->
         (exists before mem after,
             evs = before ++ EvInstantiated m (Some (ExitError 0))
                          :: EvCall m "pg_initdb" mem :: after
             /\ forall r, ~ In (EvClose r) before)
         /\ fst run <> Fail (Errorf ("wasm exit_code: " +:+ fmt_d 0))
         /\ forall e, fst run <> Fail (WrapError "instantiate" e).
Proof.
  intros run.
  destruct (NewPGLite_cases compressed InstantiateWithConfig Call so se rc w)
    as (pre & Hpre & [(e & _ & _ & Htr)|(blob & m & ierr & tail & _ & Htr & Hboot)]);
    fold run in Htr |- *.
  - exists pre. split; [exact Htr|]. intros m Hin.
    by apply (not_in_announcement _ _ Hpre) in Hin.
  - eexists. split; [exact Htr|]. intros m' Hin.
    destruct (boot_tail_facts _ _ _ _ _ _ _ Hboot) as (Hnoinst & _).
    apply in_app_iff in Hin as [Hin|Hin];
      [by apply (not_in_announcement _ _ Hpre) in Hin|].
    simpl in Hin.
    destruct Hin as [?|[?|[?|[Heq|Hin]]]]; try discriminate;
      [|by apply Hnoinst in Hin].
    injection Heq as -> ->.
    assert (Hbefore : forall r,
               ~ In (EvClose r)
                   (pre ++ [EvNewRuntime (newRuntime rc); EvWasi (newRuntime rc);
                            EvInstantiate (newRuntime rc) blob (moduleConfig so se)])).
    { intros r [Hin|Hin]%in_app_iff.
      - by apply (not_in_announcement _ _ Hpre) in Hin.
      - simpl in Hin. intuition discriminate. }
    destruct (boot_tail_exit_zero _ _ _ _ _ _ Hboot) as ((mem & after & ->) & Hres).
    split; [|exact Hres].
    eexists _, mem, after. split; [|exact Hbefore]. by rewrite <- app_assoc.
Qed.

Lemma announcement_neutral (pre : list Event) (ph : Phase) :
  pre = [] \/ pre = [announcement] ->
  handshake_state ph pre = Some ph
  /\ calls pre = [] /\ returns pre = []
  /\ forall m mem, ~ In (EvCall m "interactive_one" mem) pre.
Proof.
  intros [->| ->]; repeat split; try done; intros m mem Hin; simpl in Hin.
  - done.
  - by destruct Hin as [?|[]].
Qed.

Lemma main_unfold (stdin : string) w :
  main compressed InstantiateWithConfig Call stdin w =
    match NewPGLite compressed InstantiateWithConfig Call OsStdout OsStderr [] w with
    | (Ok pg, w1) =>
        match RunQueries Call pg defaultTests w1 with
        | (Ok _, w2) => query_loop Call pg (fst (ReadStrings ";" stdin)) w2
        | (Fail e, w2) => (Fail e, w2)
        end
    | (Fail e, w1) => (Fail e, w1)
    end.
Proof.
  unfold main, bind.
  destruct (NewPGLite _ _ _ _ _ _ w) as [[pg|e] w1]; [|done].
  by destruct (RunQueries Call pg defaultTests w1) as [[[]|e] w2].
Qed.

(** C4.  A [NewPGLite] that succeeds has made exactly two calls into the
    module it returns, [pg_initdb] first and [use_socketfile] second, each
    entered after the one before returned and each returned without error
    before [NewPGLite] returns; no run of [NewPGLite] enters
    [interactive_one]; and in every run of [main] the handshake is
    complete at each entry into [interactive_one]. *)
Theorem handshake_before_queries (so se : Writer) (rc : list (option RuntimeConfig))
    (stdin : string) w :
  let run := NewPGLite compressed InstantiateWithConfig Call so se rc w in
  (exists evs,
      w_trace (snd run) = w_trace w ++ evs
      /\ (forall m mem, ~ In (EvCall m "interactive_one" mem) evs)
      /\ forall p,
           fst run = Ok p ->
           (exists pre blob ierr mem1 rv mem2,
               evs = pre ++ [EvNewRuntime (newRuntime rc); EvWasi (newRuntime rc);
                             EvInstantiate (newRuntime rc) blob (moduleConfig so se);
                             EvInstantiated (pg_mod p) ierr;
                             EvCall (pg_mod p) "pg_initdb" mem1;
                             EvReturn (pg_mod p) "pg_initdb" None;
                             EvWrite se ("initdb returned: " +:+ fmt_b_slice rv
                                           +:+ String GoStrings.LF "");
                             EvCall (pg_mod p) "use_socketfile" mem2;
                             EvReturn (pg_mod p) "use_socketfile" None])
           /\ calls evs = [(pg_mod p, "pg_initdb"); (pg_mod p, "use_socketfile")]%string
           /\ returns evs = [("pg_initdb", None); ("use_socketfile", None)]%string
           /\ handshake_state Fresh evs = Some Ready)
  /\ (exists evs,
        w_trace (snd (main compressed InstantiateWithConfig Call stdin w))
          = w_trace w ++ evs
        /\ forall pre m mem post,
             evs = pre ++ EvCall m "interactive_one" mem :: post ->
             handshake_state Fresh pre = Some Ready).
Proof.
  intros run.
  assert (Hnew : forall so se rc,
             let run := NewPGLite compressed InstantiateWithConfig Call so se rc w in
             exists evs,
               w_trace (snd run) = w_trace w ++ evs
               /\ (forall m mem, ~ In (EvCall m "interactive_one" mem) evs)
               /\ handshake_state Fresh evs <> None
               /\ forall p,
                    fst run = Ok p ->
                    (exists pre blob ierr mem1 rv mem2,
                        evs = pre ++ [EvNewRuntime (newRuntime rc); EvWasi (newRuntime rc);
                                      EvInstantiate (newRuntime rc) blob (moduleConfig so se);
                                      EvInstantiated (pg_mod p) ierr;
                                      EvCall (pg_mod p) "pg_initdb" mem1;
                                      EvReturn (pg_mod p) "pg_initdb" None;
                                      EvWrite se ("initdb returned: " +:+ fmt_b_slice rv
                                                    +:+ String GoStrings.LF "");
                                      EvCall (pg_mod p) "use_socketfile" mem2;
                                      EvReturn (pg_mod p) "use_socketfile" None])
                    /\ calls evs = [(pg_mod p, "pg_initdb"); (pg_mod p, "use_socketfile")]%string
                    /\ returns evs = [("pg_initdb", None); ("use_socketfile", None)]%string
                    /\ handshake_state Fresh evs = Some Ready).
  { clear run so se rc. intros so se rc run.
    destruct (NewPGLite_cases compressed InstantiateWithConfig Call so se rc w)
      as (pre & Hpre & [(e & _ & Hrun & Htr)|(blob & m & ierr & tail & _ & Htr & Hboot)]);
      fold run in Htr |- *.
    - destruct (announcement_neutral pre Fresh Hpre) as (Hst & _ & _ & Hno).
      exists pre. split; [exact Htr|]. split; [exact Hno|]. split; [by rewrite Hst|].
      intros p Hp. fold run in Hrun. rewrite Hrun in Hp. discriminate.
    - destruct (announcement_neutral pre Fresh Hpre) as (Hst & Hc & Hr & Hno).
      destruct (boot_tail_facts _ _ _ _ _ _ _ Hboot)
        as (_ & Hnocall & _ & _ & Hsome & Hready).
      eexists. split; [exact Htr|]. split; [|split].
      + intros m' mem [Hin|Hin]%in_app_iff; [by apply Hno in Hin|].
        simpl in Hin. destruct Hin as [?|[?|[?|[?|Hin]]]]; try discriminate.
        by apply Hnocall in Hin.
      + by rewrite handshake_state_app, Hst.
      + intros p Hp. unfold run in Hp. rewrite Hp in Hboot.
        destruct (boot_tail_ready _ _ _ _ _ _ _ Hboot) as (-> & mem & rv & mem' & ->).
        simpl. split; [by eexists pre, blob, ierr, mem, rv, mem'|].
        rewrite calls_app, returns_app, handshake_state_app, Hc, Hr, Hst.
        repeat split; reflexivity. }
  split.
  - destruct (Hnew so se rc) as (evs & Htr & Hno & _ & Hok).
    exists evs. split; [exact Htr|]. split; [exact Hno|exact Hok].
  - clear run.
    assert (Hmain : exists evs,
               w_trace (snd (main compressed InstantiateWithConfig Call stdin w))
                 = w_trace w ++ evs
               /\ handshake_state Fresh evs <> None).
    { rewrite main_unfold. generalize defaultTests. intros input.
      generalize (fst (ReadStrings ";" stdin)). intros inputs.
      destruct (Hnew OsStdout OsStderr []) as (evs1 & Htr1 & _ & Hsome & Hok).
      destruct (NewPGLite compressed InstantiateWithConfig Call OsStdout OsStderr [] w)
        as [[pg|e] w1]; simpl in *; [|by exists evs1].
      destruct (Hok pg eq_refl) as (_ & _ & _ & Hready).
      destruct (RunQueries Call pg input w1) as [res w2] eqn:Hrun.
      apply run_lines_spec in Hrun as (evs2 & Htr2 & _ & Hq2 & _).
      apply handshake_state_queries in Hq2.
      destruct res as [[]|e].
      - destruct (query_loop_events Call pg inputs w2)
          as (evs3 & Htr3 & Hq3).
        apply handshake_state_queries in Hq3.
        exists (evs1 ++ evs2 ++ evs3). split.
        + rewrite Htr3, Htr2, Htr1. by rewrite <- !app_assoc.
        + rewrite handshake_state_app, Hready, handshake_state_app, Hq2.
          by rewrite Hq3.
      - exists (evs1 ++ evs2). split.
        + simpl. rewrite Htr2, Htr1. by rewrite <- !app_assoc.
        + rewrite handshake_state_app, Hready. by rewrite Hq2. }
    destruct Hmain as (evs & Htr & Hsome).
    exists evs. split; [exact Htr|].
    intros pre m mem post Hsplit. by eapply handshake_state_at_call.
Qed.

End NewPGLiteClaims.

(** *** The definitions at work *)

Example Split_blank_lines :
  GoStrings.Split ("a" +:+ GoStrings.blank_line +:+ String GoStrings.LF "b"
                     +:+ GoStrings.blank_line) GoStrings.blank_line
  = ["a"; String GoStrings.LF "b"; ""]%string.
Proof. reflexivity. Qed.

Example TrimSpace_blank :
  GoStrings.TrimSpace (" " +:+ String GoStrings.LF (String "009" "")) = ""%string
  /\ GoStrings.TrimSpace ("  SELECT 1; " +:+ String GoStrings.LF "") = "SELECT 1;"%string.
Proof. split; reflexivity. Qed.

Example statements_defaultTests : length (statements defaultTests) = 6.
Proof. reflexivity. Qed.

Example Join_dot_slash :
  Filepath.Join ["./"; "tmp/pglite/base/PG_VERSION"] = "tmp/pglite/base/PG_VERSION"%string
  /\ Filepath.Join ["./"; "/etc//x/../y/"] = "etc/y"%string
  /\ Filepath.Dir "tmp/pglite/bin/postgres.wasi" = "tmp/pglite/bin"%string.
Proof. repeat split; reflexivity. Qed.

Example format_examples :
  fmt_d 137 = "137"%string /\ fmt_b_slice [5%N; 0%N] = "[101 0]"%string.
Proof. split; reflexivity. Qed.

(** [call_failures_surface] on a guest that leaves [_start] with exit
    code 3: the runtime is closed and the error names the code. *)
Lemma call_failures_surface_sample :
  fst (NewPGLite Sample.archive (Sample.instantiate_with (Some (ExitError 3)))
         (Sample.call_with []) OsStdout OsStderr [] (Sample.world 8))
    = Fail (Errorf "wasm exit_code: 3")
  /\ last (w_trace (snd (NewPGLite Sample.archive
                           (Sample.instantiate_with (Some (ExitError 3)))
                           (Sample.call_with []) OsStdout OsStderr [] (Sample.world 8))))
     = Some (EvClose NewRuntime).
Proof.
  destruct (call_failures_surface Sample.archive
              (Sample.instantiate_with (Some (ExitError 3))) (Sample.call_with [])
              OsStdout OsStderr [] Sample.pg Sample.sql (Sample.world 8))
    as [(evs & Htr & Hexit & _) _].
  change (w_trace (Sample.world 8) ++ evs) with evs in Htr. subst evs.
  apply (Hexit 7%N 3%N); [|discriminate].
  vm_compute. repeat first [left; reflexivity | right].
Defined.

(** [exit_zero_goes_on] on a guest that leaves [_start] with exit code 0:
    [NewPGLite] goes through the handshake and returns the instance. *)
Lemma exit_zero_goes_on_sample :
  fst (NewPGLite Sample.archive (Sample.instantiate_with (Some (ExitError 0)))
         (Sample.call_with []) OsStdout OsStderr [] (Sample.world 8))
    = Ok Sample.pg
  /\ forall e,
       fst (NewPGLite Sample.archive (Sample.instantiate_with (Some (ExitError 0)))
              (Sample.call_with []) OsStdout OsStderr [] (Sample.world 8))
         <> Fail (WrapError "instantiate" e).
Proof.
  split; [vm_compute; reflexivity|].
  destruct (exit_zero_goes_on Sample.archive
              (Sample.instantiate_with (Some (ExitError 0))) (Sample.call_with [])
              OsStdout OsStderr [] (Sample.world 8))
    as (evs & Htr & Hzero).
  change (w_trace (Sample.world 8) ++ evs) with evs in Htr. subst evs.
  apply (Hzero 7%N).
  vm_compute. repeat first [left; reflexivity | right].
Defined.

(** [handshake_before_queries] on a guest that accepts everything: the
    two calls of the handshake, in order, and nothing else. *)
Lemma handshake_before_queries_sample :
  calls (w_trace (snd (NewPGLite Sample.archive (Sample.instantiate_with None)
                         (Sample.call_with []) OsStdout OsStderr [] (Sample.world 8))))
    = [(7%N, "pg_initdb"); (7%N, "use_socketfile")]%string.
Proof.
  destruct (handshake_before_queries Sample.archive (Sample.instantiate_with None)
              (Sample.call_with []) OsStdout OsStderr [] "" (Sample.world 8))
    as [(evs & Htr & _ & Hok) _].
  change (w_trace (Sample.world 8) ++ evs) with evs in Htr. subst evs.
  destruct (Hok Sample.pg) as (_ & Hcalls & _); [vm_compute; reflexivity|].
  exact Hcalls.
Defined.

(* ------------------------------------------------------------------ *)
(** ** Further properties *)

Lemma closes_app (a b : list Event) : closes (a ++ b) = closes a ++ closes b.
Proof. induction a as [|[] a IH]; simpl; by rewrite ?IH. Qed.

Lemma runtimes_app (a b : list Event) : runtimes (a ++ b) = runtimes a ++ runtimes b.
Proof. induction a as [|[] a IH]; simpl; by rewrite ?IH. Qed.

Lemma outputs_app (a b : list Event) : outputs (a ++ b) = outputs a ++ outputs b.
Proof. induction a as [|[] a IH]; simpl; by rewrite ?IH. Qed.

Lemma last_app_Some {A} (l tail : list A) (x : A) :
  last tail = Some x -> last (l ++ tail) = Some x.
Proof. intros H. by rewrite last_app, H. Qed.

Lemma announcement_quiet (pre : list Event) :
  pre = [] \/ pre = [announcement] ->
  closes pre = [] /\ runtimes pre = [] /\ calls pre = [].
Proof. by intros [->| ->]. Qed.

(** How the ways of [boot_tail] treat the runtime and the module. *)
Lemma boot_tail_closes (r : Runtime) (m : Module) (so se : Writer)
    (ierr : option error) (tail : list Event) (res : result PGLite) :
  boot_tail r m so se ierr tail res ->
  runtimes tail = []
  /\ match res with
     | Ok p =>
         closes tail = []
         /\ p = {| pg_runtime := Some r; pg_mod := m; pg_stdout := so; pg_stderr := se |}
     | Fail _ => closes tail = [r] /\ last tail = Some (EvClose r)
     end.
Proof. intros Hboot. by inversion Hboot. Qed.

Lemma boot_tail_errors (r : Runtime) (m : Module) (so se : Writer)
    (ierr : option error) (tail : list Event) (e : error) :
  boot_tail r m so se ierr tail (Fail e) ->
  (exists code, code <> 0%N /\ ierr = Some (ExitError code) /\ calls tail = []
                /\ e = Errorf ("wasm exit_code: " +:+ fmt_d code))
  \/ (exists e', (forall code, e' <> ExitError code) /\ ierr = Some e' /\ calls tail = []
                 /\ e = WrapError "instantiate" e')
  \/ (exists e', goes_on ierr /\ e = WrapError "pg_initdb" e')
  \/ (exists e', goes_on ierr /\ e = WrapError "use_socketfile" e').
Proof.
  intros Hboot.
  inversion Hboot as [code' Hnz|e' Hne|ierr' mem e' Hgo|ierr' mem rv mem' e' Hgo
                      |ierr' mem rv mem' Hgo]; subst.
  - left. by exists code'.
  - right; left. by exists e'.
  - right; right; left. by exists e'.
  - right; right; right. by exists e'.
Qed.

Section NewPGLiteFurther.

Context {Guest : Type}.
Variable compressed : Tar.Archive.
Variable InstantiateWithConfig :
  Runtime -> list byte -> ModuleConfig -> World Guest -> (Module * option error) * World Guest.
Variable Call : Module -> string -> World Guest -> (list N * option error) * World Guest.
Implicit Types w : World Guest.

(** X1.  [NewPGLite] makes at most one runtime and never leaks it on an
    error: a run that fails in [setupEnv] has made none; a run that fails
    later has made one and closed it, once and last of all; a run that
    succeeds has made one and left it open. *)
Theorem NewPGLite_runtime_discipline (so se : Writer) (rc : list (option RuntimeConfig)) w :
  let run := NewPGLite compressed InstantiateWithConfig Call so se rc w in
  exists evs,
    w_trace (snd run) = w_trace w ++ evs
    /\ match fst run with
       | Ok p =>
           runtimes evs = [newRuntime rc] /\ closes evs = []
           /\ pg_runtime p = Some (newRuntime rc)
       | Fail e =>
           (runtimes evs = [] /\ closes evs = []
            /\ exists e', e = WrapError "setupEnv" e')
           \/ (runtimes evs = [newRuntime rc] /\ closes evs = [newRuntime rc]
               /\ last evs = Some (EvClose (newRuntime rc)))
       end.
Proof.
  intros run.
  destruct (NewPGLite_cases compressed InstantiateWithConfig Call so se rc w)
    as (pre & Hpre & [(e & _ & Hrun & Htr)|(blob & m & ierr & tail & _ & Htr & Hboot)]);
    subst run;
    destruct (announcement_quiet pre Hpre) as (Hc & Hr & _).
  - exists pre. split; [exact Htr|]. rewrite Hrun. simpl. left. eauto.
  - eexists. split; [exact Htr|].
    destruct (boot_tail_closes _ _ _ _ _ _ _ Hboot) as (Hrt & Hres).
    rewrite !runtimes_app, !closes_app, Hc, Hr, Hrt. simpl.
    destruct (fst (NewPGLite _ _ _ _ _ _ w)) as [p|e].
    + destruct Hres as (-> & ->). by repeat split.
    + destruct Hres as (-> & Hlast). right. repeat split.
      apply last_app_Some.
      by apply (last_app_Some [_; _; _; _]).
Qed.

(** X2.  The errors of [NewPGLite]: the error of [setupEnv], of the
    instantiation, of [pg_initdb] or of [use_socketfile], each wrapped
    under its name so that [errors.Unwrap] gives it back; or, for an exit
    code that is not zero, a new error naming the code that wraps
    nothing. *)
Theorem NewPGLite_errors (so se : Writer) (rc : list (option RuntimeConfig)) w (e : error) :
  fst (NewPGLite compressed InstantiateWithConfig Call so se rc w) = Fail e ->
  (exists e', fst (setupEnv compressed w) = Fail e'
              /\ e = WrapError "setupEnv" e' /\ Unwrap e = Some e')
  \/ (exists code, code <> 0%N
                   /\ e = Errorf ("wasm exit_code: " +:+ fmt_d code) /\ Unwrap e = None)
  \/ (exists e', (forall code, e' <> ExitError code)
                 /\ e = WrapError "instantiate" e' /\ Unwrap e = Some e')
  \/ (exists e', e = WrapError "pg_initdb" e' /\ Unwrap e = Some e')
  \/ (exists e', e = WrapError "use_socketfile" e' /\ Unwrap e = Some e').
Proof.
  intros Hfail.
  destruct (NewPGLite_cases compressed InstantiateWithConfig Call so se rc w)
    as (pre & _ & [(e' & Hsetup & Hrun & _)|(blob & m & ierr & tail & _ & _ & Hboot)]).
  - rewrite Hrun in Hfail. injection Hfail as <-. left. by exists e'.
  - rewrite Hfail in Hboot. right.
    destruct (boot_tail_errors _ _ _ _ _ _ _ Hboot)
      as [(code & Hnz & _ & _ & ->)|[(e' & Hne & _ & _ & ->)|[(e' & _ & ->)|(e' & _ & ->)]]].
    + left. by exists code.
    + right; left. by exists e'.
    + right; right; left. by exists e'.
    + right; right; right. by exists e'.
Qed.

(** X3.  When instantiation returns an error other than an exit with
    code zero, [NewPGLite] calls no exported function at all and closes
    the runtime last of all; when that error is not an exit error, it is
    returned wrapped as [instantiate]. *)
Theorem NewPGLite_instantiate_error (so se : Writer) (rc : list (option RuntimeConfig)) w :
  let run := NewPGLite compressed InstantiateWithConfig Call so se rc w in
  exists evs,
    w_trace (snd run) = w_trace w ++ evs
    /\ forall m e,
         In (EvInstantiated m (Some e)) evs -> e <> ExitError 0 ->
         calls evs = []
         /\ last evs = Some (EvClose (newRuntime rc))
         /\ ((forall code, e <> ExitError code) ->
             fst run = Fail (WrapError "instantiate" e)).
Proof.
  intros run.
  destruct (NewPGLite_cases compressed InstantiateWithConfig Call so se rc w)
    as (pre & Hpre & [(e & _ & _ & Htr)|(blob & m & ierr & tail & _ & Htr & Hboot)]);
    subst run.
  - exists pre. split; [exact Htr|]. intros m e' Hin.
    destruct Hpre as [->| ->]; simpl in Hin; intuition discriminate.
  - eexists. split; [exact Htr|]. intros m' e Hin Hzero.
    destruct (boot_tail_facts _ _ _ _ _ _ _ Hboot) as (Hnoinst & _).
    destruct (announcement_quiet pre Hpre) as (_ & _ & Hcalls).
    apply in_app_iff in Hin as [Hin|Hin].
    { destruct Hpre as [->| ->]; simpl in Hin; intuition discriminate. }
    simpl in Hin.
    destruct Hin as [?|[?|[?|[Heq|Hin]]]]; try discriminate;
      [|by apply Hnoinst in Hin].
    injection Heq as -> ->.
    destruct (fst (NewPGLite _ _ _ _ _ _ w)) as [p|e0] eqn:Hres.
    { inversion Hboot as [| | | |ierr' mem rv mem' [Hgo|Hgo]]; [discriminate|].
      by injection Hgo as ->. }
    destruct (boot_tail_closes _ _ _ _ _ _ _ Hboot) as (_ & _ & Hlast).
    assert (Hl : last (pre ++ [EvNewRuntime (newRuntime rc); EvWasi (newRuntime rc);
                               EvInstantiate (newRuntime rc) blob (moduleConfig so se);
                               EvInstantiated m' (Some e)] ++ tail)
                 = Some (EvClose (newRuntime rc))).
    { apply last_app_Some. by apply (last_app_Some [_; _; _; _]). }
    destruct (boot_tail_errors _ _ _ _ _ _ _ Hboot)
      as [(code & Hnz & Hi & Hc & ->)|[(e' & Hne & Hi & Hc & ->)
          |[(e' & [Hgo|Hgo] & _)|(e' & [Hgo|Hgo] & _)]]];
      try discriminate; try (injection Hgo as ->; done).
    + injection Hi as ->. rewrite calls_app, Hcalls. simpl. rewrite Hc.
      split; [done|]. split; [exact Hl|]. intros Hne. by destruct (Hne code).
    + injection Hi as ->. rewrite calls_app, Hcalls. simpl. rewrite Hc.
      by repeat split.
Qed.

End NewPGLiteFurther.

(** *** What [setupEnv] leaves alone *)

Lemma Create_lookup_kind (p : string) (fs : FS) (k : list string) :
  snd (OS.Create p fs) !! k = fs !! k
  \/ (snd (OS.Create p fs) !! k = Some (File [])
      /\ (fs !! k = None \/ exists d, fs !! k = Some (File d))).
Proof.
  unfold OS.Create.
  destruct (OS.lookup_node fs (Filepath.key p)) as [[]|] eqn:Hn; try (by left);
    (destruct (OS.is_dir fs _); [|by left]); simpl;
    (destruct (decide (Filepath.key p = k)) as [<-|Hne];
       [|left; by rewrite lookup_insert_ne]);
    right; rewrite lookup_insert_eq; (split; [done|]);
    destruct (Filepath.key p); simpl in Hn; try discriminate; eauto.
Qed.

Section EnvFurther.

Context {Guest : Type}.
Implicit Types w : World Guest.

Lemma keeps_nodes_refl w : keeps_nodes w w.
Proof. intros k [] Hk; eauto. Qed.

Lemma keeps_nodes_trans w1 w2 w3 :
  keeps_nodes w1 w2 -> keeps_nodes w2 w3 -> keeps_nodes w1 w3.
Proof.
  intros H12 H23 k n Hk. specialize (H12 k n Hk).
  destruct n as [perm|d|t].
  - exact (H23 k _ H12).
  - destruct H12 as (d' & Hd'). exact (H23 k _ Hd').
  - exact (H23 k _ H12).
Qed.

Lemma keeps_nodes_same_fs w w' : w_fs w' = w_fs w -> keeps_nodes w w'.
Proof. intros Heq k n Hk. rewrite Heq. destruct n; eauto. Qed.

Lemma MkdirAll_keeps_nodes p perm : preserves keeps_nodes (os_MkdirAll (Guest:=Guest) p perm).
Proof.
  intros w k n Hk. unfold os_MkdirAll.
  destruct (MkdirAll_lookup p perm (w_fs w) k) as [Heq|[Hnone _]]; [|congruence].
  destruct (OS.MkdirAll p perm (w_fs w)); simpl in *. rewrite Heq.
  destruct n; eauto.
Qed.

Lemma Create_keeps_nodes p : preserves keeps_nodes (os_Create (Guest:=Guest) p).
Proof.
  intros w k n Hk. unfold os_Create.
  destruct (Create_lookup_kind p (w_fs w) k) as [Heq|(Hnew & [Hnone|(d & Hd)])];
    destruct (OS.Create p (w_fs w)); simpl in *.
  - rewrite Heq. destruct n; eauto.
  - congruence.
  - rewrite Hd in Hk. injection Hk as <-. eauto.
Qed.

Lemma Write_keeps_nodes h b : preserves keeps_nodes (file_Write (Guest:=Guest) h b).
Proof.
  intros w k n Hk. simpl.
  destruct (Write_lookup h b (w_fs w) k) as [Heq|(_ & d' & Hd & Hnew)].
  - rewrite Heq. destruct n; eauto.
  - rewrite Hd in Hk. injection Hk as <-. eauto.
Qed.

Lemma Symlink_keeps_nodes old new :
  preserves keeps_nodes (os_Symlink (Guest:=Guest) old new).
Proof.
  intros w k n Hk. unfold os_Symlink.
  destruct (Symlink_lookup old new (w_fs w) k) as [Heq|[Hnone _]]; [|congruence].
  destruct (OS.Symlink_ old new (w_fs w)); simpl in *. rewrite Heq.
  destruct n; eauto.
Qed.

Lemma extract_entry_keeps_nodes h b be w :
  keeps_nodes w (snd (extract_entry h b be w)).
Proof.
  apply (extract_entry_preserves keeps_nodes keeps_nodes_refl keeps_nodes_trans
           MkdirAll_keeps_nodes Create_keeps_nodes Write_keeps_nodes
           Symlink_keeps_nodes).
Qed.

Lemma extract_keeps_nodes (t : Tar.Stream) w : keeps_nodes w (snd (extract t w)).
Proof.
  apply (extract_preserves keeps_nodes keeps_nodes_refl keeps_nodes_trans
           MkdirAll_keeps_nodes Create_keeps_nodes Write_keeps_nodes
           Symlink_keeps_nodes).
Qed.

Lemma rand_Read_fs n w : w_fs (snd (rand_Read n w)) = w_fs w.
Proof. unfold rand_Read. by destruct (rand_take n (w_rand w)). Qed.

Lemma randomShim_keeps_nodes : preserves keeps_nodes (randomShim (Guest:=Guest)).
Proof.
  unfold randomShim.
  apply (preserves_bind _ keeps_nodes_trans); [apply MkdirAll_keeps_nodes|]. intros err.
  apply (preserves_bind _ keeps_nodes_trans);
    [apply (preserves_check _ keeps_nodes_refl)|]. intros _.
  apply (preserves_bind _ keeps_nodes_trans); [apply Create_keeps_nodes|]. intros rf.
  apply (preserves_bind _ keeps_nodes_trans).
  { intros w. apply keeps_nodes_same_fs, rand_Read_fs. }
  intros rng.
  apply (preserves_bind _ keeps_nodes_trans); [apply Write_keeps_nodes|]. intros _.
  intros w. by apply keeps_nodes_same_fs.
Qed.

Lemma extractEnv_keeps_nodes (compressed : Tar.Archive) :
  preserves keeps_nodes (extractEnv (Guest:=Guest) compressed).
Proof.
  intros w. destruct (OS.Stat marker (w_fs w)) as [e0|] eqn:Hstat.
  - rewrite (extractEnv_run _ _ e0 Hstat).
    destruct compressed as [e|t]; [by apply keeps_nodes_same_fs|].
    eapply keeps_nodes_trans; [|apply extract_keeps_nodes].
    by apply keeps_nodes_same_fs.
  - rewrite (extractEnv_skip _ _ Hstat). apply keeps_nodes_refl.
Qed.

(** X4.  Whatever its outcome, [setupEnv] removes nothing from the file
    tree and changes the kind of no node: every directory and every
    symbolic link that was there is there unchanged, every regular file
    is still a regular file. *)
Theorem setupEnv_keeps_nodes (compressed : Tar.Archive) w :
  keeps_nodes w (snd (setupEnv compressed w)).
Proof.
  apply (preserves_bind _ keeps_nodes_trans); [apply extractEnv_keeps_nodes|].
  intros _. apply randomShim_keeps_nodes.
Qed.

End EnvFurther.

Section SetupEnvFurther.

Context {Guest : Type}.
Variable compressed : Tar.Archive.
Implicit Types w : World Guest.

Lemma randomShim_frame w :
  let w' := snd (randomShim w) in
  w_mem w' = w_mem w /\ w_guest w' = w_guest w
  /\ rs_supply (w_rand w') = rs_supply (w_rand w)
  /\ match fst (randomShim w) with
     | Ok _ => rs_pos (w_rand w') = rs_pos (w_rand w) + 128
     | Fail _ =>
         rs_pos (w_rand w') = rs_pos (w_rand w)
         \/ rs_pos (w_rand w') = rs_pos (w_rand w) + 128
     end.
Proof.
  rewrite randomShim_unfold. unfold rand_take.
  destruct w as [fs [sup pos err] mem g tr]; simpl.
  destruct (OS.MkdirAll _ _ _) as [[e|] fs1]; simpl; [by auto|].
  destruct (OS.Create _ _) as [[rf|e] fs2]; simpl; [|by auto].
  destruct err as [e|]; simpl; [by auto|].
  destruct (OS.ReadFile _ _); simpl; by auto.
Qed.

(** X5.  [setupEnv] touches neither the linear memory nor the guest.  It
    prints the announcement of the extraction exactly when the marker
    file cannot be stat'ed, and nothing else.  A run that succeeds has
    drawn exactly 128 bytes from the random source; one that fails has
    drawn none or 128. *)
Theorem setupEnv_frame w :
  let w' := snd (setupEnv compressed w) in
  w_mem w' = w_mem w /\ w_guest w' = w_guest w
  /\ w_trace w' = w_trace w ++ match OS.Stat marker (w_fs w) with
                               | Some _ => [announcement]
                               | None => []
                               end
  /\ rs_supply (w_rand w') = rs_supply (w_rand w)
  /\ match fst (setupEnv compressed w) with
     | Ok _ => rs_pos (w_rand w') = rs_pos (w_rand w) + 128
     | Fail _ =>
         rs_pos (w_rand w') = rs_pos (w_rand w)
         \/ rs_pos (w_rand w') = rs_pos (w_rand w) + 128
     end.
Proof.
  rewrite setupEnv_unfold.
  assert (Hext : let w0 := snd (extractEnv compressed w) in
                 w_mem w0 = w_mem w /\ w_guest w0 = w_guest w
                 /\ w_rand w0 = w_rand w
                 /\ w_trace w0 = w_trace w ++ match OS.Stat marker (w_fs w) with
                                              | Some _ => [announcement]
                                              | None => []
                                              end).
  { destruct (OS.Stat marker (w_fs w)) as [e0|] eqn:Hstat.
    - rewrite (extractEnv_run _ _ e0 Hstat).
      destruct compressed as [e|t]; [done|].
      set (w0 := set_trace _ w).
      pose proof (extract_same_but_fs t w0) as Hsame.
      simpl. rewrite Hsame. done.
    - rewrite (extractEnv_skip _ _ Hstat). simpl. by rewrite app_nil_r. }
  destruct (extractEnv compressed w) as [[[]|e] w0]; simpl in Hext |- *;
    destruct Hext as (Hmem & Hg & Hrand & Htr).
  - destruct (randomShim_frame w0) as (Hmem' & Hg' & Hsup & Hpos).
    rewrite randomShim_trace. rewrite <- Hmem, <- Hg, <- Hrand, <- Htr.
    by repeat split.
  - rewrite Hrand. repeat split; try done. by left.
Qed.

End SetupEnvFurther.

(** *** Extracting twice *)

Lemma Symlink_taken (old new : string) (fs : FS) :
  fst (OS.Symlink_ old new fs) = None ->
  is_Some (OS.lookup_node (snd (OS.Symlink_ old new fs)) (Filepath.key new)).
Proof.
  unfold OS.Symlink_.
  destruct (OS.lookup_node fs (Filepath.key new)) eqn:Hn; [discriminate|].
  destruct (OS.is_dir fs _); [|discriminate]. intros _. simpl.
  destruct (Filepath.key new); [done|]. simpl. by rewrite lookup_insert_eq.
Qed.

Lemma Symlink_exists (old new : string) (fs : FS) :
  is_Some (OS.lookup_node fs (Filepath.key new)) ->
  OS.Symlink_ old new fs = (Some (LinkError "symlink" old new EEXIST), fs).
Proof. unfold OS.Symlink_. by intros [n ->]. Qed.

Section ExtractTwice.

Context {Guest : Type}.
Implicit Types w : World Guest.

Lemma lookup_node_kept w w' (k : list string) :
  keeps_nodes w w' ->
  is_Some (OS.lookup_node (w_fs w) k) -> is_Some (OS.lookup_node (w_fs w') k).
Proof.
  intros Hkeep. destruct k as [|e k]; [done|]. simpl. intros [n Hn].
  specialize (Hkeep _ _ Hn). destruct n; [eauto|destruct Hkeep; eauto|eauto].
Qed.

Lemma symlinks_taken_kept (t : Tar.Stream) w w' :
  keeps_nodes w w' -> symlinks_taken t (w_fs w) -> symlinks_taken t (w_fs w').
Proof.
  intros Hkeep. induction t as [|e|h b be rest IH]; simpl; [done|done|].
  intros [Hh Hrest]. split; [|by apply IH].
  intros Hs. eapply lookup_node_kept; eauto.
Qed.

Lemma extract_entry_symlink (h : Tar.Header) (b : list byte) (be : option error) w :
  Ascii.eqb (Tar.Typeflag h) Tar.TypeSymlink = true ->
  extract_entry h b be w =
    let dest := Filepath.Join ["./"; Tar.Name h] in
    match fst (OS.Symlink_ (Tar.Linkname h) dest (w_fs w)) with
    | Some e => (Fail e, set_fs (snd (OS.Symlink_ (Tar.Linkname h) dest (w_fs w))) w)
    | None => (Ok tt, set_fs (snd (OS.Symlink_ (Tar.Linkname h) dest (w_fs w))) w)
    end.
Proof.
  intros Hs. apply Ascii.eqb_eq in Hs. unfold extract_entry. rewrite Hs.
  change (Ascii.eqb Tar.TypeSymlink Tar.TypeDir) with false.
  change (Ascii.eqb Tar.TypeSymlink Tar.TypeReg) with false.
  change (Ascii.eqb Tar.TypeSymlink Tar.TypeSymlink) with true.
  cbv iota. unfold bind, os_Symlink, check.
  by destruct (OS.Symlink_ _ _ _) as [[e|] fs].
Qed.

Lemma extract_takes_symlinks (t : Tar.Stream) w :
  fst (extract t w) = Ok tt -> symlinks_taken t (w_fs (snd (extract t w))).
Proof.
  revert w. induction t as [|e|h b be rest IH]; intros w; simpl; [done|done|].
  unfold bind.
  destruct (extract_entry h b be w) as [[[]|e] w'] eqn:He; simpl; [|discriminate].
  intros Hok. split; [|by apply IH].
  intros Hs. eapply lookup_node_kept; [apply extract_keeps_nodes|].
  rewrite extract_entry_symlink in He by done. cbv zeta in He.
  pose proof (Symlink_taken (Tar.Linkname h) (Filepath.Join ["./"; Tar.Name h]) (w_fs w))
    as Htaken.
  destruct (fst (OS.Symlink_ _ _ _)); [discriminate|].
  injection He as <-. by apply Htaken.
Qed.

Lemma extract_taken_fails (t : Tar.Stream) w :
  has_symlink t = true -> symlinks_taken t (w_fs w) ->
  exists e, fst (extract t w) = Fail e.
Proof.
  revert w. induction t as [|e|h b be rest IH]; intros w; simpl; try discriminate.
  intros Hhas [Hh Hrest]. unfold bind.
  destruct (Ascii.eqb (Tar.Typeflag h) Tar.TypeSymlink) eqn:Hs.
  - rewrite extract_entry_symlink by done. cbv zeta.
    rewrite (Symlink_exists _ _ _ (Hh eq_refl)). simpl. eauto.
  - simpl in Hhas.
    destruct (extract_entry h b be w) as [[[]|e] w'] eqn:He; [|simpl; eauto].
    apply IH; [done|]. eapply symlinks_taken_kept; [|exact Hrest].
    replace w' with (snd (extract_entry h b be w)) by (by rewrite He).
    apply extract_entry_keeps_nodes.
Qed.

(** X6.  The extraction loop of [setupEnv] cannot be run twice over an
    archive that holds a symbolic link: after a run that succeeded, a
    second run over the same archive fails ([os.Symlink] finds the place
    taken). *)
Theorem extract_twice_fails (t : Tar.Stream) w :
  has_symlink t = true ->
  fst (extract t w) = Ok tt ->
  exists e, fst (extract t (snd (extract t w))) = Fail e.
Proof.
  intros Hhas Hok. apply extract_taken_fails; [done|].
  by apply extract_takes_symlinks.
Qed.

End ExtractTwice.

(** *** Where the entries of the archive land *)

Lemma prefix_sep_String (c : ascii) (e : string) :
  String.prefix "/" (String c e) = Filepath.is_sep c.
Proof.
  unfold Filepath.is_sep.
  change (String.prefix "/" (String c e))
    with (if ascii_dec "/" c then String.prefix "" e else false).
  destruct (ascii_dec "/" c) as [<-|Hc]; [by destruct e|].
  symmetry. apply Ascii.eqb_neq. congruence.
Qed.

Lemma elements_no_sep (s : string) :
  Forall (fun e => String.prefix "/" e = false) (Filepath.elements s).
Proof.
  induction s as [|c s IH]; simpl; [by repeat constructor|].
  destruct (Filepath.is_sep c) eqn:Hc; [by constructor|].
  assert (Hhead : forall e, String.prefix "/" (String c e) = false).
  { intros e. by rewrite prefix_sep_String. }
  destruct (Filepath.elements s) as [|e es]; [by repeat constructor|].
  apply Forall_cons in IH as [_ IH]. by constructor.
Qed.

Lemma clean_elems_no_sep (is_rooted : bool) (es out : list string) :
  Forall (fun e => e <> "" /\ String.prefix "/" e = false) out ->
  Forall (fun e => String.prefix "/" e = false) es ->
  Forall (fun e => e <> "" /\ String.prefix "/" e = false)
    (Filepath.clean_elems is_rooted out es).
Proof.
  revert out. induction es as [|e es IH]; intros out Hout Hes; simpl.
  { by apply Forall_rev. }
  apply Forall_cons in Hes as [He Hes].
  destruct (String.eqb e "" || String.eqb e ".") eqn:Hskip; [by apply IH|].
  apply orb_false_iff in Hskip as [Hne _]. apply String.eqb_neq in Hne.
  destruct (String.eqb e "..") eqn:Hup.
  - destruct out as [|top out'].
    + destruct is_rooted; apply IH; try done. by repeat constructor.
    + destruct (String.eqb top "..").
      * apply IH; [|done]. by constructor.
      * apply IH; [|done]. by apply Forall_cons in Hout as [_ Hout].
  - apply IH; [|done]. by constructor.
Qed.

Lemma prefix_sep_app (e s : string) :
  e <> "" -> String.prefix "/" e = false -> String.prefix "/" (e +:+ s) = false.
Proof.
  destruct e as [|c e]; [done|]. intros _.
  change (String c e +:+ s) with (String c (e +:+ s)). by rewrite !prefix_sep_String.
Qed.

Lemma Clean_relative (p : string) :
  Filepath.rooted p = false -> Filepath.rooted (Filepath.Clean p) = false.
Proof.
  intros Hp. unfold Filepath.Clean. rewrite Hp.
  pose proof (clean_elems_no_sep false (Filepath.elements p) [] (Forall_nil_2 _)
                (elements_no_sep p)) as Hes.
  destruct (Filepath.clean_elems false [] (Filepath.elements p)) as [|e es]; [done|].
  apply Forall_cons in Hes as [[Hne He] _]. unfold Filepath.rooted. simpl.
  destruct es; [done|]. by apply prefix_sep_app.
Qed.

Lemma upto_last_sep_relative (p : string) :
  Filepath.rooted p = false -> Filepath.rooted (Filepath.upto_last_sep p) = false.
Proof.
  destruct p as [|c p]; [done|]. unfold Filepath.rooted.
  rewrite prefix_sep_String. intros Hc. cbn [Filepath.upto_last_sep].
  destruct (Filepath.upto_last_sep p).
  - by rewrite Hc.
  - by rewrite prefix_sep_String.
Qed.

(** X7.  Whatever name an entry of the archive carries, an absolute one
    included, the path [setupEnv] extracts it to is relative to the
    working directory, and so is the directory it makes for a regular
    file; the node it lands on is not under the root. *)
Theorem extraction_path_relative (name : string) :
  let dest := Filepath.Join ["./"; name] in
  Filepath.rooted dest = false
  /\ Filepath.rooted (Filepath.Dir dest) = false
  /\ ~ In "/" (Filepath.key dest).
Proof.
  assert (Hdest : Filepath.rooted (Filepath.Join ["./"; name]) = false).
  { unfold Filepath.Join. change (String.eqb "./" "") with false. cbv iota.
    by apply Clean_relative. }
  cbv zeta. split; [done|]. split.
  - unfold Filepath.Dir. by apply Clean_relative, upto_last_sep_relative.
  - unfold Filepath.key. rewrite Hdest.
    pose proof (clean_elems_no_sep false (Filepath.elements (Filepath.Join ["./"; name]))
                  [] (Forall_nil_2 _) (elements_no_sep _)) as Hes.
    rewrite Forall_forall in Hes. intros Hin. apply list_elem_of_In in Hin.
    by destruct (Hes _ Hin) as [_ Hsep].
Qed.

(** *** More on RunQueries *)

(** What a run of statements has echoed. *)
Lemma submitted_outputs (p : PGLite) (qs0 : list string) (res : result unit)
    (evs : list Event) :
  submitted p qs0 res evs ->
  exists qs post,
    qs0 = qs ++ post
    /\ outputs evs = map (echo p) qs
    /\ match res with
       | Ok _ => post = []
       | Fail e =>
           exists qs' q,
             qs = qs' ++ [q]
             /\ last evs = Some (EvReturn (pg_mod p) "interactive_one" (Some e))
       end.
Proof.
  induction 1 as [|q rest ok mem e|q rest res ok mem evs Hsub IH].
  - by exists [], [].
  - exists [q], rest. split; [done|]. split; [done|]. by exists [], q.
  - destruct IH as (qs & post & -> & Hout & Hres).
    exists (q :: qs), post. split; [done|].
    split; [simpl; by rewrite Hout|].
    destruct res as [[]|e]; [done|].
    destruct Hres as (qs' & q' & -> & Hlast).
    exists (q :: qs'), q'. split; [done|].
    by apply (last_app_Some (statement_events p q ok mem None)).
Qed.

Section RunQueriesFurther.

Context {Guest : Type}.
Variable Call : Module -> string -> World Guest -> (list N * option error) * World Guest.
Variable p : PGLite.
Implicit Types w : World Guest.

Lemma run_lines_filter (lines : list string) w :
  run_lines Call p lines w
  = run_lines Call p (filter (fun s => nonblank s = true) lines) w.
Proof.
  revert w. induction lines as [|line rest IH]; intros w; [done|].
  rewrite run_lines_cons. destruct (nonblank line) eqn:Hline.
  - rewrite filter_cons_True by done. rewrite run_lines_cons, Hline.
    by destruct (Query Call p line _) as [[[]|e] w1].
  - rewrite filter_cons_False by (by rewrite Hline). apply IH.
Qed.

(** X8.  [RunQueries] skips blank pieces altogether: what it does and
    returns is decided by the pieces that are not blank, so two inputs
    with the same such pieces behave alike, and an input with none (the
    empty input too) changes nothing and returns no error. *)
Theorem RunQueries_skips_blank (input input' : string) w :
  statements input = statements input' ->
  RunQueries Call p input w = RunQueries Call p input' w
  /\ (statements input = [] -> RunQueries Call p input w = (Ok tt, w)).
Proof.
  unfold statements, RunQueries. intros Hsame.
  rewrite (run_lines_filter (GoStrings.Split input _)),
    (run_lines_filter (GoStrings.Split input' _)), Hsame.
  split; [done|]. intros Hnone. by rewrite Hnone.
Qed.

Lemma run_lines_echo (lines : list string) w :
  let run := run_lines Call p lines w in
  exists evs qs post,
    w_trace (snd run) = w_trace w ++ evs
    /\ filter (fun s => nonblank s = true) lines = qs ++ post
    /\ (fst run = Ok tt -> post = [])
    /\ ((exists e, fst run = Fail e) -> qs <> [])
    /\ outputs evs = map (echo p) qs
    /\ mem_writes evs = map one_write qs.
Proof.
  revert w. induction lines as [|line rest IH]; intros w.
  { exists [], [], []. simpl. rewrite app_nil_r. repeat split; try done.
    by intros [e He]. }
  cbv zeta. rewrite run_lines_cons. destruct (nonblank line) eqn:Hline.
  - set (w0 := set_trace _ w).
    destruct (Query_run Call p line w0) as (rv & err & w2 & _ & HQ).
    rewrite HQ. clear HQ. rewrite filter_cons_True by done.
    destruct err as [e|].
    + eexists _, [line], _. simpl. rewrite <- app_assoc. simpl.
      repeat split; try done.
    + set (w1 := set_trace _ w2).
      destruct (IH w1) as (evs & qs & post & Htr & Hqs & Hok & Hfail & Hout & Hmw).
      exists ([EvWrite (pg_stderr p) ("REPL: " +:+ line +:+ String GoStrings.LF "");
               EvMemWrite (pg_mod p) 1 (cstring line)
                 (Memory.hasSize (w_mem w0) 1 (length (cstring line)));
               EvCall (pg_mod p) "interactive_one"
                 (fst (Memory.Write 1 (cstring line) (w_mem w0)));
               EvReturn (pg_mod p) "interactive_one" None] ++ evs),
             (line :: qs), post.
      rewrite Htr, Hqs. simpl. rewrite <- !app_assoc. simpl.
      rewrite Hout, Hmw. repeat split; try done.
  - rewrite filter_cons_False by (by rewrite Hline). apply IH.
Qed.

(** X9.  [RunQueries] writes one line per statement it submits,
    [REPL: ] followed by the piece as it stands in the input (not
    trimmed), to the error writer of the [PGLite], right before the
    statement is written to the guest, and it writes nothing else.  The
    statements echoed are those submitted: all the non-blank pieces of
    the input when no error is returned; when one is, those up to the
    one whose call failed, the return of that call being the last thing
    that happens. *)
Theorem RunQueries_echo (input : string) w :
  let run := RunQueries Call p input w in
  exists evs qs post,
    w_trace (snd run) = w_trace w ++ evs
    /\ submitted p (statements input) (fst run) evs
    /\ statements input = qs ++ post
    /\ outputs evs = map (echo p) qs
    /\ match fst run with
       | Ok _ => post = []
       | Fail e =>
           exists qs' q,
             qs = qs' ++ [q]
             /\ last evs = Some (EvReturn (pg_mod p) "interactive_one" (Some e))
       end.
Proof.
  intros run.
  destruct (run_lines_submitted Call p (GoStrings.Split input GoStrings.blank_line) w)
    as (evs & Htr & Hsub).
  destruct (submitted_outputs p _ _ _ Hsub) as (qs & post & Hqs & Hout & Hres).
  by exists evs, qs, post.
Qed.

End RunQueriesFurther.

(** *** The statement as the guest reads it *)

Lemma until_nul_app_nul (bs rest : list byte) :
  until_nul (bs ++ x00 :: rest) = until_nul bs.
Proof.
  induction bs as [|b bs IH]; simpl; [done|].
  destruct (Byte.eqb b x00); [done|]. by rewrite IH.
Qed.

Lemma until_nul_id (bs : list byte) : ~ In x00 bs -> until_nul bs = bs.
Proof.
  induction bs as [|b bs IH]; simpl; [done|]. intros Hno.
  destruct (Byte.eqb b x00) eqn:Hb.
  - apply Byte.byte_dec_bl in Hb. destruct Hno. by left.
  - rewrite IH; [done|]. intros Hin. destruct Hno. by right.
Qed.

Section QueryFurther.

Context {Guest : Type}.
Variable Call : Module -> string -> World Guest -> (list N * option error) * World Guest.
Implicit Types w : World Guest.

(** X10.  When the statement and its terminator fit into the linear
    memory behind offset 1, the zero-terminated string the guest finds at
    offset 1 on entering [interactive_one] is the statement up to its
    first zero byte: all of it when it holds none, and a statement that
    holds one reaches the guest cut short. *)
Theorem Query_c_string (p : PGLite) (sql : string) w :
  Memory.hasSize (w_mem w) 1 (length (cstring sql)) = true ->
  exists ok mem err,
    w_trace (snd (Query Call p sql w)) =
      w_trace w ++ [EvMemWrite (pg_mod p) 1 (cstring sql) ok;
                    EvCall (pg_mod p) "interactive_one" mem;
                    EvReturn (pg_mod p) "interactive_one" err]
    /\ c_string_at 1 mem = until_nul (list_byte_of_string sql)
    /\ (~ In x00 (list_byte_of_string sql) ->
        c_string_at 1 mem = list_byte_of_string sql).
Proof.
  intros Hfit.
  destruct (Query_run Call p sql w) as (rv & err & w2 & _ & HQ). rewrite HQ.
  eexists _, _, err. split; [reflexivity|].
  assert (Hread : c_string_at 1 (fst (Memory.Write 1 (cstring sql) (w_mem w)))
                  = until_nul (list_byte_of_string sql)).
  { unfold Memory.Write, c_string_at. rewrite Hfit.
    apply hasSize_spec in Hfit. cbn [fst].
    rewrite drop_app_length'; [|rewrite length_take; lia].
    unfold cstring. rewrite <- app_assoc. apply until_nul_app_nul. }
  split; [exact Hread|]. intros Hno. rewrite Hread. by apply until_nul_id.
Qed.

End QueryFurther.

(** *** Opening and closing *)

Section CloseFurther.

Context {Guest : Type}.
Variable compressed : Tar.Archive.
Variable InstantiateWithConfig :
  Runtime -> list byte -> ModuleConfig -> World Guest -> (Module * option error) * World Guest.
Variable Call : Module -> string -> World Guest -> (list N * option error) * World Guest.
Implicit Types w : World Guest.

(** X11.  The [PGLite] a successful [NewPGLite] returns holds the runtime
    it made and the two writers it was given.  [Close] on it closes that
    runtime and does nothing else, so that over [NewPGLite] followed by
    [Close] one runtime is made and the same one is closed, once, as the
    last thing that happens.  [Close] on a [PGLite] without a runtime
    does nothing. *)
Theorem NewPGLite_then_Close (so se : Writer) (rc : list (option RuntimeConfig)) w
    (p : PGLite) :
  fst (NewPGLite compressed InstantiateWithConfig Call so se rc w) = Ok p ->
  let w1 := snd (NewPGLite compressed InstantiateWithConfig Call so se rc w) in
  (pg_runtime p = Some (newRuntime rc) /\ pg_stdout p = so /\ pg_stderr p = se)
  /\ Close p w1 = (Ok tt, set_trace (w_trace w1 ++ [EvClose (newRuntime rc)]) w1)
  /\ (exists evs,
        w_trace (snd (Close p w1)) = w_trace w ++ evs
        /\ runtimes evs = [newRuntime rc] /\ closes evs = [newRuntime rc]
        /\ last evs = Some (EvClose (newRuntime rc)))
  /\ forall w' : World Guest,
       Close {| pg_runtime := None; pg_mod := pg_mod p;
                pg_stdout := so; pg_stderr := se |} w' = (Ok tt, w').
Proof.
  intros Hok w1.
  destruct (NewPGLite_cases compressed InstantiateWithConfig Call so se rc w)
    as (pre & Hpre & [(e & _ & Hrun & _)|(blob & m & ierr & tail & _ & Htr & Hboot)]).
  { rewrite Hrun in Hok. discriminate. }
  rewrite Hok in Hboot. fold w1 in Htr.
  destruct (boot_tail_closes _ _ _ _ _ _ _ Hboot) as (Hrt & Hcl & ->).
  destruct (announcement_quiet pre Hpre) as (Hc & Hr & _).
  split; [done|]. split; [done|]. split; [|done].
  unfold Close, runtime_Close, emit. cbn [pg_runtime snd w_trace set_trace].
  rewrite Htr.
  exists (pre ++ ([EvNewRuntime (newRuntime rc); EvWasi (newRuntime rc);
                   EvInstantiate (newRuntime rc) blob (moduleConfig so se);
                   EvInstantiated m ierr] ++ tail) ++ [EvClose (newRuntime rc)]).
  split; [by rewrite <- !app_assoc|].
  rewrite !runtimes_app, !closes_app, Hc, Hr, Hrt, Hcl. simpl.
  repeat split. apply last_app_Some.
  exact (last_app_Some ([_; _; _; _] ++ tail) [_] _ eq_refl).
Qed.

End CloseFurther.

(** *** main *)

Lemma concat_empty_cons (x : string) (xs : list string) :
  String.concat "" (x :: xs) = x +:+ String.concat "" xs.
Proof.
  destruct xs as [|y ys]; [|done]. cbn [String.concat].
  induction x as [|c x IH]; [done|].
  change (String c x +:+ "") with (String c (x +:+ "")). by rewrite <- IH.
Qed.

(** X12.  The chunks the loop of [main] reads from standard input with
    [ReadString(';')], put end to end and followed by what is left
    unread, are the input; every chunk ends in a semicolon, its only one,
    and what is left unread, the text after the last semicolon, holds
    none. *)
Theorem ReadStrings_cuts (delim : ascii) (s : string) :
  String.concat "" (fst (ReadStrings delim s)) +:+ snd (ReadStrings delim s) = s
  /\ Forall (fun chunk => exists body,
               chunk = body +:+ String delim ""
               /\ ~ In delim (list_ascii_of_string body))
       (fst (ReadStrings delim s))
  /\ ~ In delim (list_ascii_of_string (snd (ReadStrings delim s))).
Proof.
  induction s as [|c s (Hcat & Hchunks & Hrest)].
  { simpl. repeat split; [constructor|tauto]. }
  cbn [ReadStrings]. destruct (ReadStrings delim s) as [chunks rest].
  cbn [fst snd] in *.
  destruct (Ascii.eqb c delim) eqn:Hc.
  - apply Ascii.eqb_eq in Hc as ->. cbn [fst snd]. split; [|split; [|done]].
    + rewrite concat_empty_cons.
      change ((String delim "" +:+ String.concat "" chunks) +:+ rest)
        with (String delim (String.concat "" chunks +:+ rest)).
      by rewrite Hcat.
    + constructor; [|done]. exists "". split; [reflexivity|]. simpl. tauto.
  - apply Ascii.eqb_neq in Hc. destruct chunks as [|ch chunks]; cbn [fst snd].
    + split; [|split; [constructor|]].
      * change (String.concat "" [] +:+ rest) with rest in Hcat. by rewrite <- Hcat.
      * simpl. intros [Heq|Hin]; [congruence|by apply Hrest].
    + apply Forall_cons in Hchunks as [(body & -> & Hbody) Hchunks].
      split; [|split; [|done]].
      * rewrite concat_cons_char.
        change (String c (String.concat "" ((body +:+ String delim "") :: chunks)) +:+ rest)
          with (String c (String.concat "" ((body +:+ String delim "") :: chunks) +:+ rest)).
        by rewrite Hcat.
      * constructor; [|done]. exists (String c body). split; [reflexivity|].
        simpl. intros [Heq|Hin]; [congruence|by apply Hbody].
Qed.

Lemma query_event_quiet (evs : list Event) :
  forallb query_event evs = true -> closes evs = [] /\ runtimes evs = [].
Proof.
  induction evs as [|ev evs IH]; [done|]. simpl.
  intros [Hev Hevs]%andb_true_iff. destruct (IH Hevs) as [Hc Hr].
  by destruct ev.
Qed.

Lemma returns_clean_app (a b : list Event) :
  no_error_returned (a ++ b) <-> no_error_returned a /\ no_error_returned b.
Proof. unfold no_error_returned. rewrite returns_app. apply Forall_app. Qed.

Lemma boot_tail_quiet (r : Runtime) (m : Module) (so se : Writer)
    (ierr : option error) (tail : list Event) (res : result PGLite) :
  boot_tail r m so se ierr tail res ->
  mem_writes tail = []
  /\ forall p, res = Ok p -> no_error_returned tail.
Proof.
  intros Hboot. inversion Hboot; (split; [done|]); intros p' Hp; try discriminate.
  by repeat constructor.
Qed.

Section MainFurther.

Context {Guest : Type}.
Variable compressed : Tar.Archive.
Variable InstantiateWithConfig :
  Runtime -> list byte -> ModuleConfig -> World Guest -> (Module * option error) * World Guest.
Variable Call : Module -> string -> World Guest -> (list N * option error) * World Guest.
Implicit Types w : World Guest.

Lemma query_loop_submits (pg : PGLite) (inputs : list string) w :
  let run := query_loop Call pg inputs w in
  exists evs qs post,
    w_trace (snd run) = w_trace w ++ evs
    /\ inputs = qs ++ post
    /\ mem_writes evs = map one_write qs
    /\ forallb query_event evs = true
    /\ (exists e, fst run = Fail e)
    /\ (no_error_returned evs -> post = [] /\ fst run = Fail (LibError "EOF")).
Proof.
  revert w. induction inputs as [|input rest IH]; intros w.
  { exists [], [], []. simpl. rewrite app_nil_r. repeat split; eauto. }
  cbv zeta. cbn [query_loop]. unfold bind.
  destruct (Query_run Call pg input w) as (rv & err & w2 & _ & HQ).
  rewrite HQ. clear HQ. destruct err as [e|].
  - eexists _, [input], rest. cbn [fst snd w_trace set_trace].
    split; [reflexivity|]. split; [reflexivity|]. split; [reflexivity|].
    split; [reflexivity|]. split; [eauto|].
    intros Hclean. apply Forall_cons in Hclean as [Hclean _]. discriminate.
  - set (w1 := set_trace _ w2).
    destruct (IH w1) as (evs & qs & post & Htr & Hqs & Hmw & Hqe & Hfail & Hclean).
    exists ([EvMemWrite (pg_mod pg) 1 (cstring input)
               (Memory.hasSize (w_mem w) 1 (length (cstring input)));
             EvCall (pg_mod pg) "interactive_one"
               (fst (Memory.Write 1 (cstring input) (w_mem w)));
             EvReturn (pg_mod pg) "interactive_one" None] ++ evs),
           (input :: qs), post.
    rewrite Htr. cbn [w_trace set_trace w1]. rewrite <- !app_assoc.
    split; [reflexivity|]. split; [by rewrite Hqs|].
    split; [simpl; by rewrite Hmw|]. split; [exact Hqe|]. split; [exact Hfail|].
    intros Hc. apply returns_clean_app in Hc as [_ Hc]. by apply Hclean.
Qed.

Lemma good_returns_clean (qs : list string) :
  Forall (fun r : string * option error => snd r = None) (map good_return qs).
Proof. induction qs; by constructor. Qed.

Lemma run_lines_submits (p : PGLite) (lines : list string) w :
  let run := run_lines Call p lines w in
  exists evs qs post,
    w_trace (snd run) = w_trace w ++ evs
    /\ filter (fun s => nonblank s = true) lines = qs ++ post
    /\ mem_writes evs = map one_write qs
    /\ forallb query_event evs = true
    /\ match fst run with
       | Ok _ => post = [] /\ no_error_returned evs
       | Fail _ => ~ no_error_returned evs
       end.
Proof.
  cbv zeta. destruct (run_lines Call p lines w) as [res w'] eqn:Hrun.
  destruct (run_lines_spec Call p lines w res w' Hrun) as (evs & Htr & _ & Hqe & Hres).
  cbv zeta in Hres. cbn [fst snd]. destruct res as [[]|e].
  - destruct Hres as (Hmw & _ & Hret).
    exists evs, (filter (fun s => nonblank s = true) lines), [].
    rewrite app_nil_r. repeat split; try done.
    unfold no_error_returned. rewrite Hret. apply good_returns_clean.
  - destruct Hres as (pre & q & post & Hqs & Hmw & _ & Hret).
    exists evs, (pre ++ [q]), post. rewrite <- app_assoc.
    repeat split; try done.
    unfold no_error_returned. rewrite Hret. intros Hclean.
    apply Forall_app in Hclean as [_ Hclean].
    apply Forall_cons in Hclean as [Hclean _]. discriminate.
Qed.

Lemma main_trace (stdin : string) w :
  let run := main compressed InstantiateWithConfig Call stdin w in
  exists evs qs post,
    w_trace (snd run) = w_trace w ++ evs
    /\ statements defaultTests ++ fst (ReadStrings ";" stdin) = qs ++ post
    /\ mem_writes evs = map one_write qs
    /\ (exists e, fst run = Fail e)
    /\ forall pg,
         fst (NewPGLite compressed InstantiateWithConfig Call OsStdout OsStderr [] w)
           = Ok pg ->
         runtimes evs = [newRuntime []] /\ closes evs = []
         /\ (no_error_returned evs ->
             post = [] /\ fst run = Fail (LibError "EOF")).
Proof.
  cbv zeta. rewrite main_unfold. unfold RunQueries, statements.
  generalize (GoStrings.Split defaultTests GoStrings.blank_line). intros lines.
  generalize (fst (ReadStrings ";" stdin)). intros inputs.
  destruct (NewPGLite_cases compressed InstantiateWithConfig Call OsStdout OsStderr [] w)
    as (pre & Hpre & [(e & _ & Hrun & Htr)|(blob & m & ierr & tail & _ & Htr & Hboot)]).
  { rewrite Hrun in Htr |- *. cbn [fst snd] in *.
    exists pre, [], (filter (fun s => nonblank s = true) lines ++ inputs).
    split; [exact Htr|]. split; [done|]. split; [by destruct Hpre as [->| ->]|].
    split; [eauto|]. intros pg Hpg. discriminate. }
  destruct (announcement_quiet pre Hpre) as (Hc & Hr & _).
  assert (Hmwpre : mem_writes pre = []) by (by destruct Hpre as [->| ->]).
  assert (Hretpre : returns pre = []) by (by destruct Hpre as [->| ->]).
  destruct (boot_tail_closes _ _ _ _ _ _ _ Hboot) as (Hrt & Hcl).
  destruct (boot_tail_quiet _ _ _ _ _ _ _ Hboot) as (Hmwt & Hcleant).
  destruct (NewPGLite compressed InstantiateWithConfig Call OsStdout OsStderr [] w)
    as [[pg|e] w1] eqn:Hnew; cbn [fst snd] in *.
  - destruct Hcl as (Hcl & _). specialize (Hcleant pg eq_refl).
    destruct (run_lines_submits pg lines w1)
      as (evsR & qsR & postR & HtrR & HqsR & HmwR & HqeR & HresR).
    destruct (query_event_quiet _ HqeR) as (HclR & HrtR).
    destruct (run_lines Call pg lines w1) as [[[]|e] w2] eqn:Hrl; cbn [fst snd] in *.
    + destruct HresR as [-> HcleanR]. rewrite app_nil_r in HqsR.
      destruct (query_loop_submits pg inputs w2)
        as (evsQ & qsQ & postQ & HtrQ & HqsQ & HmwQ & HqeQ & HfailQ & HcleanQ).
      destruct (query_event_quiet _ HqeQ) as (HclQ & HrtQ).
      exists (pre ++ ([EvNewRuntime (newRuntime []); EvWasi (newRuntime []);
                       EvInstantiate (newRuntime []) blob (moduleConfig OsStdout OsStderr);
                       EvInstantiated m ierr] ++ tail) ++ evsR ++ evsQ),
             (qsR ++ qsQ), postQ.
      split; [by rewrite HtrQ, HtrR, Htr, <- !app_assoc|].
      split; [by rewrite HqsR, HqsQ, <- app_assoc|].
      split.
      { rewrite !mem_writes_app, Hmwpre, Hmwt, HmwR, HmwQ, map_app. done. }
      split; [exact HfailQ|]. intros pg' _.
      rewrite !runtimes_app, !closes_app, Hc, Hr, Hrt, Hcl, HclR, HrtR, HclQ, HrtQ.
      split; [done|]. split; [done|]. intros Hclean.
      apply returns_clean_app in Hclean as [_ Hclean].
      apply returns_clean_app in Hclean as [_ Hclean].
      apply returns_clean_app in Hclean as [_ Hclean]. by apply HcleanQ.
    + exists (pre ++ ([EvNewRuntime (newRuntime []); EvWasi (newRuntime []);
                       EvInstantiate (newRuntime []) blob (moduleConfig OsStdout OsStderr);
                       EvInstantiated m ierr] ++ tail) ++ evsR),
             qsR, (postR ++ inputs).
      split; [by rewrite HtrR, Htr, <- !app_assoc|].
      split; [by rewrite HqsR, <- app_assoc|].
      split.
      { rewrite !mem_writes_app, Hmwpre, Hmwt, HmwR. done. }
      split; [eauto|]. intros pg' _.
      rewrite !runtimes_app, !closes_app, Hc, Hr, Hrt, Hcl, HclR, HrtR.
      split; [done|]. split; [done|]. intros Hclean.
      apply returns_clean_app in Hclean as [_ Hclean].
      apply returns_clean_app in Hclean as [_ Hclean]. by destruct HresR.
  - exists (pre ++ [EvNewRuntime (newRuntime []); EvWasi (newRuntime []);
                    EvInstantiate (newRuntime []) blob (moduleConfig OsStdout OsStderr);
                    EvInstantiated m ierr] ++ tail),
           [], (filter (fun s => nonblank s = true) lines ++ inputs).
    split; [exact Htr|]. split; [done|].
    split; [by rewrite !mem_writes_app, Hmwpre, Hmwt|].
    split; [eauto|]. intros pg Hpg. discriminate.
Qed.

(** X13.  [main] never returns: every run ends in [log.Fatal].  The
    deferred [Close] therefore never runs: once [NewPGLite] has succeeded,
    the one runtime it made is not closed, whatever happens afterwards. *)
Theorem main_never_closes (stdin : string) w :
  let run := main compressed InstantiateWithConfig Call stdin w in
  (exists e, fst run = Fail e)
  /\ exists evs,
       w_trace (snd run) = w_trace w ++ evs
       /\ forall pg,
            fst (NewPGLite compressed InstantiateWithConfig Call OsStdout OsStderr [] w)
              = Ok pg ->
            runtimes evs = [newRuntime []] /\ closes evs = [].
Proof.
  destruct (main_trace stdin w) as (evs & qs & post & Htr & _ & _ & Hfail & Hboot).
  split; [exact Hfail|]. exists evs. split; [exact Htr|].
  intros pg Hpg. destruct (Hboot pg Hpg) as (Hrt & Hcl & _). by split.
Qed.

(** X14.  The statements [main] writes to the guest are, in order, the
    non-blank pieces of [defaultTests] and then the chunks of standard
    input up to each semicolon, as far as it gets.  When [NewPGLite]
    succeeds and no call returns an error, it gets through all of them
    and ends on the end of the input ([io.EOF]); the text after the last
    semicolon is never submitted. *)
Theorem main_submits (stdin : string) w :
  let run := main compressed InstantiateWithConfig Call stdin w in
  exists evs qs post,
    w_trace (snd run) = w_trace w ++ evs
    /\ statements defaultTests ++ fst (ReadStrings ";" stdin) = qs ++ post
    /\ mem_writes evs = map one_write qs
    /\ forall pg,
         fst (NewPGLite compressed InstantiateWithConfig Call OsStdout OsStderr [] w)
           = Ok pg ->
         no_error_returned evs ->
         post = [] /\ fst run = Fail (LibError "EOF").
Proof.
  destruct (main_trace stdin w) as (evs & qs & post & Htr & Hqs & Hmw & _ & Hboot).
  exists evs, qs, post. split; [exact Htr|]. split; [exact Hqs|]. split; [exact Hmw|].
  intros pg Hpg. by destruct (Hboot pg Hpg) as (_ & _ & Hclean).
Qed.

End MainFurther.

Section SubprocessFurther.

Context {Guest : Type}.
Variable compressed : Tar.Archive.
Variable InstantiateWithConfig :
  Runtime -> list byte -> ModuleConfig -> World Guest -> (Module * option error) * World Guest.
Variable Call : Module -> string -> World Guest -> (list N * option error) * World Guest.
Variable Error : error -> string.
Implicit Types w : World Guest.

Lemma subprocess_queries_submits (pg : PGLite) (pieces : list string) w :
  let run := subprocess_queries Call pg pieces w in
  exists evs qs post,
    w_trace (snd run) = w_trace w ++ evs
    /\ filter (fun q => negb (String.eqb q "") = true) (map GoStrings.TrimSpace pieces)
       = qs ++ post
    /\ mem_writes evs = map one_write qs
    /\ forallb query_event evs = true
    /\ outputs evs = []
    /\ match fst run with
       | Ok _ => post = [] /\ no_error_returned evs
       | Fail e => qs <> [] /\ last (returns evs) = Some ("interactive_one", Some e)
       end.
Proof.
  revert w. induction pieces as [|q rest IH]; intros w.
  { exists [], [], []. simpl. rewrite app_nil_r. repeat split; try done.
    constructor. }
  cbv zeta. cbn [subprocess_queries map].
  destruct (String.eqb (GoStrings.TrimSpace q) "") eqn:Hq.
  { rewrite filter_cons_False by (by rewrite Hq). apply IH. }
  rewrite filter_cons_True by (by rewrite Hq). unfold bind.
  destruct (Query_run Call pg (GoStrings.TrimSpace q) w) as (rv & err & w2 & _ & HQ).
  rewrite HQ. clear HQ. destruct err as [e|].
  - eexists _, [GoStrings.TrimSpace q], _. cbn [fst snd w_trace set_trace].
    split; [reflexivity|]. by repeat split.
  - set (w1 := set_trace _ w2).
    destruct (IH w1) as (evs & qs & post & Htr & Hqs & Hmw & Hqe & Hout & Hres).
    exists ([EvMemWrite (pg_mod pg) 1 (cstring (GoStrings.TrimSpace q))
               (Memory.hasSize (w_mem w) 1 (length (cstring (GoStrings.TrimSpace q))));
             EvCall (pg_mod pg) "interactive_one"
               (fst (Memory.Write 1 (cstring (GoStrings.TrimSpace q)) (w_mem w)));
             EvReturn (pg_mod pg) "interactive_one" None] ++ evs),
           (GoStrings.TrimSpace q :: qs), post.
    rewrite Htr. cbn [w_trace set_trace w1]. rewrite <- !app_assoc.
    split; [reflexivity|]. split; [by rewrite Hqs|].
    split; [simpl; by rewrite Hmw|]. split; [exact Hqe|]. split; [exact Hout|].
    destruct (fst (subprocess_queries Call pg rest w1)) as [[]|e].
    + destruct Hres as [-> Hclean]. split; [done|].
      apply returns_clean_app. split; [|done]. by repeat constructor.
    + destruct Hres as [Hne Hlast]. split; [done|].
      rewrite returns_app. by apply last_app_Some.
Qed.

(** X15.  [runSubprocess] ends in one of three ways.  With status 0:
    [NewPGLite] succeeded, every piece of [PGLITE_QUERIES] between double
    semicolons that is not blank was submitted, trimmed and in order, no
    call returned an error, and the runtime was closed, once and last of
    all.  With status 1 after [NewPGLite] failed: nothing was submitted
    and the last thing written is the [INIT_ERROR] line.  With status 1
    after a statement failed: the statements up to that one were
    submitted, the last thing written is the [QUERY_ERROR] line with
    that call's error, and the runtime was not closed. *)
Theorem runSubprocess_outcome (queries : string) w :
  let boot := NewPGLite compressed InstantiateWithConfig Call OsStdout OsStderr [] w in
  let run := runSubprocess compressed InstantiateWithConfig Call Error queries w in
  exists evs,
    w_trace (snd run) = w_trace w ++ evs
    /\ ((fst run = 0%N
         /\ (exists pg, fst boot = Ok pg)
         /\ mem_writes evs = map one_write (subprocess_statements queries)
         /\ no_error_returned evs
         /\ closes evs = [newRuntime []]
         /\ last evs = Some (EvClose (newRuntime [])))
        \/ (fst run = 1%N
            /\ exists e,
                 fst boot = Fail e
                 /\ mem_writes evs = []
                 /\ last evs = Some (EvWrite OsStderr
                                       ("INIT_ERROR: " +:+ Error e
                                          +:+ String GoStrings.LF "")))
        \/ (fst run = 1%N
            /\ exists e qs post,
                 subprocess_statements queries = qs ++ post
                 /\ qs <> []
                 /\ mem_writes evs = map one_write qs
                 /\ last (returns evs) = Some ("interactive_one", Some e)
                 /\ closes evs = []
                 /\ last evs = Some (EvWrite OsStderr
                                       ("QUERY_ERROR: " +:+ Error e
                                          +:+ String GoStrings.LF "")))).
Proof.
  cbv zeta. unfold runSubprocess, subprocess_statements, semicolons.
  generalize (GoStrings.Split queries ";;"). intros pieces.
  destruct (NewPGLite_cases compressed InstantiateWithConfig Call OsStdout OsStderr [] w)
    as (pre & Hpre & [(e & _ & Hrun & Htr)|(blob & m & ierr & tail & _ & Htr & Hboot)]).
  { rewrite Hrun in Htr |- *. cbn [fst snd Fprint emit w_trace set_trace] in *.
    eexists. split; [by rewrite Htr, <- app_assoc|]. right; left. split; [done|].
    eexists. split; [done|]. split.
    - rewrite mem_writes_app. by destruct Hpre as [->| ->].
    - by rewrite last_snoc. }
  destruct (announcement_quiet pre Hpre) as (Hc & Hr & _).
  assert (Hmwpre : mem_writes pre = []) by (by destruct Hpre as [->| ->]).
  destruct (boot_tail_closes _ _ _ _ _ _ _ Hboot) as (Hrt & Hcl).
  destruct (boot_tail_quiet _ _ _ _ _ _ _ Hboot) as (Hmwt & Hcleant).
  destruct (NewPGLite compressed InstantiateWithConfig Call OsStdout OsStderr [] w)
    as [[pg|e] w1] eqn:Hnew; cbn [fst snd] in *.
  - destruct Hcl as (Hcl & Hpg). specialize (Hcleant pg eq_refl).
    destruct (subprocess_queries_submits pg pieces w1)
      as (evsQ & qs & post & HtrQ & Hqs & Hmw & Hqe & Hout & Hres).
    destruct (query_event_quiet _ Hqe) as (HclQ & HrtQ).
    destruct (subprocess_queries Call pg pieces w1) as [[[]|e] w2];
      cbn [fst snd Fprint emit w_trace set_trace] in *.
    + destruct Hres as [-> Hclean]. rewrite app_nil_r in Hqs.
      rewrite Hpg. unfold Close, runtime_Close, emit.
      cbn [pg_runtime fst snd w_trace set_trace].
      eexists. split; [by rewrite HtrQ, Htr, <- !app_assoc|]. left.
      split; [done|]. split; [eauto|].
      rewrite !mem_writes_app, !closes_app, Hmwpre, Hmwt, Hmw, Hqs, Hc, Hcl, HclQ.
      split; [by rewrite app_nil_r|]. split.
      { apply returns_clean_app.
        split; [destruct Hpre as [->| ->]; constructor|].
        apply (returns_clean_app [_; _; _; _]). split; [constructor|].
        apply returns_clean_app. split; [exact Hcleant|].
        apply returns_clean_app. split; [exact Hclean|constructor]. }
      split; [done|].
      apply last_app_Some.
      apply (last_app_Some ([_; _; _; _] ++ tail)). by apply last_app_Some.
    + destruct Hres as [Hne Hlast].
      eexists. split; [by rewrite HtrQ, Htr, <- !app_assoc|]. right; right.
      split; [done|]. exists e, qs, post. split; [done|]. split; [done|].
      rewrite !mem_writes_app, !closes_app, !returns_app, Hmwpre, Hmwt, Hmw, Hc, Hcl, HclQ.
      split; [by rewrite app_nil_r|]. split.
      { do 3 apply last_app_Some. cbn [returns]. by rewrite app_nil_r. }
      split; [done|].
      apply last_app_Some.
      apply (last_app_Some ([_; _; _; _] ++ tail)). by apply last_app_Some.
  - cbn [fst snd Fprint emit w_trace set_trace] in *.
    eexists. split; [by rewrite Htr, <- !app_assoc|]. right; left.
    split; [done|]. exists e. split; [done|].
    rewrite !mem_writes_app, Hmwpre, Hmwt. split; [done|].
    apply last_app_Some.
    apply (last_app_Some ([_; _; _; _] ++ tail)). done.
Qed.

End SubprocessFurther.

(** *** The pieces of strings.Split *)

Lemma split_from_pieces (sep : string) :
  sep <> "" ->
  forall n s, String.length s < n ->
    (forall q, In q (GoStrings.split_from sep 0 s) -> ~ contains sep q)
    /\ exists seg segs r,
         GoStrings.split_from sep 0 s = seg :: segs /\ s = seg +:+ r.
Proof.
  intros Hsep n. induction n as [|n IH]; intros s Hn; [lia|].
  destruct s as [|c s].
  { split; [|by exists "", [], ""].
    intros q [<-|[]]. by apply empty_contains_not. }
  cbn [GoStrings.split_from].
  destruct (String.prefix sep (String c s)) eqn:Hp.
  - apply prefix_app in Hp as [r Hr].
    destruct sep as [|a sep]; [done|].
    change (String a sep +:+ r) with (String a (sep +:+ r)) in Hr.
    injection Hr as -> ->.
    change (String.length (String a sep) - 1) with (String.length sep - 0).
    rewrite Nat.sub_0_r, split_from_skip.
    split; [|by eexists "", _, _].
    intros q [<-|Hq]; [by apply empty_contains_not|].
    apply (IH r); [|done]. simpl in Hn. rewrite length_append in Hn. lia.
  - destruct (IH s) as (Hpieces & seg & segs & r & Hsplit & Hs); [simpl in Hn; lia|].
    rewrite Hsplit in Hpieces |- *.
    split; [|exists (String c seg), segs, r; by rewrite Hs at 1].
    intros q [<-|Hq]; [|apply Hpieces; by right].
    intros (a & b & Heq). destruct a as [|c' a].
    + change ("" +:+ sep +:+ b) with (sep +:+ b) in Heq.
      assert (Hs' : String c s = sep +:+ (b +:+ r)).
      { rewrite <- append_assoc', <- Heq, Hs. done. }
      rewrite Hs', prefix_of_app in Hp. discriminate.
    + change (String c' a +:+ sep +:+ b) with (String c' (a +:+ sep +:+ b)) in Heq.
      injection Heq as -> Hseg. apply (Hpieces seg); [by left|]. by exists a, b.
Qed.

Section RunQueriesPieces.

Context {Guest : Type}.
Variable Call : Module -> string -> World Guest -> (list N * option error) * World Guest.
Variable p : PGLite.
Implicit Types w : World Guest.

(** X16.  No statement that [RunQueries] writes to the guest is blank, and
    none contains a blank line: a statement with an empty line inside
    reaches the guest in pieces. *)
Theorem RunQueries_no_blank_line (input : string) w :
  exists evs,
    w_trace (snd (RunQueries Call p input w)) = w_trace w ++ evs
    /\ Forall (fun wr => exists q,
                 wr = one_write q /\ nonblank q = true
                 /\ ~ contains GoStrings.blank_line q)
         (mem_writes evs).
Proof.
  destruct (run_lines_echo Call p (GoStrings.Split input GoStrings.blank_line) w)
    as (evs & qs & post & Htr & Hqs & _ & _ & _ & Hmw).
  exists evs. split; [exact Htr|]. rewrite Hmw, Forall_map, Forall_forall.
  intros q Hq. exists q. split; [done|].
  assert (Hin : q ∈ filter (fun s => nonblank s = true)
                     (GoStrings.Split input GoStrings.blank_line)).
  { rewrite Hqs. apply elem_of_app. by left. }
  apply list_elem_of_filter in Hin as [Hnb Hin]. split; [exact Hnb|].
  apply list_elem_of_In in Hin.
  assert (Hsep : GoStrings.blank_line <> "") by done.
  destruct (split_from_pieces _ Hsep (S (String.length input)) input) as [Hpieces _];
    [lia|].
  by apply Hpieces.
Qed.

End RunQueriesPieces.

(** *** What NewPGLite writes and what it instantiates *)

Lemma boot_tail_outputs (r : Runtime) (m : Module) (so se : Writer)
    (ierr : option error) (tail : list Event) (res : result PGLite) :
  boot_tail r m so se ierr tail res ->
  (forall r' blob cfg, ~ In (EvInstantiate r' blob cfg) tail)
  /\ (outputs tail = []
      \/ exists rv, outputs tail =
                      [(se, "initdb returned: " +:+ fmt_b_slice rv +:+ String GoStrings.LF "")])
  /\ (forall p, res = Ok p -> outputs tail <> []).
Proof.
  intros Hboot.
  inversion Hboot as [code' Hnz|e' Hne|ierr' mem e' Hgo|ierr' mem rv mem' e' Hgo
                      |ierr' mem rv mem' Hgo]; subst;
    (split; [intros r' blob cfg Hin; simpl in Hin; intuition discriminate|]);
    (split; [first [by left|right; by exists rv]|]); intros p' Hp; done.
Qed.

Section NewPGLiteOutputs.

Context {Guest : Type}.
Variable compressed : Tar.Archive.
Variable InstantiateWithConfig :
  Runtime -> list byte -> ModuleConfig -> World Guest -> (Module * option error) * World Guest.
Variable Call : Module -> string -> World Guest -> (list N * option error) * World Guest.
Implicit Types w : World Guest.

(** X17.  What [NewPGLite] itself writes: the announcement of the
    extraction, if any, which goes to the standard output of the process
    and not to the writer passed as [stdout]; then, once [pg_initdb] has
    returned without error, one line [initdb returned: ...] to the writer
    passed as [stderr].  It writes nothing else, and a run that succeeds
    has written that line. *)
Theorem NewPGLite_outputs (so se : Writer) (rc : list (option RuntimeConfig)) w :
  let run := NewPGLite compressed InstantiateWithConfig Call so se rc w in
  exists evs ann init,
    w_trace (snd run) = w_trace w ++ evs
    /\ outputs evs = ann ++ init
    /\ (ann = [] \/ ann = [(OsStdout, "Extracting env...." +:+ String GoStrings.LF "")])
    /\ (init = []
        \/ exists rv, init = [(se, "initdb returned: " +:+ fmt_b_slice rv
                                     +:+ String GoStrings.LF "")])
    /\ (forall p, fst run = Ok p -> init <> []).
Proof.
  intros run.
  destruct (NewPGLite_cases compressed InstantiateWithConfig Call so se rc w)
    as (pre & Hpre & [(e & _ & Hrun & Htr)|(blob & m & ierr & tail & _ & Htr & Hboot)]);
    subst run.
  - exists pre, (outputs pre), []. split; [exact Htr|]. rewrite app_nil_r.
    split; [done|]. split; [by destruct Hpre as [->| ->]; [left|right]|].
    split; [by left|]. intros p Hp. rewrite Hrun in Hp. discriminate.
  - destruct (boot_tail_outputs _ _ _ _ _ _ _ Hboot) as (_ & Hout & Hok).
    eexists _, (outputs pre), (outputs tail). split; [exact Htr|].
    split; [by rewrite !outputs_app|].
    split; [by destruct Hpre as [->| ->]; [left|right]|].
    split; [exact Hout|exact Hok].
Qed.

(** X18.  [NewPGLite] instantiates at most one module, and exactly one
    when [setupEnv] succeeds: on the runtime it made, with the writers it
    was given, and from the bytes [setupEnv] returned, which are the
    contents of [./tmp/pglite/bin/postgres.wasi] as the file tree has
    them after [setupEnv]. *)
Theorem NewPGLite_instantiates (so se : Writer) (rc : list (option RuntimeConfig)) w :
  let run := NewPGLite compressed InstantiateWithConfig Call so se rc w in
  exists evs,
    w_trace (snd run) = w_trace w ++ evs
    /\ (forall r blob cfg,
          In (EvInstantiate r blob cfg) evs ->
          r = newRuntime rc /\ cfg = moduleConfig so se
          /\ fst (setupEnv compressed w) = Ok blob
          /\ OS.ReadFile "./tmp/pglite/bin/postgres.wasi"
               (w_fs (snd (setupEnv compressed w))) = Ok blob)
    /\ (forall blob,
          fst (setupEnv compressed w) = Ok blob ->
          exists a b,
            evs = a ++ EvInstantiate (newRuntime rc) blob (moduleConfig so se) :: b
            /\ (forall r' blob' cfg', ~ In (EvInstantiate r' blob' cfg') (a ++ b))).
Proof.
  intros run.
  destruct (NewPGLite_cases compressed InstantiateWithConfig Call so se rc w)
    as (pre & Hpre & [(e & Hsetup & Hrun & Htr)|(blob & m & ierr & tail & Hsetup & Htr & Hboot)]);
    subst run.
  - exists pre. split; [exact Htr|]. split.
    + intros r blob cfg Hin. destruct Hpre as [->| ->]; simpl in Hin; intuition discriminate.
    + intros blob Hblob. rewrite Hsetup in Hblob. discriminate.
  - destruct (boot_tail_outputs _ _ _ _ _ _ _ Hboot) as (Hnone & _ & _).
    assert (Hpre' : forall r' blob' cfg', ~ In (EvInstantiate r' blob' cfg') pre).
    { intros r' blob' cfg' Hin.
      destruct Hpre as [->| ->]; simpl in Hin; intuition discriminate. }
    eexists. split; [exact Htr|]. split.
    + intros r blob' cfg Hin. apply in_app_iff in Hin as [Hin|Hin];
        [by apply Hpre' in Hin|].
      simpl in Hin. destruct Hin as [?|[?|[Heq|[?|Hin]]]]; try discriminate;
        [|by apply Hnone in Hin].
      injection Heq as <- <- <-. repeat split; try done.
      rewrite setupEnv_unfold in Hsetup |- *.
      destruct (extractEnv compressed w) as [[[]|e] w0]; [|discriminate].
      destruct (randomShim w0) as [res w1] eqn:Hshim. simpl in Hsetup. subst res.
      by destruct (randomShim_ok _ _ _ Hshim) as (fs1 & _ & _ & _ & _ & Hread).
    + intros blob' Hblob. rewrite Hsetup in Hblob. injection Hblob as <-.
      exists (pre ++ [EvNewRuntime (newRuntime rc); EvWasi (newRuntime rc)]),
             (EvInstantiated m ierr :: tail).
      split; [by rewrite <- app_assoc|].
      intros r' blob' cfg' Hin. rewrite <- app_assoc in Hin.
      apply in_app_iff in Hin as [Hin|Hin]; [by apply Hpre' in Hin|].
      simpl in Hin. destruct Hin as [?|[?|[?|Hin]]]; try discriminate.
      by apply Hnone in Hin.
Qed.

End NewPGLiteOutputs.

(** *** What the extraction puts into the tree *)

Section NoLinks.

Context {Guest : Type}.
Implicit Types w : World Guest.



End NoLinks.

Section ExtractContents.

Context {Guest : Type}.
Implicit Types w : World Guest.





End ExtractContents.

Section SetupEnvBinary.

Context {Guest : Type}.
Implicit Types w : World Guest.


End SetupEnvBinary.


(* ------------------------------------------------------------------ *)
(** ** The further properties at work *)

(** [NewPGLite_errors] on an archive that is not gzip: the error of
    [setupEnv], wrapped. *)
Lemma NewPGLite_errors_sample :
  exists e',
    fst (NewPGLite Sample.broken_archive (Sample.instantiate_with None)
           (Sample.call_with []) OsStdout OsStderr [] (Sample.world 8))
      = Fail (WrapError "setupEnv" e')
    /\ e' = LibError "gzip: invalid header".
Proof.
  destruct (NewPGLite_errors Sample.broken_archive (Sample.instantiate_with None)
              (Sample.call_with []) OsStdout OsStderr [] (Sample.world 8)
              (WrapError "setupEnv" (LibError "gzip: invalid header")))
    as [(e' & Hsetup & Heq & _)|[(code & _ & Heq & _)|[(e' & _ & Heq & _)
        |[(e' & Heq & _)|(e' & Heq & _)]]]];
    [vm_compute; reflexivity| |discriminate..].
  injection Heq as <-. eexists. split; [vm_compute|]; reflexivity.
Defined.

(** [extract_twice_fails] on the archive with a link, in an empty tree. *)
Lemma extract_twice_fails_sample :
  exists e,
    fst (extract Sample.linked (snd (extract Sample.linked (Sample.world 8)))) = Fail e.
Proof.
  apply (extract_twice_fails Sample.linked (Sample.world 8)); vm_compute; reflexivity.
Defined.

(** [RunQueries_skips_blank] on the two sample inputs. *)
Lemma RunQueries_skips_blank_sample :
  RunQueries (Sample.call_with []) Sample.pg Sample.spaced (Sample.world 16)
  = RunQueries (Sample.call_with []) Sample.pg Sample.tight (Sample.world 16).
Proof.
  apply (RunQueries_skips_blank (Sample.call_with []) Sample.pg
           Sample.spaced Sample.tight (Sample.world 16)).
  vm_compute. reflexivity.
Defined.

(** [Query_c_string] on a memory of sixteen bytes. *)
Lemma Query_c_string_sample :
  exists ok mem err,
    w_trace (snd (Query (Sample.call_with []) Sample.pg Sample.sql (Sample.world 16))) =
      w_trace (Sample.world 16)
        ++ [EvMemWrite (pg_mod Sample.pg) 1 (cstring Sample.sql) ok;
            EvCall (pg_mod Sample.pg) "interactive_one" mem;
            EvReturn (pg_mod Sample.pg) "interactive_one" err]
    /\ c_string_at 1 mem = until_nul (list_byte_of_string Sample.sql)
    /\ (~ In x00 (list_byte_of_string Sample.sql) ->
        c_string_at 1 mem = list_byte_of_string Sample.sql).
Proof.
  apply (Query_c_string (Sample.call_with []) Sample.pg Sample.sql (Sample.world 16)).
  vm_compute. reflexivity.
Defined.

(** [NewPGLite_then_Close] on a guest that accepts everything. *)
Lemma NewPGLite_then_Close_sample :
  closes (w_trace (snd (Close Sample.pg
                          (snd (NewPGLite Sample.archive (Sample.instantiate_with None)
                                  (Sample.call_with []) OsStdout OsStderr []
                                  (Sample.world 8))))))
    = [NewRuntime].
Proof.
  destruct (NewPGLite_then_Close Sample.archive (Sample.instantiate_with None)
              (Sample.call_with []) OsStdout OsStderr [] (Sample.world 8) Sample.pg)
    as (_ & _ & (evs & Htr & _ & Hcl & _) & _); [vm_compute; reflexivity|].
  change (w_trace (Sample.world 8) ++ evs) with evs in Htr. subst evs.
  exact Hcl.
Defined.



